(** * wechat-channel: access policy, debounce merge, media delivery and
      the reconnecting WebSocket client

    A shallow embedding of the TypeScript sources [src/websocket.ts] and
    [src/runtime.ts] (the channel runtime, in its RuoYi and WeChat variants),
    followed by the properties of the specification that were checked
    against it.

    Conventions of the embedding.
    - A JavaScript string is a sequence of UTF-16 code units; the embedding
      covers the code units below 256 (one [ascii] each), on which
      [trim] and [toLowerCase] are defined as ECMAScript defines them.
    - [undefined]/[null] are [None]; an optional field is an [option].
    - A plain object used as a table ([groups], [groupMembers]) is a finite
      map over its own keys; a read [table[key]] also finds the members that
      every plain object inherits from [Object.prototype], and is embedded
      with them where the code does not exclude them.
    - The constructors of the platform that can throw ([new WebSocket(url)])
      have both outcomes in the embedding.
    - Functions of the host ([openclaw/plugin-sdk]) and of the platform
      ([URL], [decodeURIComponent], [parseFloat]) are parameters, collected in
      records that the embedded functions take as their first argument.
    - A function with early [return]s and [throw]s returns a value that says
      where it left and what it did on the way. *)

From Stdlib Require Import ZArith Ascii String List Bool Lia.
From stdpp Require Import base strings gmap list.
Import ListNotations.
Open Scope string_scope.

(** ** JavaScript string primitives *)

Module Js.

Definition codeUnit (c : ascii) : nat := nat_of_ascii c.

(** ECMAScript WhiteSpace and LineTerminator code points below 256:
    TAB, LF, VT, FF, CR, SPACE and NO-BREAK SPACE. *)
Definition isWhiteSpace (c : ascii) : bool :=
  let n := codeUnit c in
  (((9 <=? n) && (n <=? 13)) || (n =? 32) || (n =? 160))%nat.

(** [String.prototype.toLowerCase] on one code unit below 256: the Latin
    capitals A-Z and U+00C0-U+00DE (but not the multiplication sign
    U+00D7) move up by 32. *)
Definition toLowerCaseUnit (c : ascii) : ascii :=
  let n := codeUnit c in
  if (((65 <=? n) && (n <=? 90))
      || ((192 <=? n) && (n <=? 222) && negb (n =? 215)))%nat
  then ascii_of_nat (n + 32) else c.

Fixpoint toLowerCase (s : string) : string :=
  match s with
  | EmptyString => EmptyString
  | String c r => String (toLowerCaseUnit c) (toLowerCase r)
  end.

Fixpoint trimStart (s : string) : string :=
  match s with
  | EmptyString => EmptyString
  | String c r => if isWhiteSpace c then trimStart r else s
  end.

Fixpoint trimEnd (s : string) : string :=
  match s with
  | EmptyString => EmptyString
  | String c r =>
      match trimEnd r with
      | EmptyString => if isWhiteSpace c then EmptyString else String c EmptyString
      | r' => String c r'
      end
  end.

(** [String.prototype.trim]. *)
Definition trim (s : string) : string := trimEnd (trimStart s).

(** ToBoolean of a string: only the empty string is falsy. *)
Definition truthy (s : string) : bool :=
  match s with EmptyString => false | String _ _ => true end.

(** [a || b] on strings. *)
Definition orElse (a b : string) : string := if truthy a then a else b.

(** [s.startsWith(p)]: the rest of [s] after [p], when [s] starts with it. *)
Fixpoint stripPrefix (p s : string) : option string :=
  match p, s with
  | EmptyString, _ => Some s
  | String a p', String b s' => if Ascii.eqb a b then stripPrefix p' s' else None
  | String _ _, EmptyString => None
  end.

Definition startsWith (s p : string) : bool :=
  match stripPrefix p s with Some _ => true | None => false end.

(** Matching a literal at the start of [s] under the regular-expression
    flag [i]: code units are compared after case folding.  The literals of
    this program are ASCII, for which folding both sides to lower case
    is what the flag does on code units below 256. *)
Fixpoint stripPrefixIgnoreCase (p s : string) : option string :=
  match p, s with
  | EmptyString, _ => Some s
  | String a p', String b s' =>
      if Ascii.eqb (toLowerCaseUnit a) (toLowerCaseUnit b)
      then stripPrefixIgnoreCase p' s' else None
  | String _ _, EmptyString => None
  end.

(** [s.replace(/^(p1|p2|...):/i, "")]: the alternatives are tried in
    order, each followed by a colon; the first that matches is removed. *)
Fixpoint replaceSchemePrefix (alternatives : list string) (s : string) : string :=
  match alternatives with
  | [] => s
  | p :: ps =>
      match stripPrefixIgnoreCase (p +:+ ":") s with
      | Some rest => rest
      | None => replaceSchemePrefix ps s
      end
  end.

(** [parts.join(sep)]. *)
Fixpoint join (sep : string) (parts : list string) : string :=
  match parts with
  | [] => EmptyString
  | [p] => p
  | p :: ps => p +:+ sep +:+ join sep ps
  end.

(** [s.split(sep)] for a separator given as a predicate on one code unit
    (a one-character string, or a character class such as [/[?#]/]); the
    accumulator holds the piece being read. *)
Fixpoint splitOnAcc (sep : ascii -> bool) (acc : string) (s : string) : list string :=
  match s with
  | EmptyString => [acc]
  | String c r =>
      if sep c then acc :: splitOnAcc sep EmptyString r
      else splitOnAcc sep (acc +:+ String c EmptyString) r
  end.

Definition splitOn (sep : ascii -> bool) (s : string) : list string :=
  splitOnAcc sep EmptyString s.

Definition split (sep : ascii) (s : string) : list string :=
  splitOn (Ascii.eqb sep) s.

(** [s.includes(c)] for a one-character string. *)
Fixpoint includesUnit (c : ascii) (s : string) : bool :=
  match s with
  | EmptyString => false
  | String d r => Ascii.eqb c d || includesUnit c r
  end.

Definition newline : string := String (ascii_of_nat 10) EmptyString.

(** [s.slice(n)]. *)
Fixpoint slice (n : nat) (s : string) : string :=
  match n, s with
  | O, _ => s
  | S n', String _ r => slice n' r
  | S _, EmptyString => EmptyString
  end.

(** [xs[0]] and [xs[1]]. *)
Definition first (xs : list string) : option string := head xs.
Definition second (xs : list string) : option string := head (tail xs).

(** The property names that every plain object inherits from
    [Object.prototype]: [o[key]] is defined for them also when [o] has no
    own property [key]. *)
Definition objectPrototypeKeys : list string :=
  ["constructor"; "hasOwnProperty"; "isPrototypeOf"; "propertyIsEnumerable";
   "toLocaleString"; "toString"; "valueOf"; "__proto__";
   "__defineGetter__"; "__defineSetter__"; "__lookupGetter__"; "__lookupSetter__"].

Definition inherited (key : string) : bool :=
  existsb (String.eqb key) objectPrototypeKeys.

End Js.

(** ** Messages ([src/types.ts]) *)

(** [isMentioned?: boolean | number]. *)
Inductive MentionFlag :=
| MentionBool (b : bool)
| MentionNumber (n : Z).

Record WechatMessage := {
  id : Z;
  newMsgId : Z;
  msgType : Z;
  content : option string;
  fromUserName : string;
  toUserName : string;
  isGroupMsg : bool;
  isMentioned : option MentionFlag;
  actualSender : option string;
  createTimeMsg : Z;
  senderNickname : option string
}.

(** [Boolean(flag)] for a mention flag: [undefined], [false] and [0] are
    falsy. *)
Definition mentionTruthy (flag : option MentionFlag) : bool :=
  match flag with
  | None => false
  | Some (MentionBool b) => b
  | Some (MentionNumber n) => negb (n =? 0)%Z
  end.

(** ** The WebSocket client ([src/websocket.ts]) *)

Module WebSocket.

Inductive ReadyState := CONNECTING | OPEN | CLOSING | CLOSED.

Inductive ContactType := Friend | Group.

(** The frames the client serialises with [JSON.stringify]. *)
Inductive Frame :=
| Auth (robotWxid : string)
| SendText (toWxid content : string) (at_ : list string)
| SendImage (toWxid imageUrl : string)
| MarkProcessed (messageIds : list Z)
| QueryContacts (contactType : ContactType).

(** What [JSON.parse(event.data)] yields in [onmessage]. *)
Inductive WebSocketMessage :=
| MsgAuth (status message : string)
| MsgMessage (data : WechatMessage)
| MsgPing (timestamp : Z)
| MsgError (message : string)
| MsgSendResult (success : bool) (messageId : option string).

Inductive Incoming :=
| Parsed (m : WebSocketMessage)
| UnknownType
| Malformed.

(** The lines written to the logger, by what they say. *)
Inductive LogLine :=
| Connecting (url : string)
| ConnectionOpened
| ReceivedPing
| ServerError (message : string)
| AuthResponse
| SendResult
| UnknownMessageType
| HandlingFailed
| SocketError
| ConnectionClosed
| ReconnectLimitReached
| ReconnectIn (delay : Z) (attempt limit : nat)
| NotConnectedSendFailed.

(** The [Error] passed to [options.onError]: the message of the server's
    error frame, or the fixed message of a socket error. *)
Inductive ErrorValue :=
| ServerSaid (message : string)
| SocketFailure.

(** What the client does that its owner can observe: log lines and the
    callbacks of [options]. *)
Inductive Event :=
| LogInfo (l : LogLine)
| LogWarn (l : LogLine)
| LogError (l : LogLine)
| LogDebug (l : LogLine)
| OnConnect
| OnDisconnect
| OnError (e : ErrorValue)
| OnMessage (data : WechatMessage).

(** How a call comes back to its caller. *)
Inductive Completion :=
| Returned
| Threw (message : string).

Record Socket := {
  url : string;
  readyState : ReadyState;
  sent : list Frame
}.

(** [WebSocketClientConfig]; its callbacks and its logger are not fields
    here: what the client passes to them is recorded as [Event]s. *)
Record Options := {
  baseUrl : string;
  optRobotWxid : string
}.

(** The client object and the part of the platform it acts on: the
    sockets it has created, the timeouts that are pending (handle and
    delay in milliseconds), and what has been observed so far (latest
    first). *)
Record Client := {
  options : Options;
  ws : option nat;
  robotWxid : string;
  reconnectTimer : option nat;
  reconnectAttempts : nat;
  sockets : gmap nat Socket;
  timers : gmap nat Z;
  nextHandle : nat;
  events : list Event
}.

(** [private maxReconnectAttempts = 10], never assigned again. *)
Definition maxReconnectAttempts : nat := 10.

(** [new WechatWebSocketClient(options)]. *)
Definition new (o : Options) : Client :=
  {| options := o; ws := None; robotWxid := optRobotWxid o;
     reconnectTimer := None; reconnectAttempts := 0;
     sockets := ∅; timers := ∅; nextHandle := 1; events := [] |}.

Definition emit (e : Event) (c : Client) : Client :=
  {| options := options c; ws := ws c; robotWxid := robotWxid c;
     reconnectTimer := reconnectTimer c;
     reconnectAttempts := reconnectAttempts c;
     sockets := sockets c; timers := timers c;
     nextHandle := nextHandle c; events := e :: events c |}.

Definition setSockets (s : gmap nat Socket) (c : Client) : Client :=
  {| options := options c; ws := ws c; robotWxid := robotWxid c;
     reconnectTimer := reconnectTimer c;
     reconnectAttempts := reconnectAttempts c;
     sockets := s; timers := timers c;
     nextHandle := nextHandle c; events := events c |}.

Definition setReadyState (r : ReadyState) (s : Socket) : Socket :=
  {| url := url s; readyState := r; sent := sent s |}.

(** [s.replace(pat, rep)] with a string pattern: the first occurrence. *)
Fixpoint replaceFirst (pat rep s : string) : string :=
  match Js.stripPrefix pat s with
  | Some rest => rep +:+ rest
  | None =>
      match s with
      | EmptyString => EmptyString
      | String ch r => String ch (replaceFirst pat rep r)
      end
  end.

Definition socketUrl (c : Client) : string :=
  replaceFirst "https://" "wss://"
    (replaceFirst "http://" "ws://" (baseUrl (options c)))
  +:+ "/ws/robot/" +:+ robotWxid c.

(** [connect()] when [new WebSocket(url)] returns a socket: the new socket
    replaces [this.ws]; nothing else of the client changes.  The four
    handlers are attached to the new socket. *)
Definition connect (c : Client) : Client :=
  let u := socketUrl c in
  let c := emit (LogInfo (Connecting u)) c in
  let sid := nextHandle c in
  {| options := options c; ws := Some sid; robotWxid := robotWxid c;
     reconnectTimer := reconnectTimer c;
     reconnectAttempts := reconnectAttempts c;
     sockets := <[sid := {| url := u; readyState := CONNECTING; sent := [] |}]> (sockets c);
     timers := timers c;
     nextHandle := S sid; events := events c |}.

(** What [new WebSocket(url)] does: it returns a socket, or it throws a
    [SyntaxError], as the platform does for a URL that it cannot parse or
    whose scheme is not one it accepts. *)
Inductive Construction := Constructed | Refused.

(** [connect()] for either outcome of the constructor.  When the
    constructor throws, the URL has been logged and nothing else has
    happened: [this.ws] keeps its value, no socket exists and no handler is
    attached, and the promise that [connect()] returns is rejected. *)
Definition connectWith (k : Construction) (c : Client) : Client * Completion :=
  match k with
  | Constructed => (connect c, Returned)
  | Refused =>
      (emit (LogInfo (Connecting (socketUrl c))) c, Threw "SyntaxError")
  end.

(** [send(data)]. *)
Definition send (data : Frame) (c : Client) : Client * Completion :=
  match ws c with
  | Some sid =>
      match sockets c !! sid with
      | Some s =>
          match readyState s with
          | OPEN =>
              (setSockets
                 (<[sid := {| url := url s; readyState := OPEN;
                             sent := sent s ++ [data] |}]> (sockets c)) c,
               Returned)
          | _ => (emit (LogWarn NotConnectedSendFailed) c, Returned)
          end
      | None => (emit (LogWarn NotConnectedSendFailed) c, Returned)
      end
  | None => (emit (LogWarn NotConnectedSendFailed) c, Returned)
  end.

Definition sendText (toWxid content : string) (at_ : list string) (c : Client)
  : Client * Completion :=
  send (SendText toWxid content at_) c.

Definition sendImage (toWxid imageUrl : string) (c : Client) : Client * Completion :=
  send (SendImage toWxid imageUrl) c.

Definition markProcessed (messageIds : list Z) (c : Client) : Client * Completion :=
  send (MarkProcessed messageIds) c.

Definition queryContacts (contactType : ContactType) (c : Client) : Client * Completion :=
  send (QueryContacts contactType) c.

Definition isConnected (c : Client) : bool :=
  match ws c with
  | Some sid =>
      match sockets c !! sid with
      | Some s => match readyState s with OPEN => true | _ => false end
      | None => false
      end
  | None => false
  end.

(** [Math.min(1000 * Math.pow(2, attempts), 30000)]. *)
Definition reconnectDelay (attempts : nat) : Z :=
  Z.min (1000 * 2 ^ Z.of_nat attempts) 30000.

(** [scheduleReconnect()]. *)
Definition scheduleReconnect (c : Client) : Client :=
  if (maxReconnectAttempts <=? reconnectAttempts c)%nat
  then emit (LogError ReconnectLimitReached) c
  else
    let attempts := S (reconnectAttempts c) in
    let delay := reconnectDelay attempts in
    let c := emit (LogInfo (ReconnectIn delay attempts maxReconnectAttempts)) c in
    let h := nextHandle c in
    {| options := options c; ws := ws c; robotWxid := robotWxid c;
       reconnectTimer := Some h;
       reconnectAttempts := attempts;
       sockets := sockets c;
       timers := <[h := delay]> (timers c);
       nextHandle := S h; events := events c |}.

(** [socket.close()]: an open or connecting socket starts closing; its
    close event comes later. *)
Definition closeSocket (sid : nat) (ss : gmap nat Socket) : gmap nat Socket :=
  match ss !! sid with
  | Some s =>
      match readyState s with
      | CONNECTING | OPEN => <[sid := setReadyState CLOSING s]> ss
      | CLOSING | CLOSED => ss
      end
  | None => ss
  end.

(** [disconnect()]. *)
Definition disconnect (c : Client) : Client :=
  {| options := options c; robotWxid := robotWxid c;
     reconnectTimer := None;
     timers :=
       match reconnectTimer c with
       | Some h => delete h (timers c)   (* clearTimeout *)
       | None => timers c
       end;
     ws := None;
     sockets :=
       match ws c with
       | Some sid => closeSocket sid (sockets c)
       | None => sockets c
       end;
     reconnectAttempts := reconnectAttempts c;
     nextHandle := nextHandle c; events := events c |}.

(** The handlers that [connect()] attaches to a socket. *)

Definition onopen (c : Client) : Client :=
  let c := emit (LogInfo ConnectionOpened) c in
  let c :=
    {| options := options c; ws := ws c; robotWxid := robotWxid c;
       reconnectTimer := reconnectTimer c;
       reconnectAttempts := 0;
       sockets := sockets c; timers := timers c;
       nextHandle := nextHandle c; events := events c |} in
  let c := emit OnConnect c in
  fst (send (Auth (robotWxid c)) c).

(** [callbackThrows] says whether [options.onMessage] rejects. *)
Definition onmessage (data : Incoming) (callbackThrows : bool) (c : Client) : Client :=
  match data with
  | Malformed => emit (LogError HandlingFailed) c
  | UnknownType => emit (LogWarn UnknownMessageType) c
  | Parsed (MsgMessage m) =>
      let c := emit (OnMessage m) c in
      if callbackThrows then emit (LogError HandlingFailed) c else c
  | Parsed (MsgPing _) => emit (LogDebug ReceivedPing) c
  | Parsed (MsgError message) =>
      emit (OnError (ServerSaid message)) (emit (LogError (ServerError message)) c)
  | Parsed (MsgAuth _ _) => emit (LogInfo AuthResponse) c
  | Parsed (MsgSendResult _ _) => emit (LogDebug SendResult) c
  end.

Definition onerror (c : Client) : Client :=
  emit (OnError SocketFailure) (emit (LogError SocketError) c).

Definition onclose (c : Client) : Client :=
  scheduleReconnect (emit OnDisconnect (emit (LogInfo ConnectionClosed) c)).

(** What can happen to a client: its owner calls a method, the platform
    delivers an event of one of its sockets, or a pending timeout fires.
    A call of [connect()], by the owner or by a timeout, is [CallConnect] or
    [TimerFires] when the constructor returns a socket and
    [CallConnectRefused] or [TimerFiresRefused] when it throws. *)
Inductive Action :=
| CallConnect
| CallDisconnect
| CallSend (f : Frame)
| SocketOpens (sid : nat)
| SocketReceives (sid : nat) (data : Incoming) (callbackThrows : bool)
| SocketFails (sid : nat)
| SocketCloses (sid : nat)
| TimerFires (h : nat)
| CallConnectRefused
| TimerFiresRefused (h : nat).

Definition socketState (sid : nat) (c : Client) : option ReadyState :=
  readyState <$> (sockets c !! sid).

Definition markSocket (sid : nat) (r : ReadyState) (c : Client) : Client :=
  match sockets c !! sid with
  | Some s => setSockets (<[sid := setReadyState r s]> (sockets c)) c
  | None => c
  end.

Definition clearFired (h : nat) (c : Client) : Client :=
  {| options := options c; ws := ws c; robotWxid := robotWxid c;
     reconnectTimer := reconnectTimer c;
     reconnectAttempts := reconnectAttempts c;
     sockets := sockets c; timers := delete h (timers c);
     nextHandle := nextHandle c; events := events c |}.

(** One step; [None] when the platform cannot deliver the event (a socket
    opens once, while connecting; it closes once; a timeout fires only
    while it is pending). *)
Definition step (a : Action) (c : Client) : option Client :=
  match a with
  | CallConnect => Some (connect c)
  | CallDisconnect => Some (disconnect c)
  | CallSend f => Some (fst (send f c))
  | SocketOpens sid =>
      match socketState sid c with
      | Some CONNECTING => Some (onopen (markSocket sid OPEN c))
      | _ => None
      end
  | SocketReceives sid data callbackThrows =>
      match socketState sid c with
      | Some OPEN => Some (onmessage data callbackThrows c)
      | _ => None
      end
  | SocketFails sid =>
      match socketState sid c with
      | Some CLOSED | None => None
      | Some _ => Some (onerror c)
      end
  | SocketCloses sid =>
      match socketState sid c with
      | Some CLOSED | None => None
      | Some _ => Some (onclose (markSocket sid CLOSED c))
      end
  | TimerFires h =>
      match timers c !! h with
      | Some _ => Some (connect (clearFired h c))
      | None => None
      end
  | CallConnectRefused => Some (fst (connectWith Refused c))
  | TimerFiresRefused h =>
      match timers c !! h with
      | Some _ => Some (fst (connectWith Refused (clearFired h c)))
      | None => None
      end
  end.

Fixpoint run (actions : list Action) (c : Client) : option Client :=
  match actions with
  | [] => Some c
  | a :: rest =>
      match step a c with
      | Some c' => run rest c'
      | None => None
      end
  end.

(** The states a client can be in: those a sequence of steps leads to from
    a new client. *)
Definition reachable (c : Client) : Prop :=
  exists o actions, run actions (new o) = Some c.

(** The number of reconnect timeouts that are pending. *)
Definition pendingTimers (c : Client) : nat := size (timers c).

(** A socket is live until its close event has been delivered. *)
Definition live (s : Socket) : bool :=
  match readyState s with CLOSED => false | _ => true end.

(** Nothing is under way: no timeout is pending and no socket is live. *)
Definition idle (c : Client) : bool :=
  bool_decide (timers c = ∅)
  && bool_decide (map_Forall (fun _ s => live s = false) (sockets c)).

(** The runs of a client whose owner calls [connect()] only when nothing
    is under way, as [startAccount] does: once, on a new client. *)
Definition orderlyStep (a : Action) (c : Client) : option Client :=
  match a with
  | CallConnect | CallConnectRefused => if idle c then step a c else None
  | _ => step a c
  end.

Fixpoint orderlyRun (actions : list Action) (c : Client) : option Client :=
  match actions with
  | [] => Some c
  | a :: rest =>
      match orderlyStep a c with
      | Some c' => orderlyRun rest c'
      | None => None
      end
  end.

Definition orderly (c : Client) : Prop :=
  exists o actions, orderlyRun actions (new o) = Some c.

Definition liveAt (c : Client) (sid : nat) : bool :=
  match sockets c !! sid with
  | Some s => live s
  | None => false
  end.

(** What orderly runs maintain: a pending timeout is the one the client
    tracks; while a timeout is pending no socket is live; at most one
    socket is live. *)
Record tidy (c : Client) : Prop := {
  tidy_tracked :
    forall h d, timers c !! h = Some d -> reconnectTimer c = Some h;
  tidy_exclusive :
    forall h d sid, timers c !! h = Some d -> liveAt c sid = false;
  tidy_single :
    forall s1 s2, liveAt c s1 = true -> liveAt c s2 = true -> s1 = s2
}.

(** The delay of the timeout that [scheduleReconnect()] sets on [c], if it
    sets one. *)
Definition scheduledDelay (c : Client) : option Z :=
  if (maxReconnectAttempts <=? reconnectAttempts c)%nat then None
  else timers (scheduleReconnect c) !! nextHandle c.

End WebSocket.

(** ** Configuration ([src/types.ts]) *)

Inductive DmPolicy := PolicyPairing | PolicyAllowlist | PolicyOpen | PolicyDisabled.

Inductive GroupPolicy := GroupOpen | GroupDisabled | GroupAllowlist.

#[global] Instance DmPolicy_eq_dec : EqDecision DmPolicy.
Proof. solve_decision. Defined.

#[global] Instance GroupPolicy_eq_dec : EqDecision GroupPolicy.
Proof. solve_decision. Defined.

(** [WechatGroupConfig] / [RuoYiGroupConfig]: the fields the access policy
    reads. *)
Module GroupConfig.
Record t := {
  allow : option bool;
  enabled : option bool;
  requireMention : option bool
}.
(** A member inherited from [Object.prototype] (a function, or the
    prototype itself) read as an entry: a truthy value on which [allow],
    [enabled] and [requireMention] are all undefined. *)
Definition inherited : t :=
  {| allow := None; enabled := None; requireMention := None |}.
End GroupConfig.

(** [WechatAccountConfig] / [RuoYiAccountConfig]: the fields the inbound
    path reads.  An allow-list entry is a [string | number] that the code
    passes through [String(entry)] before anything else; entries are kept
    here in that string form. *)
Module AccountConfig.
Record t := {
  dmPolicy : option DmPolicy;
  allowFrom : option (list string);
  groupMembers : option (gmap string (list string));
  groupPolicy : option GroupPolicy;
  groups : option (gmap string GroupConfig.t);
  requireMention : option bool;
  blockStreaming : option bool
}.
End AccountConfig.

Record ResolvedAccount := {
  accountId : string;
  config : AccountConfig.t
}.

(** The two settings of [OpenClawConfig] that the inbound path reads:
    [cfg.channels?.defaults?.groupPolicy] and [cfg.commands?.useAccessGroups]. *)
Record OpenClawConfig := {
  defaultsGroupPolicy : option GroupPolicy;
  useAccessGroups : option bool
}.

(** The functions of the host runtime ([core.channel....]) that the inbound
    path calls, for a fixed configuration. *)
Record Core := {
  shouldComputeCommandAuthorized : string -> bool;
  isControlCommandMessage : string -> bool;
  (** [resolveCommandAuthorizedFromAuthorizers] for the one authorizer the
      channel passes: [useAccessGroups], [configured], [allowed]. *)
  resolveCommandAuthorizedFromAuthorizers : bool -> bool -> bool -> bool;
  (** [pairing.readAllowFromStore(CHANNEL_ID)]; [None] when the read fails. *)
  readAllowFromStore : option (list string);
  (** [pairing.upsertPairingRequest]: the code and whether it is new. *)
  upsertPairingRequest : string -> string * bool
}.

(** Where the inbound path leaves a message. *)
Inductive Ignored :=
| EmptyContent
| GroupMessagesDisabled
| GroupNotAllowed
| NotMentioned
| DmDisabled
| DmUnauthorized
| PairingRequested (created : bool)
| GroupCommandUnauthorized.

(** The turn handed to the reply pipeline (the fields of the context
    payload that depend on the decision). *)
Record Turn := {
  SenderId : string;
  ChatId : string;
  RawBody : string;
  IsGroup : bool;
  CommandAuthorized : option bool;
  WasMentioned : option bool
}.

Inductive Outcome :=
| Ignore (why : Ignored)
| Dispatch (turn : Turn).

Definition proceeds (o : Outcome) : bool :=
  match o with Dispatch _ => true | Ignore _ => false end.

(** [x === false] for an optional boolean. *)
Definition isFalse (x : option bool) : bool :=
  match x with Some false => true | _ => false end.

(** [Array.from(new Set(xs))]: the first occurrence of each element. *)
Fixpoint uniqueFrom (seen xs : list string) : list string :=
  match xs with
  | [] => []
  | x :: r =>
      if existsb (String.eqb x) seen then uniqueFrom seen r
      else x :: uniqueFrom (x :: seen) r
  end.

Definition unique (xs : list string) : list string := uniqueFrom [] xs.

(** ** Allow lists and group tables

    [normalizeAllowEntry], [normalizeAllowFromEntries], [isSenderAllowed],
    [isGroupAllowed] and [resolveGroupMemberAllowFrom] have the same text in
    the RuoYi and the WeChat runtime; only the channel prefixes that the
    target normalisation removes differ.  They are embedded once, over the
    list of prefixes. *)

Module Shared.
Section AllowLists.

Variable schemes : list string.

(** [normalizeWechatTarget] / [normalizeRuoYiTarget]. *)
Definition normalizeTarget (raw : option string) : option string :=
  match raw with
  | None => None
  | Some r =>
      let trimmed := Js.trim r in
      if Js.truthy trimmed then Some (Js.replaceSchemePrefix schemes trimmed)
      else None
  end.

Definition normalizeAllowEntry (entry : string) : string :=
  let raw := Js.trim entry in
  if negb (Js.truthy raw) then ""
  else if String.eqb raw "*" then "*"
  else match normalizeTarget (Some raw) with
       | Some t => t
       | None => raw
       end.

Definition normalizeAllowFromEntries (allowFrom : option (list string)) : list string :=
  match allowFrom with
  | None => []
  | Some entries =>
      List.filter Js.truthy (map Js.trim (map normalizeAllowEntry entries))
  end.

Definition isSenderAllowed (senderId : string) (allowFrom : list string) : bool :=
  if existsb (String.eqb "*") allowFrom then true
  else
    let normalizedSender := Js.toLowerCase (normalizeAllowEntry senderId) in
    existsb
      (fun entry =>
         String.eqb (Js.toLowerCase (normalizeAllowEntry entry)) normalizedSender)
      allowFrom.

(** [groups[key]]: the group table is a plain object of the configuration,
    so the read finds the own entry under [key] and, where there is none,
    the member that the object inherits under that name. *)
Definition groupsGet (groups : gmap string GroupConfig.t) (key : string)
  : option GroupConfig.t :=
  match groups !! key with
  | Some entry => Some entry
  | None => if Js.inherited key then Some GroupConfig.inherited else None
  end.

(** The loop of [isGroupAllowed] over the candidate keys: the first
    candidate with an entry decides. *)
Fixpoint firstGroupEntry (groups : gmap string GroupConfig.t) (candidates : list string)
  : option GroupConfig.t :=
  match candidates with
  | [] => None
  | candidate :: rest =>
      match groupsGet groups candidate with
      | Some entry => Some entry
      | None => firstGroupEntry groups rest
      end
  end.

Definition isGroupAllowed (groupId : string) (groups : gmap string GroupConfig.t) : bool :=
  if (size groups =? 0)%nat then false
  else
    match firstGroupEntry groups [groupId; "group:" +:+ groupId] with
    | Some entry =>
        if isFalse (GroupConfig.allow entry) || isFalse (GroupConfig.enabled entry)
        then false else true
    | None =>
        match groupsGet groups "*" with
        | Some wildcard =>
            negb (isFalse (GroupConfig.allow wildcard))
            && negb (isFalse (GroupConfig.enabled wildcard))
        | None => false
        end
    end.

(** The loop of [resolveGroupMemberAllowFrom] over the candidate keys: the
    first candidate under which the table holds a list.  The read is guarded
    by [Array.isArray], which no inherited member passes: only own entries
    count. *)
Fixpoint firstMemberList (groupMembers : gmap string (list string))
    (candidates : list string) : list string :=
  match candidates with
  | [] => []
  | candidate :: rest =>
      match groupMembers !! candidate with
      | Some members => normalizeAllowFromEntries (Some members)
      | None => firstMemberList groupMembers rest
      end
  end.

Definition resolveGroupMemberAllowFrom (account : ResolvedAccount)
    (groupId : option string) : list string :=
  let groupMembers := default ∅ (AccountConfig.groupMembers (config account)) in
  match Js.trim <$> groupId with
  | None => []
  | Some groupId =>
      if negb (Js.truthy groupId) then []
      else firstMemberList groupMembers [groupId; "group:" +:+ groupId]
  end.

(** [account.config.groupPolicy ?? defaultGroupPolicy ?? "allowlist"]. *)
Definition groupPolicyOf (cfg : OpenClawConfig) (account : ResolvedAccount)
  : GroupPolicy :=
  match AccountConfig.groupPolicy (config account) with
  | Some p => p
  | None => default GroupAllowlist (defaultsGroupPolicy cfg)
  end.

(** [account.config.dmPolicy ?? "allowlist"]. *)
Definition dmPolicyOf (account : ResolvedAccount) : DmPolicy :=
  default PolicyAllowlist (AccountConfig.dmPolicy (config account)).

(** The group stage of the inbound path, up to the mention check, given
    the variant's [resolveGroupRequireMention]: [None] lets the message
    through. *)
Definition groupStage
    (resolveGroupRequireMention : ResolvedAccount -> option string -> bool)
    (cfg : OpenClawConfig) (account : ResolvedAccount) (msg : WechatMessage)
    (fromWxid chatId : string) : option Ignored :=
  let groupPolicy := groupPolicyOf cfg account in
  let groups := default ∅ (AccountConfig.groups (config account)) in
  if bool_decide (groupPolicy = GroupDisabled) then Some GroupMessagesDisabled
  else if bool_decide (groupPolicy = GroupAllowlist)
          && negb (isGroupAllowed chatId groups)
          && negb (isSenderAllowed fromWxid
                     (resolveGroupMemberAllowFrom account (Some chatId)))
  then Some GroupNotAllowed
  else if resolveGroupRequireMention account (Some chatId)
  then
    let isAtMe :=
      match isMentioned msg with
      | Some flag => mentionTruthy (Some flag)
      | None => false
      end in
    if negb isAtMe then Some NotMentioned else None
  else None.

(** The direct-message stage and what follows it, given the allow list in
    force ([effectiveAllowFrom]). *)
Definition afterGroupStage (core : Core) (cfg : OpenClawConfig)
    (account : ResolvedAccount) (msg : WechatMessage)
    (fromWxid chatId rawBody : string) (shouldComputeAuth : bool)
    (effectiveAllowFrom : list string) : Outcome :=
  let isGroupMsg := isGroupMsg msg in
  let dmPolicy := dmPolicyOf account in
  let useAccessGroups := negb (isFalse (useAccessGroups cfg)) in
  let senderAllowedForCommands := isSenderAllowed fromWxid effectiveAllowFrom in
  let commandAuthorized :=
    if shouldComputeAuth
    then Some (resolveCommandAuthorizedFromAuthorizers core useAccessGroups
                 (negb (length effectiveAllowFrom =? 0)%nat)
                 senderAllowedForCommands)
    else None in
  let dmVerdict :=
    if isGroupMsg then None
    else
      match dmPolicy with
      | PolicyDisabled => Some DmDisabled
      | PolicyOpen => None
      | PolicyPairing =>
          if senderAllowedForCommands then None
          else Some (PairingRequested (snd (upsertPairingRequest core fromWxid)))
      | PolicyAllowlist =>
          if senderAllowedForCommands then None else Some DmUnauthorized
      end in
  match dmVerdict with
  | Some why => Ignore why
  | None =>
      if isGroupMsg && isControlCommandMessage core rawBody
         && negb (match commandAuthorized with Some true => true | _ => false end)
      then Ignore GroupCommandUnauthorized
      else
        Dispatch
          {| SenderId := fromWxid; ChatId := chatId; RawBody := rawBody;
             IsGroup := isGroupMsg;
             CommandAuthorized := commandAuthorized;
             WasMentioned :=
               if isGroupMsg then Some (mentionTruthy (isMentioned msg)) else None |}
  end.

End AllowLists.
End Shared.

(** [actualSender || fromUserName] for a group message. *)
Definition senderOf (msg : WechatMessage) : string :=
  if isGroupMsg msg
  then match actualSender msg with
       | Some a => Js.orElse a (fromUserName msg)
       | None => fromUserName msg
       end
  else fromUserName msg.

(** [msg.content?.trim() ?? ""]. *)
Definition trimmedContent (msg : WechatMessage) : string :=
  match content msg with
  | Some text => Js.trim text
  | None => ""
  end.

(** ** The RuoYi runtime ([src/runtime.ts], first variant) *)

Module RuoYi.

Definition CHANNEL_ID : string := "wechat-channel".

(** The alternatives of [/^(wechat-channel|ruoyi-wechat|ry):/i]. *)
Definition schemes : list string := ["wechat-channel"; "ruoyi-wechat"; "ry"].

Definition normalizeRuoYiTarget := Shared.normalizeTarget schemes.
Definition normalizeAllowEntry := Shared.normalizeAllowEntry schemes.
Definition normalizeAllowFromEntries := Shared.normalizeAllowFromEntries schemes.
Definition isSenderAllowed := Shared.isSenderAllowed schemes.
Definition isGroupAllowed := Shared.isGroupAllowed.
Definition resolveGroupMemberAllowFrom := Shared.resolveGroupMemberAllowFrom schemes.

Definition resolveGroupRequireMention (account : ResolvedAccount)
    (groupId : option string) : bool :=
  let groups := default ∅ (AccountConfig.groups (config account)) in
  let own :=
    match Js.trim <$> groupId with
    | Some groupId =>
        if Js.truthy groupId
        then Shared.groupsGet groups groupId ≫= GroupConfig.requireMention
        else None
    | None => None
    end in
  match own with
  | Some b => b
  | None =>
      match Shared.groupsGet groups "*" ≫= GroupConfig.requireMention with
      | Some b => b
      | None => default true (AccountConfig.requireMention (config account))
      end
  end.

Definition handleRuoYiInboundMessage (core : Core) (cfg : OpenClawConfig)
    (account : ResolvedAccount) (msg : WechatMessage) : Outcome :=
  let fromWxid := senderOf msg in
  let chatId := fromUserName msg in
  let content := trimmedContent msg in
  if negb (Js.truthy content) then Ignore EmptyContent
  else
    match (if isGroupMsg msg
           then Shared.groupStage schemes resolveGroupRequireMention
                  cfg account msg fromWxid chatId
           else None) with
    | Some why => Ignore why
    | None =>
        let allowFromConfig :=
          normalizeAllowFromEntries (AccountConfig.allowFrom (config account)) in
        let rawBody := content in
        let shouldComputeAuth := shouldComputeCommandAuthorized core rawBody in
        (* the configured allow list only: the pairing store is not read *)
        let effectiveAllowFrom := allowFromConfig in
        Shared.afterGroupStage schemes core cfg account msg fromWxid chatId
          rawBody shouldComputeAuth effectiveAllowFrom
    end.

End RuoYi.

(** ** The WeChat runtime ([src/runtime.ts], last variant) *)

Module Wechat.

Definition CHANNEL_ID : string := "wechat-channel".

(** The alternatives of [/^(wechat-channel|wechat|wx):/i]. *)
Definition schemes : list string := ["wechat-channel"; "wechat"; "wx"].

Definition normalizeWechatTarget := Shared.normalizeTarget schemes.

Definition resolveWechatOutboundTarget (raw : option string) : option string :=
  match Js.trim <$> raw with
  | Some trimmed =>
      if Js.truthy trimmed
      then match normalizeWechatTarget (Some trimmed) with
           | Some t => Some t
           | None => Some trimmed
           end
      else None
  | None => None
  end.

(** [requireWechatOutboundTarget]: [None] is the thrown error. *)
Definition requireWechatOutboundTarget (raw : option string) : option string :=
  match resolveWechatOutboundTarget raw with
  | Some resolved => if Js.truthy resolved then Some resolved else None
  | None => None
  end.

Definition normalizeAllowEntry := Shared.normalizeAllowEntry schemes.
Definition normalizeAllowFromEntries := Shared.normalizeAllowFromEntries schemes.
Definition resolveWechatSenderId := senderOf.
Definition isSenderAllowed := Shared.isSenderAllowed schemes.
Definition isGroupAllowed := Shared.isGroupAllowed.
Definition resolveGroupMemberAllowFrom := Shared.resolveGroupMemberAllowFrom schemes.

(** [direct ?? alias] of [resolveGroupRequireMention]: the entry of the
    group itself, under its id or under [group:] and its id. *)
Definition ownGroupEntry (groups : gmap string GroupConfig.t) (groupId : option string)
  : option GroupConfig.t :=
  match Js.trim <$> groupId with
  | Some groupId =>
      if Js.truthy groupId
      then match Shared.groupsGet groups groupId with
           | Some direct => Some direct
           | None => Shared.groupsGet groups ("group:" +:+ groupId)
           end
      else None
  | None => None
  end.

Definition resolveGroupRequireMention (account : ResolvedAccount)
    (groupId : option string) : bool :=
  let groups := default ∅ (AccountConfig.groups (config account)) in
  match ownGroupEntry groups groupId ≫= GroupConfig.requireMention with
  | Some b => b
  | None =>
      match Shared.groupsGet groups "*" ≫= GroupConfig.requireMention with
      | Some b => b
      | None => default true (AccountConfig.requireMention (config account))
      end
  end.

Record WechatInboundParams := {
  msg : WechatMessage;
  cfg : OpenClawConfig;
  account : ResolvedAccount;
  (** the callback, by its identity *)
  statusSink : option nat
}.

Definition processWechatInboundMessage (core : Core) (params : WechatInboundParams)
  : Outcome :=
  let msg := msg params in
  let cfg := cfg params in
  let account := account params in
  let isGroupMsg := isGroupMsg msg in
  let fromWxid := resolveWechatSenderId msg in
  let chatId := fromUserName msg in
  let content := trimmedContent msg in
  if negb (Js.truthy content) then Ignore EmptyContent
  else
    match (if isGroupMsg
           then Shared.groupStage schemes resolveGroupRequireMention
                  cfg account msg fromWxid chatId
           else None) with
    | Some why => Ignore why
    | None =>
        let dmPolicy := Shared.dmPolicyOf account in
        let allowFromConfig :=
          normalizeAllowFromEntries (AccountConfig.allowFrom (config account)) in
        let rawBody := content in
        let shouldComputeAuth := shouldComputeCommandAuthorized core rawBody in
        let storeAllowFrom :=
          if negb isGroupMsg
             && (negb (bool_decide (dmPolicy = PolicyOpen)) || shouldComputeAuth)
          then normalizeAllowFromEntries
                 (Some (default [] (readAllowFromStore core)))
          else [] in
        let effectiveAllowFrom := unique (allowFromConfig ++ storeAllowFrom) in
        Shared.afterGroupStage schemes core cfg account msg fromWxid chatId
          rawBody shouldComputeAuth effectiveAllowFrom
    end.

(** [mergeWechatInboundMessages]; [None] for no entries, where the code
    reads a field of [undefined]. *)
Definition mergeWechatInboundMessages (entries : list WechatInboundParams)
  : option WechatMessage :=
  match last entries with
  | None => None
  | Some lastEntry =>
      let mergedContent :=
        Js.join Js.newline
          (List.filter Js.truthy (map (fun entry => trimmedContent (msg entry)) entries)) in
      let wasMentioned :=
        existsb (fun entry => mentionTruthy (isMentioned (msg entry))) entries in
      let content :=
        Js.orElse mergedContent (default "" (content (msg lastEntry))) in
      let m := msg lastEntry in
      Some {| id := id m; newMsgId := newMsgId m; msgType := msgType m;
              content := Some content;
              fromUserName := fromUserName m; toUserName := toUserName m;
              isGroupMsg := isGroupMsg m;
              isMentioned :=
                if wasMentioned then Some (MentionBool true) else isMentioned m;
              actualSender := actualSender m;
              createTimeMsg := createTimeMsg m;
              senderNickname := senderNickname m |}
  end.

(** The debouncer's callbacks ([startAccount]). *)

Definition buildKey (entry : WechatInboundParams) : option string :=
  let chatId := Js.trim (fromUserName (msg entry)) in
  if negb (Js.truthy chatId) then None
  else
    let senderId := resolveWechatSenderId (msg entry) in
    if negb (Js.truthy senderId) then None
    else Some (CHANNEL_ID +:+ ":" +:+ accountId (account entry)
               +:+ ":" +:+ chatId +:+ ":" +:+ senderId).

Definition shouldDebounce (core : Core) (entry : WechatInboundParams) : bool :=
  let text := trimmedContent (msg entry) in
  if negb (Js.truthy text) then false
  else negb (isControlCommandMessage core text).

(** What [onFlush] hands to [processWechatInboundMessage]; [None] when it
    returns without calling it. *)
Definition flushed (entries : list WechatInboundParams) : option WechatInboundParams :=
  match last entries with
  | None => None
  | Some lastEntry =>
      if (length entries =? 1)%nat then Some lastEntry
      else
        match mergeWechatInboundMessages entries with
        | Some mergedMsg =>
            Some {| msg := mergedMsg; cfg := cfg lastEntry;
                    account := account lastEntry;
                    statusSink := statusSink lastEntry |}
        | None => None
        end
  end.

Definition onFlush (core : Core) (entries : list WechatInboundParams) : option Outcome :=
  processWechatInboundMessage core <$> flushed entries.

End Wechat.

(** ** Outbound media ([src/runtime.ts], last variant) *)

Module Media.

Definition AUDIO_EXTS : list string :=
  [".silk"; ".amr"; ".mp3"; ".wav"; ".m4a"; ".aac"; ".ogg"; ".opus"; ".flac"].
Definition VIDEO_EXTS : list string :=
  [".mp4"; ".mov"; ".mkv"; ".webm"; ".avi"; ".mpeg"; ".mpg"].
Definition IMAGE_EXTS : list string :=
  [".jpg"; ".jpeg"; ".png"; ".gif"; ".webp"; ".bmp"; ".heic"; ".heif"].

(** [SET.has(x)]. *)
Definition has (set : list string) (x : string) : bool :=
  existsb (String.eqb x) set.

Inductive MediaKind := Image | Voice | Video | File | Emoji.

(** What [new URL(s)] gives, as far as the code reads it. *)
Record URL := {
  pathname : string;
  searchParams : list (string * string)
}.

(** The platform and host functions the media path calls. *)
Record Platform := {
  (** [new URL(s)]; [None] when it throws. *)
  parseURL : string -> option URL;
  (** [new URLSearchParams(query)]. *)
  parseSearchParams : string -> list (string * string);
  (** [decodeURIComponent(s)]; [None] when it throws. *)
  decodeURIComponent : string -> option string;
  (** [Math.trunc(Number.parseFloat(s))]; [None] when the parsed number
      is not finite. *)
  parseFloatTrunc : string -> option Z;
  (** [getFileExtension] of the plugin SDK. *)
  getFileExtension : string -> option string
}.

Module Meta.
Record t := {
  isEmojiScheme : bool;
  emojiMd5 : option string;
  emojiSize : option string;
  voiceDuration : option Z;
  videoDuration : option Z;
  thumbUrl : option string;
  fileName : option string
}.
(** [{ isEmojiScheme: false }]. *)
Definition empty : t :=
  {| isEmojiScheme := false; emojiMd5 := None; emojiSize := None;
     voiceDuration := None; videoDuration := None; thumbUrl := None;
     fileName := None |}.
End Meta.

Module Hints.
Record t := {
  contentType : option string;
  asVoice : option bool;
  fileName : option string;
  voiceDuration : option Z;
  videoDuration : option Z;
  thumbUrl : option string;
  emojiMd5 : option string;
  emojiSize : option string
}.
(** [{}]. *)
Definition empty : t :=
  {| contentType := None; asVoice := None; fileName := None;
     voiceDuration := None; videoDuration := None; thumbUrl := None;
     emojiMd5 := None; emojiSize := None |}.
End Hints.

Module Spec.
Record t := {
  kind : MediaKind;
  mediaUrl : option string;
  fileName : option string;
  voiceDuration : option Z;
  videoDuration : option Z;
  thumbUrl : option string;
  emojiMd5 : option string;
  emojiSize : option string;
  isEmojiScheme : option bool
}.
End Spec.

(** [a ?? b]. *)
Definition orNullish {A} (a b : option A) : option A :=
  match a with Some _ => a | None => b end.

(** [x?.trim() || undefined]. *)
Definition trimmedOrUndefined (x : option string) : option string :=
  match x with
  | Some v => if Js.truthy (Js.trim v) then Some (Js.trim v) else None
  | None => None
  end.

(** ToBoolean of an optional string. *)
Definition present (x : option string) : bool :=
  match x with Some v => Js.truthy v | None => false end.

Section WithPlatform.

Variable P : Platform.

Definition parseDuration (raw : option string) : option Z :=
  match raw with
  | Some r => if Js.truthy r then parseFloatTrunc P r else None
  | None => None
  end.

(** [params.get(key)]: the value of the first pair with that name. *)
Fixpoint searchGet (params : list (string * string)) (key : string) : option string :=
  match params with
  | [] => None
  | (k, v) :: rest => if String.eqb k key then Some v else searchGet rest key
  end.

Fixpoint readQueryValue (params : list (string * string)) (keys : list string)
  : option string :=
  match keys with
  | [] => None
  | key :: rest =>
      match searchGet params key with
      | Some value =>
          if Js.truthy value && Js.truthy (Js.trim value) then Some value
          else readQueryValue params rest
      | None => readQueryValue params rest
      end
  end.

Definition parseMediaUrlMeta (mediaUrl : string) : Meta.t :=
  let trimmed := Js.trim mediaUrl in
  if negb (Js.truthy trimmed) then Meta.empty
  else
    let lower := Js.toLowerCase trimmed in
    if Js.startsWith lower "emoji:" then
      let sliced := Js.slice 6 trimmed in
      let withoutScheme := default sliced (Js.stripPrefix "//" sliced) in
      let pieces := Js.split "?" withoutScheme in
      let pathPart := Js.first pieces in
      let queryPart := Js.second pieces in
      let searchParams := parseSearchParams P (default "" queryPart) in
      let pathToken :=
        default ""
          (pathPart ≫= fun p => head (List.filter Js.truthy (Js.split "/" p))) in
      let '(md5Token, sizeToken) :=
        if Js.includesUnit ":" pathToken
        then let tokens := Js.split ":" pathToken in
             (default "" (Js.first tokens), default "" (Js.second tokens))
        else (pathToken, "") in
      let emojiMd5 :=
        if Js.truthy (Js.trim md5Token) then Some (Js.trim md5Token)
        else readQueryValue searchParams ["emojiMd5"; "md5"] in
      let emojiSize :=
        if Js.truthy (Js.trim sizeToken) then Some (Js.trim sizeToken)
        else readQueryValue searchParams ["emojiSize"; "size"] in
      {| Meta.isEmojiScheme := true;
         Meta.emojiMd5 := trimmedOrUndefined emojiMd5;
         Meta.emojiSize := trimmedOrUndefined emojiSize;
         Meta.voiceDuration := None; Meta.videoDuration := None;
         Meta.thumbUrl := None; Meta.fileName := None |}
    else
      match parseURL P trimmed with
      | None => Meta.empty
      | Some url =>
          let searchParams := searchParams url in
          let emojiMd5 := readQueryValue searchParams ["emojiMd5"; "md5"] in
          let emojiSize := readQueryValue searchParams ["emojiSize"; "size"] in
          let thumbUrl := readQueryValue searchParams ["thumbUrl"; "thumb"] in
          let duration := parseDuration (readQueryValue searchParams ["duration"]) in
          let voiceDuration :=
            parseDuration (readQueryValue searchParams ["voiceDuration"]) in
          let videoDuration :=
            parseDuration (readQueryValue searchParams ["videoDuration"]) in
          let fileName :=
            readQueryValue searchParams ["fileName"; "filename"; "name"] in
          {| Meta.isEmojiScheme := false;
             Meta.emojiMd5 := trimmedOrUndefined emojiMd5;
             Meta.emojiSize := trimmedOrUndefined emojiSize;
             Meta.thumbUrl := trimmedOrUndefined thumbUrl;
             Meta.voiceDuration := orNullish voiceDuration duration;
             Meta.videoDuration := orNullish videoDuration duration;
             Meta.fileName := trimmedOrUndefined fileName |}
      end.

Definition isQueryOrFragment (c : ascii) : bool :=
  Ascii.eqb c "?" || Ascii.eqb c "#".

Definition isSlash (c : ascii) : bool :=
  Ascii.eqb c "\" || Ascii.eqb c "/".

Definition inferFileNameFromMediaUrl (mediaUrl : string) : option string :=
  let trimmed := Js.trim mediaUrl in
  if negb (Js.truthy trimmed) then None
  else
    match parseURL P trimmed with
    | Some url =>
        let parts := List.filter Js.truthy (Js.split "/" (pathname url)) in
        match last parts with
        | Some l =>
            if negb (Js.truthy l) then None
            else match decodeURIComponent P l with
                 | Some decoded => Some decoded
                 | None => Some l
                 end
        | None => None
        end
    | None =>
        let cleaned := default "" (Js.first (Js.splitOn isQueryOrFragment trimmed)) in
        let parts := Js.splitOn isSlash cleaned in
        match last parts with
        | Some l => if Js.truthy l then Some l else None
        | None => None
        end
    end.

Definition resolveMediaSpec (mediaUrl : string) (hints : option Hints.t) : Spec.t :=
  let meta := parseMediaUrlMeta mediaUrl in
  let hints := default Hints.empty hints in
  let emojiMd5 := orNullish (Hints.emojiMd5 hints) (Meta.emojiMd5 meta) in
  let emojiSize := orNullish (Hints.emojiSize hints) (Meta.emojiSize meta) in
  if Meta.isEmojiScheme meta || (present emojiMd5 && present emojiSize) then
    {| Spec.kind := Emoji;
       Spec.emojiMd5 := emojiMd5;
       Spec.emojiSize := emojiSize;
       Spec.mediaUrl := Some mediaUrl;
       Spec.isEmojiScheme := Some (Meta.isEmojiScheme meta);
       Spec.fileName := None; Spec.voiceDuration := None;
       Spec.videoDuration := None; Spec.thumbUrl := None |}
  else
    let contentType := Js.toLowerCase <$> Hints.contentType hints in
    let typeStartsWith (p : string) : bool :=
      match contentType with
      | Some t => Js.startsWith t p
      | None => false
      end in
    let kind :=
      if default false (Hints.asVoice hints) then Voice
      else if typeStartsWith "audio/" then Voice
      else if typeStartsWith "video/" then Video
      else if typeStartsWith "image/" then Image
      else
        let ext :=
          getFileExtension P (default mediaUrl (Hints.fileName hints)) in
        match ext with
        | Some e =>
            if Js.truthy e && has AUDIO_EXTS e then Voice
            else if Js.truthy e && has VIDEO_EXTS e then Video
            else if Js.truthy e && has IMAGE_EXTS e then Image
            else File
        | None => File
        end in
    {| Spec.kind := kind;
       Spec.mediaUrl := Some mediaUrl;
       Spec.fileName :=
         orNullish (Hints.fileName hints)
           (orNullish (Meta.fileName meta) (inferFileNameFromMediaUrl mediaUrl));
       Spec.voiceDuration :=
         orNullish (Hints.voiceDuration hints) (Meta.voiceDuration meta);
       Spec.videoDuration :=
         orNullish (Hints.videoDuration hints) (Meta.videoDuration meta);
       Spec.thumbUrl := orNullish (Hints.thumbUrl hints) (Meta.thumbUrl meta);
       Spec.emojiMd5 := emojiMd5;
       Spec.emojiSize := emojiSize;
       Spec.isEmojiScheme := Some (Meta.isEmojiScheme meta) |}.

(** The calls [sendWechatMedia] makes on the client. *)
Inductive ClientCall :=
| SendFile (chatId url fileName : string)
| SendEmoji (chatId md5 size : string)
| SendVoice (chatId url : string) (duration : Z)
| SendVideo (chatId url thumbUrl : string) (duration : Z)
| SendImage (chatId url : string).

Inductive Warning :=
| MissingFileName
| EmojiFieldsMissing
| VoiceDurationMissing
| VideoMetadataMissing.

(** What a call of [sendWechatMedia] does, in order: a warning to the
    logger, a call on the client, a [lastOutboundAt] status update. *)
Inductive Effect :=
| Warn (w : Warning)
| Call (c : ClientCall)
| StatusLastOutboundAt.

Inductive Failure :=
| TargetRequired
| FileNameRequired
| EmojiFieldsRequired
| VoiceDurationRequired
| VideoMetadataRequired.

Inductive Result :=
| Threw (f : Failure)
| Done (effects : list Effect).

(** The closure [fallbackToFile] of [sendWechatMedia]. *)
Definition fallbackToFile (chatId trimmed : string) (spec : Spec.t) (strict : bool)
  : Result :=
  let inferredName :=
    orNullish (Spec.fileName spec) (inferFileNameFromMediaUrl trimmed) in
  let ext := getFileExtension P trimmed in
  let fileName :=
    match inferredName with
    | Some n => n
    | None => if present ext then "file" +:+ default "" ext else "file"
    end in
  if negb (Js.truthy fileName) then
    if strict then Threw FileNameRequired
    else Done [Warn MissingFileName]
  else Done [Call (SendFile chatId trimmed fileName); StatusLastOutboundAt].

(** The effects of [r] after those of [before]. *)
Definition after (before : list Effect) (r : Result) : Result :=
  match r with
  | Threw f => Threw f
  | Done effects => Done (before ++ effects)
  end.

Definition sendWechatMedia (chatId : string) (mediaUrl : string)
    (hints : option Hints.t) (strict : option bool) : Result :=
  match Wechat.requireWechatOutboundTarget (Some chatId) with
  | None => Threw TargetRequired
  | Some chatId =>
      let trimmed := Js.trim mediaUrl in
      if negb (Js.truthy trimmed) then Done []
      else
        let spec := resolveMediaSpec trimmed hints in
        let strict := default false strict in
        match Spec.kind spec with
        | Emoji =>
            match Spec.emojiMd5 spec, Spec.emojiSize spec with
            | Some md5, Some size =>
                if Js.truthy md5 && Js.truthy size
                then Done [Call (SendEmoji chatId md5 size); StatusLastOutboundAt]
                else if strict then Threw EmojiFieldsRequired
                else Done [Warn EmojiFieldsMissing]
            | _, _ =>
                if strict then Threw EmojiFieldsRequired
                else Done [Warn EmojiFieldsMissing]
            end
        | Voice =>
            match Spec.voiceDuration spec with
            | None =>
                if strict then Threw VoiceDurationRequired
                else after [Warn VoiceDurationMissing]
                       (fallbackToFile chatId trimmed spec strict)
            | Some duration =>
                Done [Call (SendVoice chatId trimmed duration); StatusLastOutboundAt]
            end
        | Video =>
            match Spec.thumbUrl spec, Spec.videoDuration spec with
            | Some thumb, Some duration =>
                if Js.truthy thumb
                then Done [Call (SendVideo chatId trimmed thumb duration);
                           StatusLastOutboundAt]
                else if strict then Threw VideoMetadataRequired
                else after [Warn VideoMetadataMissing]
                       (fallbackToFile chatId trimmed spec strict)
            | _, _ =>
                if strict then Threw VideoMetadataRequired
                else after [Warn VideoMetadataMissing]
                       (fallbackToFile chatId trimmed spec strict)
            end
        | Image =>
            Done [Call (SendImage chatId trimmed); StatusLastOutboundAt]
        | File => fallbackToFile chatId trimmed spec strict
        end
  end.

End WithPlatform.

End Media.

(** ** Notions of the specification

    Definitions that follow the words of the specification, to be compared
    with the functions above. *)

(** "An identifier is trimmed, has any recognized channel prefix stripped
    and is lower-cased before comparison." *)
Definition normalize (schemes : list string) (s : string) : string :=
  Js.toLowerCase (Js.replaceSchemePrefix schemes (Js.trim s)).

(** "An explicit entry exists for g, either under the key g or under the
    alias group: + g." *)
Definition explicitEntry (g : string) (table : gmap string GroupConfig.t)
  : option GroupConfig.t :=
  match table !! g with
  | Some e => Some e
  | None => table !! ("group:" +:+ g)
  end.

(** "The entry has allow=false or enabled=false." *)
Definition switchedOff (e : GroupConfig.t) : Prop :=
  GroupConfig.allow e = Some false \/ GroupConfig.enabled e = Some false.

(** "The first defined boolean in the order ..., and true when none is
    defined." *)
Fixpoint firstDefined (candidates : list (option bool)) : bool :=
  match candidates with
  | [] => true
  | Some b :: _ => b
  | None :: rest => firstDefined rest
  end.

(** "A file name inferred from hints or from the URL": the file-name hint,
    else the file-name parameter of the URL's query, else the last segment of
    the URL's path, else [file] and the extension. *)
Definition inferredFileName (P : Media.Platform) (url : string)
    (hints : option Media.Hints.t) : string :=
  match Media.Hints.fileName (default Media.Hints.empty hints) with
  | Some hinted => hinted
  | None =>
      match Media.Meta.fileName (Media.parseMediaUrlMeta P url) with
      | Some named => named
      | None =>
          match Media.inferFileNameFromMediaUrl P url with
          | Some segment => segment
          | None =>
              match Media.getFileExtension P url with
              | Some ext => if Js.truthy ext then "file" +:+ ext else "file"
              | None => "file"
              end
          end
      end
  end.

(** ** Sample data

    Configurations, messages and host functions for the concrete cases
    below. *)

Module Sample.

Definition cfg : OpenClawConfig :=
  {| defaultsGroupPolicy := None; useAccessGroups := None |}.

(** A host whose pairing store holds [wxidB], for which no text is a
    command. *)
Definition core : Core :=
  {| shouldComputeCommandAuthorized := fun _ => false;
     isControlCommandMessage := fun _ => false;
     resolveCommandAuthorizedFromAuthorizers :=
       fun useAccessGroups configured allowed =>
         negb useAccessGroups || (configured && allowed);
     readAllowFromStore := Some ["wxidB"];
     upsertPairingRequest := fun _ => ("123456", true) |}.

Definition direct (sender text : string) : WechatMessage :=
  {| id := 1; newMsgId := 1; msgType := 1; content := Some text;
     fromUserName := sender; toUserName := "wxid_robot";
     isGroupMsg := false; isMentioned := None; actualSender := None;
     createTimeMsg := 1700000000; senderNickname := None |}.

Definition inGroup (chat sender text : string) (flag : option MentionFlag)
  : WechatMessage :=
  {| id := 2; newMsgId := 2; msgType := 1; content := Some text;
     fromUserName := chat; toUserName := "wxid_robot";
     isGroupMsg := true; isMentioned := flag; actualSender := Some sender;
     createTimeMsg := 1700000000; senderNickname := None |}.

Definition group (allow enabled requireMention : option bool) : GroupConfig.t :=
  {| GroupConfig.allow := allow; GroupConfig.enabled := enabled;
     GroupConfig.requireMention := requireMention |}.

(** [dmPolicy: "allowlist", allowFrom: ["wxidA"]]. *)
Definition allowlistAccount : ResolvedAccount :=
  {| accountId := "default";
     config :=
       {| AccountConfig.dmPolicy := Some PolicyAllowlist;
          AccountConfig.allowFrom := Some ["wxidA"];
          AccountConfig.groupMembers := None;
          AccountConfig.groupPolicy := None;
          AccountConfig.groups := None;
          AccountConfig.requireMention := None;
          AccountConfig.blockStreaming := None |} |}.

(** [groupPolicy: "allowlist"] with the given tables. *)
Definition groupAccount (groups : gmap string GroupConfig.t)
    (members : gmap string (list string)) : ResolvedAccount :=
  {| accountId := "default";
     config :=
       {| AccountConfig.dmPolicy := None;
          AccountConfig.allowFrom := None;
          AccountConfig.groupMembers := Some members;
          AccountConfig.groupPolicy := Some GroupAllowlist;
          AccountConfig.groups := Some groups;
          AccountConfig.requireMention := None;
          AccountConfig.blockStreaming := None |} |}.

(** [G1] is switched off by its own entry; the wildcard allows. *)
Definition switchedOffTable : gmap string GroupConfig.t :=
  <["G1" := group (Some false) None None]>
    (<["*" := group (Some true) None None]> ∅).

(** [G1] is listed and asks for a mention. *)
Definition mentionTable : gmap string GroupConfig.t :=
  <["G1" := group None None (Some true)]> ∅.

(** The member allow list of [G1]. *)
Definition memberTable : gmap string (list string) :=
  <["G1" := ["wxidA"]]> ∅.

(** Three messages of one sender in one chat, as a debounce bucket holds
    them; the second carries the mention. *)
Definition burst : list WechatMessage :=
  [ inGroup "G1" "wxidA" "a" None;
    inGroup "G1" "wxidA" " b " (Some (MentionNumber 1));
    inGroup "G1" "wxidA" "c" (Some (MentionBool false)) ].

Definition options : WebSocket.Options :=
  {| WebSocket.baseUrl := "http://localhost:8080";
     WebSocket.optRobotWxid := "wxid_robot" |}.

(** Ten connections in a row are closed before they open, then an
    eleventh: each timeout that is set fires and connects again. *)
Definition tenFailures : list WebSocket.Action :=
  WebSocket.CallConnect
  :: flat_map
       (fun k => [WebSocket.SocketCloses (2 * k + 1); WebSocket.TimerFires (2 * k + 2)])
       (seq 0 10)
  ++ [WebSocket.SocketCloses 21].

(** The delays that the client announced, oldest first. *)
Definition announcedDelays (c : WebSocket.Client) : list Z :=
  rev (flat_map
         (fun e => match e with
                   | WebSocket.LogInfo (WebSocket.ReconnectIn delay _ _) => [delay]
                   | _ => []
                   end)
         (WebSocket.events c)).

(** A connection is closed, and its owner connects again before the
    reconnect timeout fires; then the second connection is closed too. *)
Definition secondClose : list WebSocket.Action :=
  [WebSocket.CallConnect; WebSocket.SocketCloses 1;
   WebSocket.CallConnect; WebSocket.SocketCloses 3].

Definition afterSecondClose : WebSocket.Client :=
  default (WebSocket.new options) (WebSocket.run secondClose (WebSocket.new options)).

(** A new client connects and its connection is closed. *)
Definition afterClose : WebSocket.Client :=
  default (WebSocket.new options)
    (WebSocket.orderlyRun [WebSocket.CallConnect; WebSocket.SocketCloses 1]
       (WebSocket.new options)).

(** A platform that agrees with the real one on the one URL used below:
    [new URL("http://host/a/song.mp3")] has the path [/a/song.mp3] and no
    query, and the extension of that URL is [.mp3]. *)
Definition songUrl : string := "http://host/a/song.mp3".

Definition platform : Media.Platform :=
  {| Media.parseURL :=
       fun s =>
         if String.eqb s songUrl
         then Some {| Media.pathname := "/a/song.mp3"; Media.searchParams := [] |}
         else None;
     Media.parseSearchParams := fun _ => [];
     Media.decodeURIComponent := fun s => Some s;
     Media.parseFloatTrunc := fun _ => None;
     Media.getFileExtension :=
       fun s => if String.eqb s songUrl then Some ".mp3" else None |}.

(** [{ contentType: "audio/mpeg" }]. *)
Definition audioHints : Media.Hints.t :=
  {| Media.Hints.contentType := Some "audio/mpeg";
     Media.Hints.asVoice := None; Media.Hints.fileName := None;
     Media.Hints.voiceDuration := None; Media.Hints.videoDuration := None;
     Media.Hints.thumbUrl := None; Media.Hints.emojiMd5 := None;
     Media.Hints.emojiSize := None |}.

(** [{ asVoice: true, fileName: "" }]. *)
Definition namelessVoiceHints : Media.Hints.t :=
  {| Media.Hints.contentType := None;
     Media.Hints.asVoice := Some true; Media.Hints.fileName := Some "";
     Media.Hints.voiceDuration := None; Media.Hints.videoDuration := None;
     Media.Hints.thumbUrl := None; Media.Hints.emojiMd5 := None;
     Media.Hints.emojiSize := None |}.

Definition inbound (account : ResolvedAccount) (m : WechatMessage)
  : Wechat.WechatInboundParams :=
  {| Wechat.msg := m; Wechat.cfg := cfg; Wechat.account := account;
     Wechat.statusSink := None |}.

End Sample.

(** ** Reply delivery, allow-list display and status ([src/runtime.ts]) *)

Module Delivery.

(** The text functions of the host ([core.channel.text]), for the table
    mode, the chunk limit and the chunk mode that the configuration
    resolves to. *)
Record TextCore := {
  convertMarkdownTables : string -> string;
  chunkMarkdownTextWithMode : string -> list string
}.

(** [payload: { text?, mediaUrls?, mediaUrl? }]. *)
Record Payload := {
  text : option string;
  mediaUrls : option (list string);
  mediaUrl : option string
}.

(** [mediaUrls?.length ? mediaUrls : mediaUrl ? [mediaUrl] : []]. *)
Definition mediaListOf (payload : Payload) : list string :=
  match mediaUrls payload with
  | Some (u :: us) => u :: us
  | _ =>
      match mediaUrl payload with
      | Some u => if Js.truthy u then [u] else []
      | None => []
      end
  end.

(** The chunks that the text loop sends: none for a blank text; the whole
    text when the chunker returns nothing. *)
Definition textChunksOf (T : TextCore) (payload : Payload) : list string :=
  let text := convertMarkdownTables T (default "" (text payload)) in
  if Js.truthy (Js.trim text) then
    match chunkMarkdownTextWithMode T text with
    | [] => [text]
    | chunks => chunks
    end
  else [].

Inductive Failure :=
| NotConnected
| TargetRequired
| MediaFailed (f : Media.Failure).

(** What a delivery has done so far: the client with the frames written to
    its socket, the effects of the media sends, and the number of
    [lastOutboundAt] updates passed to [statusSink]. *)
Record Progress := {
  client : WebSocket.Client;
  mediaEffects : list Media.Effect;
  statusUpdates : nat
}.

Inductive Result :=
| Threw (f : Failure) (sofar : option Progress)
| Done (p : Progress).

(** [for (const chunk of textChunks) { wsClient.sendText(chatId, chunk);
    statusSink?.(...) }]. *)
Fixpoint sendTextChunks (chatId : string) (chunks : list string) (p : Progress)
  : Progress :=
  match chunks with
  | [] => p
  | chunk :: rest =>
      sendTextChunks chatId rest
        {| client := fst (WebSocket.sendText chatId chunk [] (client p));
           mediaEffects := mediaEffects p;
           statusUpdates := S (statusUpdates p) |}
  end.

(** The media loop of [deliverRuoYiReply]: every media URL is sent as an
    image. *)
Fixpoint sendImages (chatId : string) (urls : list string) (p : Progress)
  : Progress :=
  match urls with
  | [] => p
  | u :: rest =>
      if negb (Js.truthy u) then sendImages chatId rest p
      else
        sendImages chatId rest
          {| client := fst (WebSocket.sendImage chatId u (client p));
             mediaEffects := mediaEffects p;
             statusUpdates := S (statusUpdates p) |}
  end.

(** [deliverRuoYiReply]; [wsClient] is [getWebSocketClient(accountId)]. *)
Definition deliverRuoYiReply (T : TextCore) (wsClient : option WebSocket.Client)
    (chatId : string) (payload : Payload) : Result :=
  match wsClient with
  | None => Threw NotConnected None
  | Some c =>
      if negb (WebSocket.isConnected c) then Threw NotConnected None
      else
        let p := {| client := c; mediaEffects := []; statusUpdates := 0 |} in
        let p := sendTextChunks chatId (textChunksOf T payload) p in
        Done (sendImages chatId (mediaListOf payload) p)
  end.

(** What one effect of a media send does to the delivery.  [sendImage] is
    a method of the client and writes its frame to the socket; the methods
    [sendFile], [sendEmoji], [sendVoice] and [sendVideo] are not part of the
    client under [src/]: their calls are recorded and leave the client as it
    is.  Every [lastOutboundAt] update goes to the [statusSink] of the
    delivery. *)
Definition applyEffect (p : Progress) (e : Media.Effect) : Progress :=
  {| client :=
       match e with
       | Media.Call (Media.SendImage chatId url) =>
           fst (WebSocket.sendImage chatId url (client p))
       | _ => client p
       end;
     mediaEffects := mediaEffects p ++ [e];
     statusUpdates :=
       match e with
       | Media.StatusLastOutboundAt => S (statusUpdates p)
       | _ => statusUpdates p
       end |}.

Definition applyEffects (effects : list Media.Effect) (p : Progress) : Progress :=
  fold_left applyEffect effects p.

(** The media loop of [deliverWechatReply]: each URL goes through
    [sendWechatMedia] with the client and the [statusSink] of the delivery,
    without hints and without [strict]; an error it throws ends the
    delivery. *)
Fixpoint sendMediaList (P : Media.Platform) (chatId : string) (urls : list string)
    (p : Progress) : Result :=
  match urls with
  | [] => Done p
  | u :: rest =>
      if negb (Js.truthy u) then sendMediaList P chatId rest p
      else
        match Media.sendWechatMedia P chatId u None None with
        | Media.Threw f => Threw (MediaFailed f) (Some p)
        | Media.Done effects =>
            sendMediaList P chatId rest (applyEffects effects p)
        end
  end.

(** [deliverWechatReply]. *)
Definition deliverWechatReply (T : TextCore) (P : Media.Platform)
    (wsClient : option WebSocket.Client) (chatId : string) (payload : Payload)
  : Result :=
  match wsClient with
  | None => Threw NotConnected None
  | Some c =>
      if negb (WebSocket.isConnected c) then Threw NotConnected None
      else
        match Wechat.requireWechatOutboundTarget (Some chatId) with
        | None => Threw TargetRequired None
        | Some chatId =>
            let p := {| client := c; mediaEffects := []; statusUpdates := 0 |} in
            let p := sendTextChunks chatId (textChunksOf T payload) p in
            sendMediaList P chatId (mediaListOf payload) p
        end
  end.

End Delivery.

Module Channel.

(** [formatAllowFrom] of the dock and of the plugin. *)
Definition formatAllowFrom (allowFrom : list string) : list string :=
  List.filter Js.truthy
    (map Js.toLowerCase (map Wechat.normalizeAllowEntry allowFrom)).

(** An account snapshot, as [collectStatusIssues] reads it; [lastError] is
    [None] when it is not a string. *)
Record AccountSnapshot := {
  snapshotAccountId : string;
  configured : option bool;
  lastError : option string
}.

(** A [ChannelStatusIssue] of kind ["config"], or of kind ["runtime"] with
    the error text its message ends in. *)
Inductive StatusIssue :=
| ConfigIssue (accountId : string)
| RuntimeIssue (accountId : string) (lastError : string).

Definition issuesOf (account : AccountSnapshot) : list StatusIssue :=
  if negb (default false (configured account))
  then [ConfigIssue (snapshotAccountId account)]
  else
    let lastError := Js.trim (default "" (lastError account)) in
    if negb (Js.truthy lastError) then []
    else [RuntimeIssue (snapshotAccountId account) lastError].

(** [status.collectStatusIssues]. *)
Definition collectStatusIssues (accounts : list AccountSnapshot) : list StatusIssue :=
  flat_map issuesOf accounts.

Definition issueAccount (i : StatusIssue) : string :=
  match i with
  | ConfigIssue a => a
  | RuntimeIssue a _ => a
  end.

End Channel.

(** The calls on the client among the effects of a media send. *)
Definition clientCalls (effects : list Media.Effect) : list Media.ClientCall :=
  flat_map (fun e => match e with Media.Call c => [c] | _ => [] end) effects.

(** The destination of a call on the client. *)
Definition callTarget (c : Media.ClientCall) : string :=
  match c with
  | Media.SendFile chatId _ _ => chatId
  | Media.SendEmoji chatId _ _ => chatId
  | Media.SendVoice chatId _ _ => chatId
  | Media.SendVideo chatId _ _ _ => chatId
  | Media.SendImage chatId _ => chatId
  end.


(** The kind of media a call on the client sends. *)
Definition callKind (c : Media.ClientCall) : Media.MediaKind :=
  match c with
  | Media.SendFile _ _ _ => Media.File
  | Media.SendEmoji _ _ _ => Media.Emoji
  | Media.SendVoice _ _ _ => Media.Voice
  | Media.SendVideo _ _ _ _ => Media.Video
  | Media.SendImage _ _ => Media.Image
  end.

(** The URL a call on the client passes on; a sticker has none. *)
Definition callUrl (c : Media.ClientCall) : option string :=
  match c with
  | Media.SendFile _ url _ => Some url
  | Media.SendEmoji _ _ _ => None
  | Media.SendVoice _ url _ => Some url
  | Media.SendVideo _ url _ _ => Some url
  | Media.SendImage _ url => Some url
  end.

(** Every code unit of [s] satisfies [p]. *)
Fixpoint everyUnit (p : ascii -> bool) (s : string) : bool :=
  match s with
  | EmptyString => true
  | String c r => p c && everyUnit p r
  end.

(** The frames written to the socket that [this.ws] refers to. *)
Definition sentOnCurrent (c : WebSocket.Client) : list WebSocket.Frame :=
  match WebSocket.ws c with
  | Some sid =>
      match WebSocket.sockets c !! sid with
      | Some s => WebSocket.sent s
      | None => []
      end
  | None => []
  end.

(** The callbacks among the observed events. *)
Definition isCallback (e : WebSocket.Event) : bool :=
  match e with
  | WebSocket.OnConnect | WebSocket.OnDisconnect
  | WebSocket.OnError _ | WebSocket.OnMessage _ => true
  | _ => false
  end.

(** What every run keeps about the frames written to sockets: nothing is
    written to a socket that has not opened; the first frame on a socket is
    the authentication frame; the open socket that [this.ws] refers to has
    been written to. *)
Record authenticated (c : WebSocket.Client) : Prop := {
  auth_unopened :
    forall sid s, WebSocket.sockets c !! sid = Some s ->
                  WebSocket.readyState s = WebSocket.CONNECTING ->
                  WebSocket.sent s = [];
  auth_first :
    forall sid s, WebSocket.sockets c !! sid = Some s ->
                  WebSocket.sent s = []
                  \/ exists rest,
                       WebSocket.sent s
                       = WebSocket.Auth (WebSocket.robotWxid c) :: rest;
  auth_current :
    forall sid s, WebSocket.ws c = Some sid ->
                  WebSocket.sockets c !! sid = Some s ->
                  WebSocket.readyState s = WebSocket.OPEN ->
                  WebSocket.sent s <> []
}.

(** [s.includes(pat)]. *)
Fixpoint includesText (pat s : string) : bool :=
  match Js.stripPrefix pat s with
  | Some _ => true
  | None =>
      match s with
      | EmptyString => false
      | String _ r => includesText pat r
      end
  end.

(** The host with another content of the pairing store. *)
Definition withStore (store : option (list string)) (core : Core) : Core :=
  {| shouldComputeCommandAuthorized := shouldComputeCommandAuthorized core;
     isControlCommandMessage := isControlCommandMessage core;
     resolveCommandAuthorizedFromAuthorizers :=
       resolveCommandAuthorizedFromAuthorizers core;
     readAllowFromStore := store;
     upsertPairingRequest := upsertPairingRequest core |}.

(** Further sample data. *)
Module Cases.

(** A client whose connection is open. *)
Definition connected : WebSocket.Client :=
  default (WebSocket.new Sample.options)
    (WebSocket.run [WebSocket.CallConnect; WebSocket.SocketOpens 1]
       (WebSocket.new Sample.options)).

(** An account with the given DM policy and allow list, and nothing else
    configured. *)
Definition dmAccount (policy : option DmPolicy) (allow : option (list string))
  : ResolvedAccount :=
  {| accountId := "default";
     config :=
       {| AccountConfig.dmPolicy := policy;
          AccountConfig.allowFrom := allow;
          AccountConfig.groupMembers := None;
          AccountConfig.groupPolicy := None;
          AccountConfig.groups := None;
          AccountConfig.requireMention := None;
          AccountConfig.blockStreaming := None |} |}.

(** An account with the given group policy and group table. *)
Definition groupPolicyAccount (policy : option GroupPolicy)
    (groups : option (gmap string GroupConfig.t)) : ResolvedAccount :=
  {| accountId := "default";
     config :=
       {| AccountConfig.dmPolicy := None;
          AccountConfig.allowFrom := None;
          AccountConfig.groupMembers := None;
          AccountConfig.groupPolicy := policy;
          AccountConfig.groups := groups;
          AccountConfig.requireMention := Some false;
          AccountConfig.blockStreaming := None |} |}.

(** A host for which every text is a control command and whose pairing
    store cannot be read. *)
Definition commandCore : Core :=
  {| shouldComputeCommandAuthorized := fun _ => true;
     isControlCommandMessage := fun _ => true;
     resolveCommandAuthorizedFromAuthorizers :=
       fun useAccessGroups configured allowed =>
         negb useAccessGroups || (configured && allowed);
     readAllowFromStore := None;
     upsertPairingRequest := fun _ => ("123456", true) |}.

(** Options whose base URL has no scheme. *)
Definition schemelessOptions : WebSocket.Options :=
  {| WebSocket.baseUrl := "localhost:8080";
     WebSocket.optRobotWxid := "wxid_robot" |}.

(** A platform that agrees with the real one on the URL of the picture of
    [reply] below: its path is [/a.png], it has no query, and its extension
    is [.png]. *)
Definition picturePlatform : Media.Platform :=
  {| Media.parseURL :=
       fun s =>
         if String.eqb s "http://host/a.png"
         then Some {| Media.pathname := "/a.png"; Media.searchParams := [] |}
         else None;
     Media.parseSearchParams := fun _ => [];
     Media.decodeURIComponent := fun s => Some s;
     Media.parseFloatTrunc := fun _ => None;
     Media.getFileExtension :=
       fun s => if String.eqb s "http://host/a.png" then Some ".png" else None |}.

(** Only the alias entry [group:constructor] is listed; it asks for no
    mention.  The account sets no [requireMention]. *)
Definition aliasOnlyTable : gmap string GroupConfig.t :=
  <["group:constructor" := Sample.group None None (Some false)]> ∅.

(** Every group is switched off by the ["*"] entry. *)
Definition closedTable : gmap string GroupConfig.t :=
  <["*" := Sample.group (Some false) None None]> ∅.

(** A host text pipeline that leaves tables alone and cuts a text at its
    line breaks. *)
Definition textCore : Delivery.TextCore :=
  {| Delivery.convertMarkdownTables := fun s => s;
     Delivery.chunkMarkdownTextWithMode := Js.split (ascii_of_nat 10) |}.

(** A reply of two lines with one picture. *)
Definition reply : Delivery.Payload :=
  {| Delivery.text := Some ("hello" +:+ Js.newline +:+ "there");
     Delivery.mediaUrls := Some ["http://host/a.png"];
     Delivery.mediaUrl := None |}.

(** Three account snapshots: not configured (with an error recorded),
    configured and failing, configured and well. *)
Definition snapshots : list Channel.AccountSnapshot :=
  [ {| Channel.snapshotAccountId := "a"; Channel.configured := None;
       Channel.lastError := Some "boom" |};
    {| Channel.snapshotAccountId := "b"; Channel.configured := Some true;
       Channel.lastError := Some " timeout " |};
    {| Channel.snapshotAccountId := "c"; Channel.configured := Some true;
       Channel.lastError := Some "  " |} ].

End Cases.

(** * Properties *)

(** ** Strings *)

Lemma trimStart_fixed c r :
  Js.isWhiteSpace c = false -> Js.trimStart (String c r) = String c r.
Proof. intros H. simpl. now rewrite H. Qed.

Lemma trimStart_head s :
  match Js.trimStart s with
  | EmptyString => True
  | String c _ => Js.isWhiteSpace c = false
  end.
Proof.
  induction s as [|c r IH]; simpl; [exact I|].
  destruct (Js.isWhiteSpace c) eqn:E; [exact IH | exact E].
Qed.

Lemma trimEnd_idempotent s : Js.trimEnd (Js.trimEnd s) = Js.trimEnd s.
Proof.
  induction s as [|c r IH]; simpl; [reflexivity|].
  destruct (Js.trimEnd r) as [|d r'] eqn:E.
  - destruct (Js.isWhiteSpace c) eqn:W; simpl; [reflexivity|].
    now rewrite W.
  - simpl in IH |- *. cbn [Js.trimEnd]. fold Js.trimEnd.
    change (Js.trimEnd (String c (String d r'))) with
      (match Js.trimEnd (String d r') with
       | EmptyString => if Js.isWhiteSpace c then EmptyString else String c EmptyString
       | r'' => String c r''
       end).
    rewrite IH. reflexivity.
Qed.

Lemma trimEnd_head c r :
  Js.isWhiteSpace c = false ->
  exists r', Js.trimEnd (String c r) = String c r'.
Proof.
  intros W. simpl. destruct (Js.trimEnd r); rewrite ?W; eauto.
Qed.

Lemma trim_idempotent s : Js.trim (Js.trim s) = Js.trim s.
Proof.
  unfold Js.trim.
  pose proof (trimStart_head s) as H.
  destruct (Js.trimStart s) as [|c r] eqn:E; [reflexivity|].
  destruct (trimEnd_head c r H) as [r' Hr'].
  rewrite Hr'. rewrite (trimStart_fixed _ _ H). rewrite <- Hr'.
  apply trimEnd_idempotent.
Qed.

Example trim_and_lower :
  Js.trim "  Wx:Abc  " = "Wx:Abc"
  /\ Js.toLowerCase "Wx:Abc" = "wx:abc"
  /\ Js.split "/" "/a//song.mp3" = [""; "a"; ""; "song.mp3"]
  /\ Js.join Js.newline ["a"] = "a".
Proof. repeat split; reflexivity. Qed.

(** The alternatives of the prefix pattern are tried in order and must be
    followed by a colon. *)
Example normalizeAllowEntry_examples :
  Wechat.normalizeAllowEntry " WeChat-Channel:wxid_A " = "wxid_A"
  /\ Wechat.normalizeAllowEntry "wechat:wxid_A" = "wxid_A"
  /\ Wechat.normalizeAllowEntry "WX:wxid_A" = "wxid_A"
  /\ Wechat.normalizeAllowEntry "wechat-channels:wxid_A" = "wechat-channels:wxid_A"
  /\ Wechat.normalizeAllowEntry "wx:wx:wxid_A" = "wx:wxid_A"
  /\ Wechat.normalizeAllowEntry " * " = "*"
  /\ RuoYi.normalizeAllowEntry "ry:wxid_A" = "wxid_A"
  /\ RuoYi.normalizeAllowEntry "wx:wxid_A" = "wx:wxid_A".
Proof. repeat split; reflexivity. Qed.

Lemma replaceSchemePrefix_empty schemes : Js.replaceSchemePrefix schemes "" = "".
Proof.
  induction schemes as [|p ps IH]; simpl; [reflexivity|].
  destruct p; simpl; exact IH.
Qed.

Lemma stripPrefixIgnoreCase_colon_empty p :
  Js.stripPrefixIgnoreCase (p +:+ ":") "" = None.
Proof. destruct p; reflexivity. Qed.

Lemma replaceSchemePrefix_star schemes : Js.replaceSchemePrefix schemes "*" = "*".
Proof.
  induction schemes as [|p ps IH]; simpl; [reflexivity|].
  destruct p as [|a p']; simpl.
  - exact IH.
  - destruct (Ascii.eqb _ _); [|exact IH].
    rewrite stripPrefixIgnoreCase_colon_empty. exact IH.
Qed.

Lemma truthy_false s : Js.truthy s = false -> s = "".
Proof. destruct s; [reflexivity | discriminate]. Qed.

(** [normalizeAllowEntry] trims and strips the prefix; its two special cases
    (the empty entry and the wildcard) agree with that. *)
Lemma normalizeAllowEntry_strip schemes entry :
  Shared.normalizeAllowEntry schemes entry
  = Js.replaceSchemePrefix schemes (Js.trim entry).
Proof.
  unfold Shared.normalizeAllowEntry, Shared.normalizeTarget.
  destruct (Js.truthy (Js.trim entry)) eqn:T; simpl.
  - destruct (String.eqb_spec (Js.trim entry) "*") as [E|_].
    + rewrite E. symmetry. apply replaceSchemePrefix_star.
    + rewrite trim_idempotent, T. reflexivity.
  - rewrite (truthy_false _ T). symmetry. apply replaceSchemePrefix_empty.
Qed.

Lemma existsb_eqb_In x (l : list string) :
  existsb (String.eqb x) l = true <-> In x l.
Proof.
  rewrite existsb_exists. split.
  - intros (y & Hy & E). apply String.eqb_eq in E. now subst.
  - intros H. exists x. split; [exact H | apply String.eqb_refl].
Qed.

Lemma isSenderAllowed_normalize schemes s L :
  Shared.isSenderAllowed schemes s L = true <->
  In "*" L \/ exists x, In x L /\ normalize schemes x = normalize schemes s.
Proof.
  unfold Shared.isSenderAllowed, normalize.
  destruct (existsb (String.eqb "*") L) eqn:W.
  - apply existsb_eqb_In in W. tauto.
  - rewrite existsb_exists. split.
    + intros (x & Hx & E). right. exists x. split; [exact Hx|].
      apply String.eqb_eq in E. now rewrite !normalizeAllowEntry_strip in E.
    + intros [Hstar | (x & Hx & E)].
      * apply existsb_eqb_In in Hstar. congruence.
      * exists x. split; [exact Hx|].
        apply String.eqb_eq. now rewrite !normalizeAllowEntry_strip.
Qed.

(** C2. For every sender id [s] and allow list [L], [isSenderAllowed s L] is
    true if and only if [L] contains the literal entry ["*"], or the
    normalisation of [s] (trimmed, the channel prefix [wechat-channel:],
    [wechat:] or [wx:] stripped, lower-cased) equals the normalisation of
    some entry of [L]. *)
Theorem isSenderAllowed_iff (s : string) (L : list string) :
  Wechat.isSenderAllowed s L = true <->
  In "*" L \/ exists x, In x L /\ normalize Wechat.schemes x = normalize Wechat.schemes s.
Proof.
  unfold Wechat.isSenderAllowed, Shared.isSenderAllowed, normalize.
  destruct (existsb (String.eqb "*") L) eqn:Star.
  - split; [|reflexivity]. intros _. left. now apply existsb_eqb_In.
  - assert (~ In "*" L) as NoStar
      by (intros H; apply existsb_eqb_In in H; congruence).
    rewrite existsb_exists. split.
    + intros (x & Hx & E). right. exists x. split; [exact Hx|].
      apply String.eqb_eq in E.
      rewrite (normalizeAllowEntry_strip Wechat.schemes x) in E.
      rewrite (normalizeAllowEntry_strip Wechat.schemes s) in E. exact E.
    + intros [H | (x & Hx & E)]; [contradiction|].
      exists x. split; [exact Hx|]. apply String.eqb_eq.
      rewrite (normalizeAllowEntry_strip Wechat.schemes x).
      rewrite (normalizeAllowEntry_strip Wechat.schemes s). exact E.
Qed.

Example isSenderAllowed_prefix_and_case :
  Wechat.isSenderAllowed "  WX:WxId_A " ["wechat-channel:wxid_a"] = true
  /\ Wechat.isSenderAllowed "wxid_b" ["wxid_a"; " * "] = false
  /\ Wechat.isSenderAllowed "wxid_b" ["wxid_a"; "*"] = true.
Proof. repeat split; reflexivity. Qed.

(** ** Group tables *)

Lemma isFalse_true x : isFalse x = true <-> x = Some false.
Proof. destruct x as [[]|]; simpl; split; congruence. Qed.

Lemma isFalse_false x : isFalse x = false <-> x <> Some false.
Proof. destruct x as [[]|]; simpl; split; congruence. Qed.

Lemma denies_switchedOff e :
  isFalse (GroupConfig.allow e) || isFalse (GroupConfig.enabled e) = true
  <-> switchedOff e.
Proof.
  unfold switchedOff. rewrite orb_true_iff, !isFalse_true. reflexivity.
Qed.

(** Reads of the group table under names that no object inherits. *)
Lemma groupsGet_own (table : gmap string GroupConfig.t) k :
  Js.inherited k = false -> Shared.groupsGet table k = table !! k.
Proof.
  intros H. unfold Shared.groupsGet. rewrite H. now destruct (table !! k).
Qed.

Lemma inherited_alias k : Js.inherited ("group:" +:+ k) = false.
Proof. vm_compute. reflexivity. Qed.

Lemma groupsGet_alias (table : gmap string GroupConfig.t) k :
  Shared.groupsGet table ("group:" +:+ k) = table !! ("group:" +:+ k).
Proof. apply groupsGet_own, inherited_alias. Qed.

Lemma groupsGet_star (table : gmap string GroupConfig.t) :
  Shared.groupsGet table "*" = table !! "*".
Proof. now apply groupsGet_own. Qed.

(** An inherited member sets no [requireMention]. *)
Lemma groupsGet_requireMention (table : gmap string GroupConfig.t) k :
  Shared.groupsGet table k ≫= GroupConfig.requireMention
  = table !! k ≫= GroupConfig.requireMention.
Proof.
  unfold Shared.groupsGet. destruct (table !! k); [reflexivity|].
  now destruct (Js.inherited k).
Qed.

Lemma firstGroupEntry_explicit g (table : gmap string GroupConfig.t) :
  Js.inherited g = false ->
  Shared.firstGroupEntry table [g; "group:" +:+ g] = explicitEntry g table.
Proof.
  intros H. unfold explicitEntry. cbn [Shared.firstGroupEntry].
  rewrite (groupsGet_own table g H), groupsGet_alias.
  destruct (table !! g); [reflexivity|].
  destruct (table !! _); reflexivity.
Qed.

Lemma isGroupAllowed_empty g : Shared.isGroupAllowed g ∅ = false.
Proof. unfold Shared.isGroupAllowed. now rewrite map_size_empty. Qed.

Lemma isGroupAllowed_cases g (table : gmap string GroupConfig.t) :
  Js.inherited g = false ->
  Shared.isGroupAllowed g table =
  match explicitEntry g table with
  | Some e => negb (isFalse (GroupConfig.allow e) || isFalse (GroupConfig.enabled e))
  | None =>
      match table !! "*" with
      | Some w => negb (isFalse (GroupConfig.allow w) || isFalse (GroupConfig.enabled w))
      | None => false
      end
  end.
Proof.
  intros H. unfold Shared.isGroupAllowed.
  rewrite (firstGroupEntry_explicit g table H), groupsGet_star.
  destruct (size table =? 0)%nat eqn:Z.
  - apply Nat.eqb_eq, map_size_empty_iff in Z. subst table.
    unfold explicitEntry. rewrite !lookup_empty. reflexivity.
  - destruct (explicitEntry g table) as [e|].
    + destruct (isFalse (GroupConfig.allow e) || isFalse (GroupConfig.enabled e));
        reflexivity.
    + destruct (table !! "*") as [w|]; [|reflexivity].
      now rewrite negb_orb.
Qed.

(** For every group id [g] that is not the name of an inherited member, and
    every group table: if an explicit entry exists for [g] (under the key
    [g], else under [group:] + [g]), [isGroupAllowed] is false exactly when
    that entry has [allow=false] or [enabled=false] and true otherwise,
    whatever the ["*"] entry says; without an explicit entry the result is
    true iff a ["*"] entry exists whose [allow] and [enabled] are not false.
    For the empty table it is false for every id. *)
Lemma isGroupAllowed_explicit_over_wildcard
    (g : string) (table : gmap string GroupConfig.t) :
  Js.inherited g = false ->
  (forall e, explicitEntry g table = Some e ->
     (Wechat.isGroupAllowed g table = false <-> switchedOff e)
     /\ (Wechat.isGroupAllowed g table = true <-> ~ switchedOff e))
  /\ (explicitEntry g table = None ->
      (Wechat.isGroupAllowed g table = true <->
       exists w, table !! "*" = Some w
                 /\ GroupConfig.allow w <> Some false
                 /\ GroupConfig.enabled w <> Some false)).
Proof.
  intros H. unfold Wechat.isGroupAllowed. rewrite !(isGroupAllowed_cases g table H).
  split.
  - intros e He. rewrite He. rewrite <- denies_switchedOff.
    destruct (isFalse (GroupConfig.allow e) || isFalse (GroupConfig.enabled e));
      simpl; split; split; congruence.
  - intros Hn. rewrite Hn.
    destruct (table !! "*") as [w|].
    + rewrite negb_true_iff, orb_false_iff, !isFalse_false. split.
      * intros [Ha Hb]. exists w. auto.
      * intros (w' & E & Ha & Hb). injection E as <-. auto.
    + split; [discriminate|]. intros (w & E & _). discriminate.
Qed.

(** A group switched off by its own entry stays off under an allowing
    wildcard. *)
Example isGroupAllowed_switched_off :
  (Wechat.isGroupAllowed "G1" Sample.switchedOffTable = false
   <-> switchedOff (Sample.group (Some false) None None))
  /\ Wechat.isGroupAllowed "G1" Sample.switchedOffTable = false.
Proof.
  split.
  - exact (proj1 (proj1 (isGroupAllowed_explicit_over_wildcard
                           "G1" Sample.switchedOffTable eq_refl)
                    (Sample.group (Some false) None None) eq_refl)).
  - reflexivity.
Qed.

(** Under a name that every object inherits, and without an own entry of
    that name, the read [groups[groupId]] finds the inherited member: the
    group is allowed by every table that is not empty, whatever the alias
    entry and the ["*"] entry say. *)
Lemma isGroupAllowed_inherited g (table : gmap string GroupConfig.t) :
  Js.inherited g = true ->
  table !! g = None ->
  table <> ∅ ->
  Wechat.isGroupAllowed g table = true.
Proof.
  intros H N E. unfold Wechat.isGroupAllowed, Shared.isGroupAllowed.
  destruct (size table =? 0)%nat eqn:Z.
  - apply Nat.eqb_eq, map_size_empty_iff in Z. contradiction.
  - cbn [Shared.firstGroupEntry]. unfold Shared.groupsGet at 1. rewrite N, H.
    reflexivity.
Qed.

(** C3. The claim fails on the code for a group id that is the name of a
    member every object inherits.  For [constructor] the table that lists
    [G1] only holds no explicit entry and no ["*"] entry, and the table that
    switches every group off holds a ["*"] entry with [allow=false]: in both
    [isGroupAllowed] is true, where the claim says false (as it is for the
    unlisted id [G2]). *)
Theorem isGroupAllowed_inherited_name :
  explicitEntry "constructor" Sample.mentionTable = None
  /\ Sample.mentionTable !! "*" = None
  /\ Wechat.isGroupAllowed "constructor" Sample.mentionTable = true
  /\ Wechat.isGroupAllowed "G2" Sample.mentionTable = false
  /\ explicitEntry "constructor" Cases.closedTable = None
  /\ Wechat.isGroupAllowed "constructor" Cases.closedTable = true
  /\ Wechat.isGroupAllowed "G2" Cases.closedTable = false.
Proof. repeat split; vm_compute; reflexivity. Qed.

(** ** Mention gating *)

(** The entry of the group itself, as [resolveGroupRequireMention] finds it:
    under the trimmed id, else under its [group:] alias; none for a blank
    id. *)
Lemma ownGroupEntry_explicit (table : gmap string GroupConfig.t) (id : string) :
  Js.inherited (Js.trim id) = false ->
  Wechat.ownGroupEntry table (Some id) =
  if Js.truthy (Js.trim id) then explicitEntry (Js.trim id) table else None.
Proof.
  intros H. unfold Wechat.ownGroupEntry, explicitEntry.
  cbn [fmap option_fmap option_map].
  destruct (Js.truthy (Js.trim id)); [|reflexivity].
  rewrite (groupsGet_own table _ H), groupsGet_alias.
  destruct (table !! Js.trim id); reflexivity.
Qed.

Lemma groupStage_mention resolve cfg account m sender chat :
  resolve account (Some chat) = true ->
  mentionTruthy (isMentioned m) = false ->
  Shared.groupStage Wechat.schemes resolve cfg account m sender chat <> None.
Proof.
  intros R M. unfold Shared.groupStage. rewrite R.
  destruct (bool_decide _); [discriminate|].
  destruct (_ && _); [discriminate|].
  destruct (isMentioned m) as [flag|]; [rewrite M|]; discriminate.
Qed.

(** For a group id that is not the name of an inherited member, the
    resolved [requireMention] is the first defined boolean among: the
    group's own entry (direct key, else [group:] alias, of the trimmed id),
    the ["*"] entry, the account-level setting; it is [true] when none is
    defined.  And a group message for whose chat the resolved value is true
    and whose mention flag is absent or falsy does not proceed. *)
Lemma requireMention_resolution_and_gate :
  (forall (account : ResolvedAccount) (groupId : string),
     let table := default ∅ (AccountConfig.groups (config account)) in
     Js.inherited (Js.trim groupId) = false ->
     Wechat.resolveGroupRequireMention account (Some groupId) =
     firstDefined
       [ (if Js.truthy (Js.trim groupId)
          then explicitEntry (Js.trim groupId) table else None)
           ≫= GroupConfig.requireMention;
         table !! "*" ≫= GroupConfig.requireMention;
         AccountConfig.requireMention (config account) ])
  /\ (forall (core : Core) (params : Wechat.WechatInboundParams),
       isGroupMsg (Wechat.msg params) = true ->
       Wechat.resolveGroupRequireMention (Wechat.account params)
         (Some (fromUserName (Wechat.msg params))) = true ->
       mentionTruthy (isMentioned (Wechat.msg params)) = false ->
       proceeds (Wechat.processWechatInboundMessage core params) = false).
Proof.
  split.
  - intros account groupId table H.
    unfold Wechat.resolveGroupRequireMention. fold table.
    rewrite (ownGroupEntry_explicit table groupId H), groupsGet_star.
    cbn [firstDefined].
    destruct (_ ≫= GroupConfig.requireMention) as [b|]; [reflexivity|].
    destruct (table !! "*" ≫= GroupConfig.requireMention) as [b|]; [reflexivity|].
    destruct (AccountConfig.requireMention (config account)); reflexivity.
  - intros core params G R M.
    unfold Wechat.processWechatInboundMessage.
    destruct (negb (Js.truthy _)); [reflexivity|].
    rewrite G.
    pose proof (groupStage_mention Wechat.resolveGroupRequireMention
                  (Wechat.cfg params) (Wechat.account params) (Wechat.msg params)
                  (Wechat.resolveWechatSenderId (Wechat.msg params))
                  (fromUserName (Wechat.msg params)) R M) as H.
    destruct (Shared.groupStage _ _ _ _ _ _ _); [reflexivity | congruence].
Qed.

(** The scenario of the specification: group policy [allowlist], group [G1]
    listed with [requireMention: true], a message from [G1] whose mention
    flag is [false]. *)
Example requireMention_gate_scenario :
  proceeds
    (Wechat.processWechatInboundMessage Sample.core
       (Sample.inbound (Sample.groupAccount Sample.mentionTable ∅)
          (Sample.inGroup "G1" "wxidA" "hello" (Some (MentionBool false)))))
  = false.
Proof.
  apply (proj2 requireMention_resolution_and_gate); reflexivity.
Qed.

(** C4. The claim fails on the code for a group id that is the name of a
    member every object inherits.  The group [constructor] is listed under
    its alias [group:constructor] with [requireMention: false], nothing else
    is configured: the first defined value in the claim's order is that of
    the alias entry, [false]; [resolveGroupRequireMention] returns [true],
    because the read under the id itself finds the inherited member and the
    alias entry is never looked at.  A message in that group that does not
    mention the bot is ignored for lack of a mention; in the group [G7],
    listed the same way, it is dispatched. *)
Theorem requireMention_inherited_name :
  firstDefined
    [ explicitEntry "constructor" Cases.aliasOnlyTable ≫= GroupConfig.requireMention;
      Cases.aliasOnlyTable !! "*" ≫= GroupConfig.requireMention;
      AccountConfig.requireMention
        (config (Sample.groupAccount Cases.aliasOnlyTable ∅)) ]
  = false
  /\ Wechat.resolveGroupRequireMention
       (Sample.groupAccount Cases.aliasOnlyTable ∅) (Some "constructor")
     = true
  /\ Wechat.processWechatInboundMessage Sample.core
       (Sample.inbound (Sample.groupAccount Cases.aliasOnlyTable ∅)
          (Sample.inGroup "constructor" "wxidA" "hello" None))
     = Ignore NotMentioned
  /\ Wechat.resolveGroupRequireMention
       (Sample.groupAccount
          (<["group:G7" := Sample.group None None (Some false)]> ∅) ∅) (Some "G7")
     = false
  /\ proceeds
       (Wechat.processWechatInboundMessage Sample.core
          (Sample.inbound
             (Sample.groupAccount
                (<["group:G7" := Sample.group None None (Some false)]> ∅) ∅)
             (Sample.inGroup "G7" "wxidA" "hello" None)))
     = true.
Proof. repeat split; vm_compute; reflexivity. Qed.

(** ** The inbound path *)

Lemma In_uniqueFrom x seen xs :
  In x (uniqueFrom seen xs) <-> In x xs /\ ~ In x seen.
Proof.
  revert seen. induction xs as [|y r IH]; intros seen; simpl; [tauto|].
  destruct (existsb (String.eqb y) seen) eqn:E.
  - apply existsb_eqb_In in E. rewrite IH. split.
    + tauto.
    + intros [[<- | H] N]; [contradiction | tauto].
  - assert (~ In y seen) as Ny.
    { intros H. apply existsb_eqb_In in H. congruence. }
    simpl. rewrite IH. simpl. split.
    + intros [<- | (H & N)]; [tauto|]. split; [tauto|]. intros Hs. apply N. tauto.
    + intros [[<- | H] N]; [tauto|].
      destruct (string_dec y x) as [<- | Hne]; [tauto|]. right. split; [exact H|].
      intros [-> | Hs]; tauto.
Qed.

Lemma In_unique x xs : In x (unique xs) <-> In x xs.
Proof. unfold unique. rewrite In_uniqueFrom. simpl. tauto. Qed.

(** Removing duplicates from an allow list changes no decision. *)
Lemma isSenderAllowed_unique schemes s L :
  Shared.isSenderAllowed schemes s (unique L) = Shared.isSenderAllowed schemes s L.
Proof.
  apply eq_true_iff_eq. rewrite !isSenderAllowed_normalize.
  rewrite In_unique. split.
  - intros [H | (x & Hx & E)]; [tauto|]. right. exists x. now rewrite <- In_unique.
  - intros [H | (x & Hx & E)]; [tauto|]. right. exists x. now rewrite In_unique.
Qed.

(** What the direct-message stage does under policy [allowlist]. *)
Lemma afterGroupStage_dm_allowlist schemes core cfg account m sender chat body auth L :
  isGroupMsg m = false ->
  Shared.dmPolicyOf account = PolicyAllowlist ->
  proceeds (Shared.afterGroupStage schemes core cfg account m sender chat body auth L)
  = Shared.isSenderAllowed schemes sender L.
Proof.
  intros G D. unfold Shared.afterGroupStage. rewrite G, D. simpl.
  destruct (Shared.isSenderAllowed schemes sender L); reflexivity.
Qed.

(** C1, as stated, fails in the WeChat runtime: under DM policy [allowlist]
    with the allow list [["wxidA"]], a message from [wxidB] proceeds when the
    pairing store holds [wxidB], although [wxidB] is not in the configured
    allow list. *)
Lemma dm_allowlist_reads_pairing_store :
  proceeds
    (Wechat.processWechatInboundMessage Sample.core
       (Sample.inbound Sample.allowlistAccount (Sample.direct "wxidB" "hi")))
  = true
  /\ Wechat.isSenderAllowed "wxidB"
       (Wechat.normalizeAllowFromEntries
          (AccountConfig.allowFrom (config Sample.allowlistAccount)))
     = false.
Proof. split; reflexivity. Qed.

(** C1, amended.  A direct message with text, under DM policy [allowlist],
    proceeds if and only if its sender is allowed by the allow list in
    force.  In the WeChat runtime ([processWechatInboundMessage]) that list
    is the configured allow list together with the entries read from the
    pairing store; in the RuoYi runtime ([handleRuoYiInboundMessage]) it is
    the configured allow list alone. *)
Theorem dm_allowlist_decision :
  (forall (core : Core) (params : Wechat.WechatInboundParams),
     isGroupMsg (Wechat.msg params) = false ->
     Shared.dmPolicyOf (Wechat.account params) = PolicyAllowlist ->
     Js.truthy (trimmedContent (Wechat.msg params)) = true ->
     proceeds (Wechat.processWechatInboundMessage core params)
     = Wechat.isSenderAllowed (fromUserName (Wechat.msg params))
         (Wechat.normalizeAllowFromEntries
            (AccountConfig.allowFrom (config (Wechat.account params)))
          ++ Wechat.normalizeAllowFromEntries
               (Some (default [] (readAllowFromStore core)))))
  /\ (forall (core : Core) (cfg : OpenClawConfig) (account : ResolvedAccount)
            (m : WechatMessage),
       isGroupMsg m = false ->
       Shared.dmPolicyOf account = PolicyAllowlist ->
       Js.truthy (trimmedContent m) = true ->
       proceeds (RuoYi.handleRuoYiInboundMessage core cfg account m)
       = RuoYi.isSenderAllowed (fromUserName m)
           (RuoYi.normalizeAllowFromEntries
              (AccountConfig.allowFrom (config account)))).
Proof.
  split.
  - intros core params G D T.
    unfold Wechat.processWechatInboundMessage.
    rewrite T, G. cbn [negb].
    rewrite afterGroupStage_dm_allowlist by assumption.
    unfold Wechat.isSenderAllowed. rewrite isSenderAllowed_unique.
    rewrite D. simpl.
    unfold Wechat.resolveWechatSenderId, senderOf. rewrite G. reflexivity.
  - intros core cfg account m G D T.
    unfold RuoYi.handleRuoYiInboundMessage.
    rewrite T, G. cbn [negb].
    rewrite afterGroupStage_dm_allowlist by assumption.
    unfold senderOf. rewrite G. reflexivity.
Qed.

(** The scenario of the specification (allow list [["wxidA"]], a message from
    [wxidB]) in both runtimes: the pairing store decides in the first, the
    message is ignored in the second. *)
Lemma dm_allowlist_decision_witness :
  proceeds
    (Wechat.processWechatInboundMessage Sample.core
       (Sample.inbound Sample.allowlistAccount (Sample.direct "wxidB" "hi")))
  = Wechat.isSenderAllowed "wxidB" ["wxidA"; "wxidB"]
  /\ proceeds
       (RuoYi.handleRuoYiInboundMessage Sample.core Sample.cfg
          Sample.allowlistAccount (Sample.direct "wxidB" "hi"))
     = RuoYi.isSenderAllowed "wxidB" ["wxidA"].
Proof.
  split.
  - exact (proj1 dm_allowlist_decision Sample.core
             (Sample.inbound Sample.allowlistAccount (Sample.direct "wxidB" "hi"))
             eq_refl eq_refl eq_refl).
  - exact (proj2 dm_allowlist_decision Sample.core Sample.cfg
             Sample.allowlistAccount (Sample.direct "wxidB" "hi")
             eq_refl eq_refl eq_refl).
Defined.

(** C10. A group message under group policy [allowlist] whose group
    [isGroupAllowed] rejects - also when the group's own entry has
    [allow=false] or [enabled=false] - is still admitted when its sender
    matches the member allow list of the group ([groupMembers], direct key
    or [group:] alias): it is not dropped by the group gate, and it is
    dispatched once the mention requirement is met and it is not a control
    command. *)
Theorem group_member_allowlist_admits
    (core : Core) (params : Wechat.WechatInboundParams) :
  let m := Wechat.msg params in
  let account := Wechat.account params in
  let chatId := fromUserName m in
  isGroupMsg m = true ->
  Js.truthy (trimmedContent m) = true ->
  Shared.groupPolicyOf (Wechat.cfg params) account = GroupAllowlist ->
  Wechat.isGroupAllowed chatId
    (default ∅ (AccountConfig.groups (config account))) = false ->
  Wechat.isSenderAllowed (Wechat.resolveWechatSenderId m)
    (Wechat.resolveGroupMemberAllowFrom account (Some chatId)) = true ->
  Wechat.processWechatInboundMessage core params <> Ignore GroupNotAllowed
  /\ Wechat.processWechatInboundMessage core params <> Ignore GroupMessagesDisabled
  /\ (Wechat.resolveGroupRequireMention account (Some chatId) = false
       \/ mentionTruthy (isMentioned m) = true ->
      isControlCommandMessage core (trimmedContent m) = false ->
      proceeds (Wechat.processWechatInboundMessage core params) = true).
Proof.
  intros m account chatId G T P A S.
  unfold Wechat.processWechatInboundMessage.
  fold m account chatId. rewrite T, G. cbn [negb].
  unfold Shared.groupStage. rewrite P.
  fold Wechat.isGroupAllowed Wechat.isSenderAllowed Wechat.resolveGroupMemberAllowFrom.
  fold chatId. rewrite A, S. cbn [negb andb bool_decide decide_rel].
  assert (forall L auth,
            Shared.afterGroupStage Wechat.schemes core (Wechat.cfg params) account m
              (Wechat.resolveWechatSenderId m) chatId (trimmedContent m) auth L
            <> Ignore GroupNotAllowed
            /\ Shared.afterGroupStage Wechat.schemes core (Wechat.cfg params) account m
                 (Wechat.resolveWechatSenderId m) chatId (trimmedContent m) auth L
               <> Ignore GroupMessagesDisabled) as After.
  { intros L auth. unfold Shared.afterGroupStage. rewrite G. simpl.
    destruct (isControlCommandMessage core (trimmedContent m) && _);
      split; discriminate. }
  assert (forall L auth,
            isControlCommandMessage core (trimmedContent m) = false ->
            proceeds
              (Shared.afterGroupStage Wechat.schemes core (Wechat.cfg params) account m
                 (Wechat.resolveWechatSenderId m) chatId (trimmedContent m) auth L)
            = true) as Go.
  { intros L auth C. unfold Shared.afterGroupStage. rewrite G, C. reflexivity. }
  destruct (Wechat.resolveGroupRequireMention account (Some chatId)) eqn:R.
  - destruct (isMentioned m) as [flag|] eqn:F.
    + destruct (mentionTruthy (Some flag)) eqn:M; cbn [negb].
      * split; [apply After | split; [apply After|]].
        intros _ C. now apply Go.
      * split; [discriminate | split; [discriminate|]].
        intros [H | H]; discriminate.
    + cbn [negb]. split; [discriminate | split; [discriminate|]].
      intros [H | H]; discriminate.
  - split; [apply After | split; [apply After|]].
    intros _ C. now apply Go.
Qed.

(** [G1] is switched off by its own entry ([allow: false]) and [wxidA] is on
    its member allow list: a message of [wxidA] that mentions the bot is
    dispatched. *)
Lemma group_member_allowlist_admits_witness :
  Wechat.isGroupAllowed "G1" Sample.switchedOffTable = false
  /\ proceeds
       (Wechat.processWechatInboundMessage Sample.core
          (Sample.inbound
             (Sample.groupAccount Sample.switchedOffTable Sample.memberTable)
             (Sample.inGroup "G1" "wxidA" "hello" (Some (MentionBool true)))))
     = true.
Proof.
  split; [reflexivity|].
  apply (group_member_allowlist_admits Sample.core
           (Sample.inbound
              (Sample.groupAccount Sample.switchedOffTable Sample.memberTable)
              (Sample.inGroup "G1" "wxidA" "hello" (Some (MentionBool true)))));
    try reflexivity.
  right. reflexivity.
Defined.

(** ** Debounce merge *)

Lemma truthy_app a b : Js.truthy a = true -> Js.truthy (a +:+ b) = true.
Proof. destruct a; [discriminate | reflexivity]. Qed.

Lemma join_truthy sep p ps : Js.truthy p = true -> Js.truthy (Js.join sep (p :: ps)) = true.
Proof.
  intros H. simpl. destruct ps; [exact H | now apply truthy_app].
Qed.

Lemma filter_truthy_nonempty (f : Wechat.WechatInboundParams -> string) entries :
  Exists (fun e => Js.truthy (f e) = true) entries ->
  exists p ps, List.filter Js.truthy (map f entries) = p :: ps /\ Js.truthy p = true.
Proof.
  induction 1 as [e r H | e r _ IH]; simpl.
  - rewrite H. eauto.
  - destruct (Js.truthy (f e)) eqn:E; [eauto | exact IH].
Qed.

Lemma last_In {A} (l : list A) x : last l = Some x -> In x l.
Proof.
  intros H. apply last_Some in H as [l' ->]. apply in_or_app. right. now left.
Qed.

Lemma existsb_Exists {A} (f : A -> bool) l :
  existsb f l = true <-> Exists (fun x => f x = true) l.
Proof.
  rewrite existsb_exists, List.Exists_exists. reflexivity.
Qed.

(** Trimmed pieces joined by a separator need no trimming. *)

Lemma trimStart_length s : String.length (Js.trimStart s) <= String.length s.
Proof.
  induction s as [|c r IH]; simpl; [lia|].
  destruct (Js.isWhiteSpace c); simpl; lia.
Qed.

Lemma trimEnd_length s : String.length (Js.trimEnd s) <= String.length s.
Proof.
  induction s as [|c r IH]; simpl; [lia|].
  destruct (Js.trimEnd r); [destruct (Js.isWhiteSpace c)|]; simpl in *; lia.
Qed.

Lemma trimmed_head c r :
  Js.trim (String c r) = String c r ->
  Js.isWhiteSpace c = false /\ Js.trimEnd (String c r) = String c r.
Proof.
  unfold Js.trim. intros H.
  destruct (Js.isWhiteSpace c) eqn:W.
  - exfalso. simpl in H. rewrite W in H.
    pose proof (trimEnd_length (Js.trimStart r)).
    pose proof (trimStart_length r).
    rewrite H in *. simpl in *. lia.
  - split; [reflexivity|]. now rewrite (trimStart_fixed _ _ W) in H.
Qed.

Lemma trimEnd_app a b :
  Js.truthy b = true -> Js.trimEnd b = b -> Js.trimEnd (a +:+ b) = a +:+ b.
Proof.
  intros T E. induction a as [|c a IH]; [exact E|].
  change (String c a +:+ b) with (String c (a +:+ b)).
  cbn [Js.trimEnd]. rewrite IH.
  destruct (a +:+ b) eqn:A; [|reflexivity].
  destruct a; [change ("" +:+ b) with b in A; subst b|]; discriminate.
Qed.

Lemma trim_between a sep b :
  Js.truthy a = true -> Js.trim a = a ->
  Js.truthy b = true -> Js.trim b = b ->
  Js.trim (a +:+ sep +:+ b) = a +:+ sep +:+ b.
Proof.
  intros Ta Ca Tb Cb.
  destruct a as [|c a]; [discriminate|]. destruct b as [|d b]; [discriminate|].
  destruct (trimmed_head _ _ Ca) as [Wc _].
  destruct (trimmed_head _ _ Cb) as [_ Eb].
  unfold Js.trim. change (String c a +:+ sep +:+ String d b)
    with (String c (a +:+ sep +:+ String d b)).
  rewrite (trimStart_fixed _ _ Wc).
  change (String c (a +:+ sep +:+ String d b))
    with (String c a +:+ (sep +:+ String d b)).
  apply trimEnd_app.
  - destruct sep; reflexivity.
  - now apply trimEnd_app.
Qed.

Lemma join_trimmed sep pieces :
  Forall (fun p => Js.truthy p = true /\ Js.trim p = p) pieces ->
  Js.trim (Js.join sep pieces) = Js.join sep pieces
  /\ (pieces <> [] -> Js.truthy (Js.join sep pieces) = true).
Proof.
  induction 1 as [|p ps [Tp Cp] F IH]; [split; [reflexivity | congruence]|].
  destruct ps as [|q qs].
  - simpl. split; [exact Cp | intros _; exact Tp].
  - destruct IH as [Cj Tj]. specialize (Tj ltac:(discriminate)).
    change (Js.join sep (p :: q :: qs)) with (p +:+ sep +:+ Js.join sep (q :: qs)).
    split.
    + now apply trim_between.
    + intros _. now apply truthy_app.
Qed.

Lemma filtered_texts_trimmed (entries : list Wechat.WechatInboundParams) :
  Forall (fun p => Js.truthy p = true /\ Js.trim p = p)
    (List.filter Js.truthy (map (fun e => trimmedContent (Wechat.msg e)) entries)).
Proof.
  induction entries as [|e r IH]; simpl; [constructor|].
  destruct (Js.truthy (trimmedContent (Wechat.msg e))) eqn:T; [|exact IH].
  constructor; [|exact IH]. split; [exact T|].
  unfold trimmedContent. destruct (content (Wechat.msg e)); [|reflexivity].
  apply trim_idempotent.
Qed.

(** The events the debouncer buffers have text. *)
Lemma shouldDebounce_text core entry :
  Wechat.shouldDebounce core entry = true ->
  Js.truthy (trimmedContent (Wechat.msg entry)) = true.
Proof.
  unfold Wechat.shouldDebounce.
  destruct (Js.truthy (trimmedContent (Wechat.msg entry))); [reflexivity|].
  simpl. discriminate.
Qed.

Lemma buffered_events_have_text core entries :
  entries <> [] ->
  Forall (fun e => Wechat.shouldDebounce core e = true) entries ->
  Exists (fun e => Js.truthy (trimmedContent (Wechat.msg e)) = true) entries.
Proof.
  intros N F. destruct entries as [|e r]; [congruence|].
  apply Exists_cons_hd. apply (shouldDebounce_text core).
  now apply Forall_inv in F.
Qed.

(** C6. A flushed bucket of two or more buffered events (at least one of
    them with text, as buffered events have) is forwarded as one event: its
    text - as stored, and as the inbound path reads it - is the non-empty
    trimmed texts of the events in arrival order, joined by newlines; its
    mentioned flag is true if and only if the flag of
    some buffered event is truthy; every other field is that of the last
    buffered event.  A bucket of exactly one event is forwarded unchanged. *)
Theorem flush_merges_bucket :
  (forall entries : list Wechat.WechatInboundParams,
     2 <= length entries ->
     Exists (fun e => Js.truthy (trimmedContent (Wechat.msg e)) = true) entries ->
     exists lastEntry merged,
       last entries = Some lastEntry
       /\ Wechat.flushed entries = Some merged
       /\ content (Wechat.msg merged)
          = Some (Js.join Js.newline
                    (List.filter Js.truthy
                       (map (fun e => trimmedContent (Wechat.msg e)) entries)))
       /\ trimmedContent (Wechat.msg merged)
          = Js.join Js.newline
              (List.filter Js.truthy
                 (map (fun e => trimmedContent (Wechat.msg e)) entries))
       /\ (isMentioned (Wechat.msg merged) = Some (MentionBool true)
           <-> Exists (fun e => mentionTruthy (isMentioned (Wechat.msg e)) = true) entries)
       /\ (mentionTruthy (isMentioned (Wechat.msg merged)) = true
           <-> Exists (fun e => mentionTruthy (isMentioned (Wechat.msg e)) = true) entries)
       /\ id (Wechat.msg merged) = id (Wechat.msg lastEntry)
       /\ newMsgId (Wechat.msg merged) = newMsgId (Wechat.msg lastEntry)
       /\ msgType (Wechat.msg merged) = msgType (Wechat.msg lastEntry)
       /\ fromUserName (Wechat.msg merged) = fromUserName (Wechat.msg lastEntry)
       /\ toUserName (Wechat.msg merged) = toUserName (Wechat.msg lastEntry)
       /\ isGroupMsg (Wechat.msg merged) = isGroupMsg (Wechat.msg lastEntry)
       /\ actualSender (Wechat.msg merged) = actualSender (Wechat.msg lastEntry)
       /\ createTimeMsg (Wechat.msg merged) = createTimeMsg (Wechat.msg lastEntry)
       /\ senderNickname (Wechat.msg merged) = senderNickname (Wechat.msg lastEntry)
       /\ Wechat.cfg merged = Wechat.cfg lastEntry
       /\ Wechat.account merged = Wechat.account lastEntry
       /\ Wechat.statusSink merged = Wechat.statusSink lastEntry)
  /\ (forall e : Wechat.WechatInboundParams, Wechat.flushed [e] = Some e).
Proof.
  split; [|reflexivity].
  intros entries Hlen Htext.
  destruct (last entries) as [lastEntry|] eqn:L.
  2:{ apply last_None in L. subst entries. simpl in Hlen. lia. }
  assert ((length entries =? 1)%nat = false) as Hne by (apply Nat.eqb_neq; lia).
  destruct (filter_truthy_nonempty (fun e => trimmedContent (Wechat.msg e)) entries Htext)
    as (p & ps & Hf & Hp).
  unfold Wechat.flushed, Wechat.mergeWechatInboundMessages.
  rewrite L, Hne. eexists _, _. split; [reflexivity|]. split; [reflexivity|].
  cbn [Wechat.msg Wechat.cfg Wechat.account Wechat.statusSink
       id newMsgId msgType content fromUserName toUserName isGroupMsg
       isMentioned actualSender createTimeMsg senderNickname].
  assert (Js.orElse
            (Js.join Js.newline
               (List.filter Js.truthy
                  (map (fun e => trimmedContent (Wechat.msg e)) entries)))
            (default "" (content (Wechat.msg lastEntry)))
          = Js.join Js.newline
              (List.filter Js.truthy
                 (map (fun e => trimmedContent (Wechat.msg e)) entries))) as Hc.
  { unfold Js.orElse. rewrite Hf, (join_truthy _ _ _ Hp). reflexivity. }
  split; [now rewrite Hc|].
  split.
  { unfold trimmedContent at 1. cbn [content]. rewrite Hc.
    apply join_trimmed, filtered_texts_trimmed. }
  rewrite <- existsb_Exists.
  destruct (existsb _ entries) eqn:W.
  - repeat split; reflexivity.
  - assert (mentionTruthy (isMentioned (Wechat.msg lastEntry)) = false) as Hl.
    { destruct (mentionTruthy (isMentioned (Wechat.msg lastEntry))) eqn:M; [|reflexivity].
      rewrite <- W. symmetry. apply existsb_exists. exists lastEntry.
      split; [now apply last_In | exact M]. }
    repeat split; try reflexivity; try discriminate.
    + intros E. rewrite E in Hl. discriminate.
    + intros E. congruence.
Qed.

(** The example of the specification: texts ["a"], ["b"], ["c"] give
    ["a\nb\nc"]; the mention of the second event is kept. *)
Lemma flush_merges_bucket_witness :
  exists lastEntry merged,
    last (map (Sample.inbound Sample.allowlistAccount) Sample.burst) = Some lastEntry
    /\ Wechat.flushed (map (Sample.inbound Sample.allowlistAccount) Sample.burst)
       = Some merged
    /\ content (Wechat.msg merged)
       = Some ("a" +:+ Js.newline +:+ "b" +:+ Js.newline +:+ "c")
    /\ isMentioned (Wechat.msg merged) = Some (MentionBool true).
Proof.
  destruct (proj1 flush_merges_bucket
              (map (Sample.inbound Sample.allowlistAccount) Sample.burst))
    as (lastEntry & merged & L & F & C & _ & M & _).
  - simpl. lia.
  - apply Exists_cons_hd. reflexivity.
  - exists lastEntry, merged. repeat split; try assumption.
    apply M. apply Exists_cons_tl, Exists_cons_hd. reflexivity.
Defined.

(** ** Outbound media *)

Lemma spec_of_other_kinds P url hints :
  Media.Spec.kind (Media.resolveMediaSpec P url hints) <> Media.Emoji ->
  Media.Spec.fileName (Media.resolveMediaSpec P url hints)
  = Media.orNullish (Media.Hints.fileName (default Media.Hints.empty hints))
      (Media.orNullish (Media.Meta.fileName (Media.parseMediaUrlMeta P url))
         (Media.inferFileNameFromMediaUrl P url)).
Proof.
  unfold Media.resolveMediaSpec.
  destruct (_ || _); simpl; [congruence | reflexivity].
Qed.

Lemma trimmedOrUndefined_truthy x v :
  Media.trimmedOrUndefined x = Some v -> Js.truthy v = true.
Proof.
  unfold Media.trimmedOrUndefined. destruct x as [w|]; [|discriminate].
  destruct (Js.truthy (Js.trim w)) eqn:T; [|discriminate].
  now intros [= <-].
Qed.

Lemma meta_fileName_truthy P url v :
  Media.Meta.fileName (Media.parseMediaUrlMeta P url) = Some v -> Js.truthy v = true.
Proof.
  unfold Media.parseMediaUrlMeta.
  destruct (negb _); [discriminate|].
  destruct (Js.startsWith _ _).
  - destruct (if Js.includesUnit ":" _ then _ else _). discriminate.
  - destruct (Media.parseURL P _); [|discriminate].
    simpl. apply trimmedOrUndefined_truthy.
Qed.

Lemma inferFileName_truthy P url v :
  (forall segment, Js.truthy segment = true ->
                   Media.decodeURIComponent P segment <> Some "") ->
  Media.inferFileNameFromMediaUrl P url = Some v -> Js.truthy v = true.
Proof.
  intros D. unfold Media.inferFileNameFromMediaUrl.
  destruct (negb _); [discriminate|].
  destruct (Media.parseURL P _).
  - destruct (last _) as [l|]; [|discriminate].
    destruct (Js.truthy l) eqn:T; [|discriminate]. simpl.
    destruct (Media.decodeURIComponent P l) as [d|] eqn:E.
    + intros [= <-]. destruct d; [|reflexivity]. now apply D in E.
    + now intros [= <-].
  - destruct (last _) as [l|]; [|discriminate].
    destruct (Js.truthy l) eqn:T; [|discriminate]. now intros [= <-].
Qed.

(** How a reference comes to be classified as voice: it is no sticker, and
    the hint says voice, or the content type is audio, or - the content type
    being neither audio, video nor image - the extension is an audio one. *)
Lemma voice_classification P url hints :
  let h := default Media.Hints.empty hints in
  let meta := Media.parseMediaUrlMeta P url in
  let typeIs (p : string) :=
    match Js.toLowerCase <$> Media.Hints.contentType h with
    | Some t => Js.startsWith t p
    | None => false
    end in
  Media.Meta.isEmojiScheme meta
  || (Media.present (Media.orNullish (Media.Hints.emojiMd5 h) (Media.Meta.emojiMd5 meta))
      && Media.present (Media.orNullish (Media.Hints.emojiSize h) (Media.Meta.emojiSize meta)))
  = false ->
  (Media.Hints.asVoice h = Some true ->
   Media.Spec.kind (Media.resolveMediaSpec P url hints) = Media.Voice)
  /\ (typeIs "audio/" = true ->
      Media.Spec.kind (Media.resolveMediaSpec P url hints) = Media.Voice)
  /\ (forall ext,
        default false (Media.Hints.asVoice h) = false ->
        typeIs "audio/" = false -> typeIs "video/" = false -> typeIs "image/" = false ->
        Media.getFileExtension P (default url (Media.Hints.fileName h)) = Some ext ->
        In ext Media.AUDIO_EXTS ->
        Media.Spec.kind (Media.resolveMediaSpec P url hints) = Media.Voice).
Proof.
  intros h meta typeIs E. unfold Media.resolveMediaSpec.
  fold h meta. rewrite E. cbn [Media.Spec.kind]. subst typeIs. cbv beta.
  split; [|split].
  - intros ->. reflexivity.
  - intros ->. destruct (default false _); reflexivity.
  - intros ext -> -> -> -> -> Hin.
    assert (Media.has Media.AUDIO_EXTS ext = true) as ->
      by (apply existsb_eqb_In; exact Hin).
    assert (Js.truthy ext = true) as ->.
    { simpl in Hin. repeat (destruct Hin as [<- | Hin]; [reflexivity|]). destruct Hin. }
    reflexivity.
Qed.

Example emoji_reference :
  Media.Spec.kind
    (Media.resolveMediaSpec Sample.platform "emoji://abc123:456" None) = Media.Emoji
  /\ Media.sendWechatMedia Sample.platform "wxid_user" " Emoji:abc123:456 " None None
     = Media.Done [Media.Call (Media.SendEmoji "wxid_user" "abc123" "456");
                   Media.StatusLastOutboundAt]
  /\ Media.sendWechatMedia Sample.platform "  " Sample.songUrl None None
     = Media.Threw Media.TargetRequired.
Proof. repeat split; reflexivity. Qed.

(** C7, as stated, fails: a reference hinted as voice, without a duration and
    with the empty string as its file-name hint, is not sent as a file in
    lenient mode; the send is skipped with a second warning.  And a lenient
    send of an audio reference to a blank destination does raise an error. *)
Lemma nameless_voice_is_skipped :
  Media.Spec.kind
    (Media.resolveMediaSpec Sample.platform Sample.songUrl (Some Sample.namelessVoiceHints))
  = Media.Voice
  /\ Media.Spec.voiceDuration
       (Media.resolveMediaSpec Sample.platform Sample.songUrl
          (Some Sample.namelessVoiceHints))
     = None
  /\ Media.sendWechatMedia Sample.platform "wxid_user" Sample.songUrl
       (Some Sample.namelessVoiceHints) (Some false)
     = Media.Done [Media.Warn Media.VoiceDurationMissing; Media.Warn Media.MissingFileName]
  /\ Media.sendWechatMedia Sample.platform "  " Sample.songUrl
       (Some Sample.audioHints) (Some false)
     = Media.Threw Media.TargetRequired.
Proof. repeat split; reflexivity. Qed.

(** C7, amended.  For a reference classified as voice whose duration is
    unavailable, sent to a destination that is not blank: in lenient mode no
    error is raised; a warning is logged and the reference is sent as a file
    under the name inferred from the hints or from the URL (file-name hint,
    else file-name parameter of the URL, else last path segment, else [file]
    and the extension) - unless that name is empty, as with an empty file-name
    hint, where the send is skipped with a second warning.  In strict mode the
    same call fails with an error. *)
Theorem voice_without_duration
    (P : Media.Platform) (chatId mediaUrl : string) (hints : option Media.Hints.t)
    (target : string) :
  let url := Js.trim mediaUrl in
  let name := inferredFileName P url hints in
  Wechat.requireWechatOutboundTarget (Some chatId) = Some target ->
  Js.truthy url = true ->
  Media.Spec.kind (Media.resolveMediaSpec P url hints) = Media.Voice ->
  Media.Spec.voiceDuration (Media.resolveMediaSpec P url hints) = None ->
  Media.sendWechatMedia P chatId mediaUrl hints (Some true)
  = Media.Threw Media.VoiceDurationRequired
  /\ (forall strict, default false strict = false ->
       Media.sendWechatMedia P chatId mediaUrl hints strict
       = if Js.truthy name
         then Media.Done [Media.Warn Media.VoiceDurationMissing;
                          Media.Call (Media.SendFile target url name);
                          Media.StatusLastOutboundAt]
         else Media.Done [Media.Warn Media.VoiceDurationMissing;
                          Media.Warn Media.MissingFileName])
  /\ ((forall segment, Js.truthy segment = true ->
                       Media.decodeURIComponent P segment <> Some "") ->
      Media.Hints.fileName (default Media.Hints.empty hints) <> Some "" ->
      Js.truthy name = true).
Proof.
  intros url name T U K V. split; [|split].
  - unfold Media.sendWechatMedia. rewrite T. fold url. rewrite U. cbn [negb].
    rewrite K, V. reflexivity.
  - intros strict S. unfold Media.sendWechatMedia. rewrite T. fold url.
    rewrite U. cbn [negb]. rewrite K, V, S.
    unfold Media.fallbackToFile.
    rewrite spec_of_other_kinds by (rewrite K; discriminate).
    assert (match
               Media.orNullish
                 (Media.orNullish (Media.Hints.fileName (default Media.Hints.empty hints))
                    (Media.orNullish (Media.Meta.fileName (Media.parseMediaUrlMeta P url))
                       (Media.inferFileNameFromMediaUrl P url)))
                 (Media.inferFileNameFromMediaUrl P url)
             with
             | Some n => n
             | None =>
                 if Media.present (Media.getFileExtension P url)
                 then "file" +:+ default "" (Media.getFileExtension P url)
                 else "file"
             end = name) as ->.
    { unfold name, inferredFileName, Media.orNullish, Media.present.
      destruct (Media.Hints.fileName _); [reflexivity|].
      destruct (Media.Meta.fileName _); [reflexivity|].
      destruct (Media.inferFileNameFromMediaUrl P url); [reflexivity|].
      destruct (Media.getFileExtension P url) as [e|]; [|reflexivity].
      destruct (Js.truthy e); reflexivity. }
    destruct (Js.truthy name); reflexivity.
  - intros D H. unfold name, inferredFileName.
    destruct (Media.Hints.fileName _) as [n|].
    + destruct n; [congruence | reflexivity].
    + destruct (Media.Meta.fileName _) as [n|] eqn:M.
      * exact (meta_fileName_truthy P url n M).
      * destruct (Media.inferFileNameFromMediaUrl P url) as [n|] eqn:I.
        -- exact (inferFileName_truthy P url n D I).
        -- destruct (Media.getFileExtension P url) as [e|]; [|reflexivity].
           destruct (Js.truthy e); reflexivity.
Qed.

(** The scenario of the specification: content type [audio/mpeg], no
    duration, lenient mode: a file send under the name taken from the URL;
    in strict mode the call fails. *)
Lemma voice_without_duration_witness :
  Media.sendWechatMedia Sample.platform "wx:wxid_user" Sample.songUrl
    (Some Sample.audioHints) None
  = Media.Done [Media.Warn Media.VoiceDurationMissing;
                Media.Call (Media.SendFile "wxid_user" Sample.songUrl "song.mp3");
                Media.StatusLastOutboundAt]
  /\ Media.sendWechatMedia Sample.platform "wx:wxid_user" Sample.songUrl
       (Some Sample.audioHints) (Some true)
     = Media.Threw Media.VoiceDurationRequired.
Proof.
  pose proof (voice_without_duration Sample.platform "wx:wxid_user" Sample.songUrl
                (Some Sample.audioHints) "wxid_user"
                eq_refl eq_refl eq_refl eq_refl) as (S & L & _).
  split; [|exact S].
  exact (L None eq_refl).
Defined.

(** ** The WebSocket client: sending *)

(** C8, as stated, fails: on a client that has never connected, [sendText]
    does not fail a "not connected" condition towards its caller; it logs
    a warning and returns as a successful send does. *)
Lemma sendText_when_closed_returns :
  WebSocket.isConnected (WebSocket.new Sample.options) = false
  /\ WebSocket.sendText "wxid_user" "hi" [] (WebSocket.new Sample.options)
     = (WebSocket.emit (WebSocket.LogWarn WebSocket.NotConnectedSendFailed)
          (WebSocket.new Sample.options),
        WebSocket.Returned).
Proof. split; reflexivity. Qed.

(** C8, amended.  When the socket is not open, every send primitive of the
    client ([send] and, through it, [sendText], [sendImage], [markProcessed],
    [queryContacts]) drops the frame: nothing is written to a socket and
    nothing is buffered - the client is unchanged but for a logged
    "not connected, send failed" warning - and the call returns normally;
    no error reaches the caller. *)
Theorem send_when_not_connected (c : WebSocket.Client) :
  WebSocket.isConnected c = false ->
  (forall f : WebSocket.Frame,
     WebSocket.send f c
     = (WebSocket.emit (WebSocket.LogWarn WebSocket.NotConnectedSendFailed) c,
        WebSocket.Returned))
  /\ (forall toWxid content at_,
       WebSocket.sendText toWxid content at_ c
       = (WebSocket.emit (WebSocket.LogWarn WebSocket.NotConnectedSendFailed) c,
          WebSocket.Returned))
  /\ (forall toWxid imageUrl,
       WebSocket.sendImage toWxid imageUrl c
       = (WebSocket.emit (WebSocket.LogWarn WebSocket.NotConnectedSendFailed) c,
          WebSocket.Returned))
  /\ (forall ids,
       WebSocket.markProcessed ids c
       = (WebSocket.emit (WebSocket.LogWarn WebSocket.NotConnectedSendFailed) c,
          WebSocket.Returned))
  /\ (forall t,
       WebSocket.queryContacts t c
       = (WebSocket.emit (WebSocket.LogWarn WebSocket.NotConnectedSendFailed) c,
          WebSocket.Returned))
  /\ WebSocket.sockets
       (WebSocket.emit (WebSocket.LogWarn WebSocket.NotConnectedSendFailed) c)
     = WebSocket.sockets c.
Proof.
  intros H.
  assert (forall f : WebSocket.Frame,
            WebSocket.send f c
            = (WebSocket.emit (WebSocket.LogWarn WebSocket.NotConnectedSendFailed) c,
               WebSocket.Returned)) as S.
  { intros f. unfold WebSocket.send, WebSocket.isConnected in *.
    destruct (WebSocket.ws c) as [sid|]; [|reflexivity].
    destruct (WebSocket.sockets c !! sid) as [s|]; [|reflexivity].
    destruct (WebSocket.readyState s); try reflexivity. discriminate. }
  repeat split; intros; apply S.
Qed.

Lemma send_when_not_connected_witness :
  WebSocket.sendImage "wxid_user" "http://host/a.png" (WebSocket.new Sample.options)
  = (WebSocket.emit (WebSocket.LogWarn WebSocket.NotConnectedSendFailed)
       (WebSocket.new Sample.options),
     WebSocket.Returned).
Proof.
  apply (send_when_not_connected (WebSocket.new Sample.options)).
  reflexivity.
Defined.

(** An open socket does get the frame. *)
Example sendText_when_open :
  (WebSocket.run [WebSocket.CallConnect; WebSocket.SocketOpens 1;
                  WebSocket.CallSend (WebSocket.SendText "wxid_user" "hi" [])]
     (WebSocket.new Sample.options)
   ≫= fun c => WebSocket.sent <$> (WebSocket.sockets c !! 1))
  = Some [WebSocket.Auth "wxid_robot"; WebSocket.SendText "wxid_user" "hi" []].
Proof. reflexivity. Qed.

(** ** The WebSocket client: reconnect backoff *)

Lemma reconnectDelay_bounds k :
  (WebSocket.reconnectDelay k <= WebSocket.reconnectDelay (S k) <= 30000)%Z.
Proof.
  unfold WebSocket.reconnectDelay.
  assert (2 ^ Z.of_nat k <= 2 ^ Z.of_nat (S k))%Z
    by (apply Z.pow_le_mono_r; lia).
  lia.
Qed.

Lemma reconnectDelay_doubles k :
  (1000 * 2 ^ Z.of_nat (S k) <= 30000)%Z ->
  WebSocket.reconnectDelay (S k) = (2 * WebSocket.reconnectDelay k)%Z.
Proof.
  unfold WebSocket.reconnectDelay. intros H.
  replace (Z.of_nat (S k)) with (Z.succ (Z.of_nat k)) in * by lia.
  rewrite Z.pow_succ_r in * by lia. lia.
Qed.

(** C5, as stated, fails: the first reconnect of a new client (no failed
    attempt so far) is scheduled after 2000 ms, not after the 1000 ms that
    [min(1000 * 2^0, 30000)] and "starts at 1 second" give. *)
Lemma first_reconnect_delay_is_not_one_second :
  WebSocket.reconnectAttempts (WebSocket.new Sample.options) = 0
  /\ WebSocket.scheduledDelay (WebSocket.new Sample.options) = Some 2000%Z
  /\ WebSocket.scheduledDelay (WebSocket.new Sample.options)
     <> Some (Z.min (1000 * 2 ^ 0) 30000).
Proof. repeat split; try reflexivity. vm_compute. discriminate. Qed.

(** C5, amended.  [scheduleReconnect()] first counts the attempt; for the
    attempt number [n] so obtained (1 to 10) it sets one timeout of
    [min(1000 * 2^n, 30000)] ms.  The backoff therefore starts at 2 seconds,
    doubles per attempt while below the cap, is non-decreasing and never
    above 30 seconds; once 10 attempts have been counted, no further
    reconnect is scheduled. *)
Theorem reconnect_backoff (c : WebSocket.Client) :
  let n := S (WebSocket.reconnectAttempts c) in
  (WebSocket.reconnectAttempts c < 10 ->
     WebSocket.scheduledDelay c = Some (Z.min (1000 * 2 ^ Z.of_nat n) 30000)
     /\ WebSocket.reconnectAttempts (WebSocket.scheduleReconnect c) = n
     /\ WebSocket.reconnectTimer (WebSocket.scheduleReconnect c)
        = Some (WebSocket.nextHandle c)
     /\ WebSocket.timers (WebSocket.scheduleReconnect c)
        = <[WebSocket.nextHandle c := Z.min (1000 * 2 ^ Z.of_nat n) 30000]>
            (WebSocket.timers c))
  /\ (10 <= WebSocket.reconnectAttempts c ->
      WebSocket.scheduledDelay c = None
      /\ WebSocket.timers (WebSocket.scheduleReconnect c) = WebSocket.timers c
      /\ WebSocket.reconnectTimer (WebSocket.scheduleReconnect c)
         = WebSocket.reconnectTimer c
      /\ WebSocket.reconnectAttempts (WebSocket.scheduleReconnect c)
         = WebSocket.reconnectAttempts c)
  /\ WebSocket.reconnectDelay 1 = 2000%Z
  /\ (forall k, (WebSocket.reconnectDelay k <= WebSocket.reconnectDelay (S k) <= 30000)%Z)
  /\ (forall k, (1000 * 2 ^ Z.of_nat (S k) <= 30000)%Z ->
                WebSocket.reconnectDelay (S k) = (2 * WebSocket.reconnectDelay k)%Z).
Proof.
  intros n. split; [|split; [|split; [|split]]].
  - intros H.
    assert ((WebSocket.maxReconnectAttempts <=? WebSocket.reconnectAttempts c)%nat = false)
      as E by (apply Nat.leb_gt; unfold WebSocket.maxReconnectAttempts; lia).
    unfold WebSocket.scheduledDelay, WebSocket.scheduleReconnect. rewrite E.
    cbn [WebSocket.timers WebSocket.reconnectAttempts WebSocket.reconnectTimer
         WebSocket.nextHandle WebSocket.emit].
    rewrite lookup_insert_eq. repeat split; reflexivity.
  - intros H.
    assert ((WebSocket.maxReconnectAttempts <=? WebSocket.reconnectAttempts c)%nat = true)
      as E by (apply Nat.leb_le; unfold WebSocket.maxReconnectAttempts; lia).
    unfold WebSocket.scheduledDelay, WebSocket.scheduleReconnect. rewrite E.
    repeat split; reflexivity.
  - reflexivity.
  - apply reconnectDelay_bounds.
  - apply reconnectDelay_doubles.
Qed.

(** The first reconnect of a new client, and a client that has used up its
    attempts. *)
Lemma reconnect_backoff_witness :
  WebSocket.scheduledDelay (WebSocket.new Sample.options) = Some 2000%Z
  /\ (WebSocket.scheduledDelay <$>
        WebSocket.run Sample.tenFailures (WebSocket.new Sample.options))
     = Some None.
Proof.
  split.
  - exact (proj1 (proj1 (reconnect_backoff (WebSocket.new Sample.options))
                    ltac:(simpl; lia))).
  - destruct (WebSocket.run Sample.tenFailures (WebSocket.new Sample.options))
      as [c|] eqn:R; [|vm_compute in R; discriminate].
    simpl. f_equal.
    refine (proj1 (proj1 (proj2 (reconnect_backoff c)) _)).
    assert (WebSocket.reconnectAttempts <$> Some c = Some 10) as A
      by (rewrite <- R; vm_compute; reflexivity).
    injection A as ->. lia.
Defined.

(** Ten failures in a row: the delays that were scheduled, and nothing
    pending after the eleventh close. *)
Example backoff_sequence :
  (Sample.announcedDelays <$>
     WebSocket.run Sample.tenFailures (WebSocket.new Sample.options))
  = Some [2000; 4000; 8000; 16000; 30000; 30000; 30000; 30000; 30000; 30000]%Z
  /\ (WebSocket.pendingTimers <$>
        WebSocket.run Sample.tenFailures (WebSocket.new Sample.options))
     = Some 0.
Proof. split; vm_compute; reflexivity. Qed.

(** ** The WebSocket client: the reconnect timer *)

Import WebSocket.

Lemma tidy_same c c' :
  timers c' = timers c ->
  reconnectTimer c' = reconnectTimer c ->
  (forall k, liveAt c' k = liveAt c k) ->
  tidy c -> tidy c'.
Proof.
  intros T R L [A B C]. split.
  - intros h d. rewrite T, R. apply A.
  - intros h d sid. rewrite T, L. apply B.
  - intros s1 s2. rewrite !L. apply C.
Qed.

Lemma liveAt_insert c sid s k :
  match (<[sid := s]> (sockets c)) !! k with
  | Some s' => live s'
  | None => false
  end = if decide (sid = k) then live s else liveAt c k.
Proof.
  unfold liveAt. destruct (decide (sid = k)) as [->|N].
  - now rewrite lookup_insert_eq.
  - now rewrite lookup_insert_ne.
Qed.

Lemma send_frame f c :
  timers (fst (send f c)) = timers c
  /\ reconnectTimer (fst (send f c)) = reconnectTimer c
  /\ (forall k, liveAt (fst (send f c)) k = liveAt c k).
Proof.
  unfold send.
  destruct (ws c) as [sid|]; [|repeat split].
  destruct (sockets c !! sid) as [s|] eqn:E; [|repeat split].
  destruct (readyState s) eqn:R; try (repeat split).
  intros k. unfold liveAt at 1. cbn [sockets setSockets fst].
  rewrite liveAt_insert. destruct (decide (sid = k)) as [<-|]; [|reflexivity].
  unfold liveAt. rewrite E. unfold live. now rewrite R.
Qed.

Lemma tidy_send f c : tidy c -> tidy (fst (send f c)).
Proof.
  destruct (send_frame f c) as (T & R & L). now apply tidy_same.
Qed.

(** Marking a live socket with another live state changes no liveness. *)
Lemma liveAt_markSocket_live sid r c k :
  liveAt c sid = true -> r <> CLOSED ->
  liveAt (markSocket sid r c) k = liveAt c k.
Proof.
  intros Hl Hr. unfold markSocket.
  destruct (sockets c !! sid) as [s|] eqn:E; [|reflexivity].
  unfold liveAt at 1. cbn [sockets setSockets].
  rewrite liveAt_insert. destruct (decide (sid = k)) as [<-|]; [|reflexivity].
  rewrite Hl. destruct r; try reflexivity. congruence.
Qed.

Lemma liveAt_markSocket_closed sid c k :
  liveAt (markSocket sid CLOSED c) k = if decide (sid = k) then false else liveAt c k.
Proof.
  unfold markSocket.
  destruct (sockets c !! sid) as [s|] eqn:E.
  - unfold liveAt at 1. cbn [sockets setSockets]. now rewrite liveAt_insert.
  - destruct (decide (sid = k)) as [<-|]; [|reflexivity].
    unfold liveAt. now rewrite E.
Qed.

Lemma liveAt_closeSocket sid c k :
  match closeSocket sid (sockets c) !! k with
  | Some s => live s
  | None => false
  end = liveAt c k.
Proof.
  unfold closeSocket.
  destruct (sockets c !! sid) as [s|] eqn:E; [|reflexivity].
  destruct (readyState s) eqn:R; try reflexivity;
    rewrite liveAt_insert; (destruct (decide (sid = k)) as [<-|]; [|reflexivity]);
    unfold liveAt; rewrite E; unfold live; now rewrite R.
Qed.

Lemma socketState_live sid c r :
  socketState sid c = Some r -> r <> CLOSED -> liveAt c sid = true.
Proof.
  unfold socketState, liveAt, live.
  destruct (sockets c !! sid) as [s|]; simpl; [|discriminate].
  intros [= <-]. destruct (readyState s); congruence.
Qed.

Lemma tidy_new o : tidy (new o).
Proof.
  split; simpl.
  - intros h d. now rewrite lookup_empty.
  - intros h d sid. now rewrite lookup_empty.
  - intros s1 s2. unfold liveAt. simpl. now rewrite lookup_empty.
Qed.

(** [connect()] on a client with nothing pending and nothing live. *)
Lemma tidy_connect c :
  (forall h, timers c !! h = None) ->
  (forall k, liveAt c k = false) ->
  tidy (connect c).
Proof.
  intros T L. split.
  - intros h d. cbn. now rewrite T.
  - intros h d sid. cbn. now rewrite T.
  - intros s1 s2. unfold liveAt at 1 2. cbn [sockets connect emit nextHandle].
    rewrite !liveAt_insert.
    destruct (decide (nextHandle c = s1)) as [<-|], (decide (nextHandle c = s2)) as [<-|];
      rewrite ?L; congruence.
Qed.

Lemma idle_spec c :
  idle c = true ->
  (forall h, timers c !! h = None) /\ (forall k, liveAt c k = false).
Proof.
  unfold idle. rewrite andb_true_iff, !bool_decide_eq_true.
  intros [T S]. split.
  - intros h. rewrite T. apply lookup_empty.
  - intros k. unfold liveAt. destruct (sockets c !! k) as [s|] eqn:E; [|reflexivity].
    exact (S k s E).
Qed.

Lemma tidy_disconnect c : tidy c -> tidy (disconnect c).
Proof.
  intros [A B C].
  assert (forall h, timers (disconnect c) !! h = None) as T.
  { intros h. cbn. destruct (reconnectTimer c) as [h0|] eqn:R.
    - destruct (decide (h0 = h)) as [<-|N].
      + apply lookup_delete_eq.
      + rewrite lookup_delete_ne by exact N.
        destruct (timers c !! h) as [d|] eqn:E; [|reflexivity].
        specialize (A h d E). congruence.
    - destruct (timers c !! h) as [d|] eqn:E; [|reflexivity].
      specialize (A h d E). congruence. }
  assert (forall k, liveAt (disconnect c) k = liveAt c k) as L.
  { intros k. unfold liveAt at 1. cbn [sockets disconnect].
    destruct (ws c); [apply liveAt_closeSocket | reflexivity]. }
  split.
  - intros h d. now rewrite T.
  - intros h d sid. now rewrite T.
  - intros s1 s2. rewrite !L. apply C.
Qed.

Lemma tidy_onclose sid c r :
  tidy c -> socketState sid c = Some r -> r <> CLOSED ->
  tidy (onclose (markSocket sid CLOSED c)).
Proof.
  intros [A B C] S Hr.
  pose proof (socketState_live sid c r S Hr) as Hl.
  assert (forall h, timers c !! h = None) as T.
  { intros h. destruct (timers c !! h) as [d|] eqn:E; [|reflexivity].
    specialize (B h d sid E). congruence. }
  assert (forall k, liveAt (markSocket sid CLOSED c) k = false) as L.
  { intros k. rewrite liveAt_markSocket_closed.
    destruct (decide (sid = k)) as [|N]; [reflexivity|].
    destruct (liveAt c k) eqn:E; [|reflexivity].
    exfalso. apply N. now apply C. }
  assert (timers (markSocket sid CLOSED c) = timers c) as Tm.
  { unfold markSocket. destruct (sockets c !! sid); reflexivity. }
  unfold onclose, scheduleReconnect.
  destruct (_ <=? _)%nat.
  - split.
    + intros h d. cbn. rewrite Tm, T. discriminate.
    + intros h d k. cbn. rewrite Tm, T. discriminate.
    + intros s1 s2. unfold liveAt. cbn [sockets emit]. fold (liveAt (markSocket sid CLOSED c) s1).
      now rewrite L.
  - split.
    + intros h d. cbn. rewrite Tm.
      destruct (decide (nextHandle (markSocket sid CLOSED c) = h)) as [<-|N].
      * reflexivity.
      * rewrite lookup_insert_ne by exact N. rewrite T. discriminate.
    + intros h d k _. unfold liveAt. cbn [sockets emit].
      apply L.
    + intros s1 s2. unfold liveAt. cbn [sockets emit].
      fold (liveAt (markSocket sid CLOSED c) s1). now rewrite L.
Qed.

Lemma tidy_timer_fires h c d :
  tidy c -> timers c !! h = Some d -> tidy (connect (clearFired h c)).
Proof.
  intros [A B C] E. apply tidy_connect.
  - intros h'. cbn. destruct (decide (h = h')) as [<-|N].
    + apply lookup_delete_eq.
    + rewrite lookup_delete_ne by exact N.
      destruct (timers c !! h') as [d'|] eqn:E'; [|reflexivity].
      pose proof (A h d E). pose proof (A h' d' E'). congruence.
  - intros k. exact (B h d k E).
Qed.

Lemma tidy_clearFired h c : tidy c -> tidy (clearFired h c).
Proof.
  intros [A B C]. split.
  - intros h' d. cbn [timers reconnectTimer clearFired]. intros E.
    apply lookup_delete_Some in E as [_ E]. exact (A h' d E).
  - intros h' d k. cbn [timers clearFired]. intros E.
    apply lookup_delete_Some in E as [_ E]. exact (B h' d k E).
  - exact C.
Qed.

Lemma tidy_onopen sid c :
  tidy c -> socketState sid c = Some CONNECTING -> tidy (onopen (markSocket sid OPEN c)).
Proof.
  intros H S. unfold onopen. apply tidy_send.
  assert (timers (markSocket sid OPEN c) = timers c
          /\ reconnectTimer (markSocket sid OPEN c) = reconnectTimer c) as [T R].
  { unfold markSocket. destruct (sockets c !! sid); split; reflexivity. }
  apply (tidy_same c); try assumption.
  intros k. unfold liveAt at 1. cbn [sockets emit].
  fold (liveAt (markSocket sid OPEN c) k).
  apply liveAt_markSocket_live; [|discriminate].
  now apply (socketState_live sid c CONNECTING).
Qed.

Lemma tidy_onmessage data b c : tidy c -> tidy (onmessage data b c).
Proof.
  intros H. apply (tidy_same c); try assumption;
    destruct data as [[]| |]; try destruct b; reflexivity.
Qed.

Lemma tidy_onerror c : tidy c -> tidy (onerror c).
Proof. intros H. now apply (tidy_same c). Qed.

Lemma tidy_step a c c' : tidy c -> orderlyStep a c = Some c' -> tidy c'.
Proof.
  intros H. destruct a; simpl.
  - destruct (idle c) eqn:I; [|discriminate]. intros [= <-].
    apply idle_spec in I as [T L]. now apply tidy_connect.
  - intros [= <-]. now apply tidy_disconnect.
  - intros [= <-]. now apply tidy_send.
  - destruct (socketState sid c) as [[]|] eqn:S; try discriminate.
    intros [= <-]. now apply tidy_onopen.
  - destruct (socketState sid c) as [[]|] eqn:S; try discriminate.
    intros [= <-]. now apply tidy_onmessage.
  - destruct (socketState sid c) as [[]|] eqn:S; try discriminate;
      intros [= <-]; now apply tidy_onerror.
  - destruct (socketState sid c) as [r|] eqn:S; [|discriminate].
    destruct r; try discriminate; intros [= <-];
      apply (tidy_onclose sid c _ H S); discriminate.
  - destruct (timers c !! h) as [d|] eqn:E; [|discriminate].
    intros [= <-]. now apply (tidy_timer_fires h c d).
  - destruct (idle c); [|discriminate]. intros [= <-]. now apply (tidy_same c).
  - destruct (timers c !! h) as [d|] eqn:E; [|discriminate].
    intros [= <-]. apply (tidy_same (clearFired h c)); try reflexivity.
    now apply tidy_clearFired.
Qed.

Lemma tidy_run actions c c' : tidy c -> orderlyRun actions c = Some c' -> tidy c'.
Proof.
  revert c. induction actions as [|a rest IH]; intros c H; simpl.
  - intros [= <-]. exact H.
  - destruct (orderlyStep a c) as [c1|] eqn:S; [|discriminate].
    apply IH. now apply (tidy_step a c).
Qed.

Lemma orderly_tidy c : orderly c -> tidy c.
Proof. intros (o & actions & R). exact (tidy_run _ _ _ (tidy_new o) R). Qed.

Lemma tracked_size (m : gmap nat Z) (r : option nat) :
  (forall h d, m !! h = Some d -> r = Some h) -> size m <= 1.
Proof.
  intros A. destruct (map_to_list m) as [|[h d] l] eqn:E.
  - apply map_to_list_empty_iff in E. subst m. rewrite map_size_empty. lia.
  - assert (m = {[h := d]}) as ->; [|rewrite map_size_singleton; lia].
    assert (m !! h = Some d) as Hh.
    { apply elem_of_map_to_list. rewrite E. left. }
    apply map_eq. intros k. destruct (decide (h = k)) as [<-|N].
    + now rewrite lookup_singleton_eq.
    + rewrite lookup_singleton_ne by exact N.
      destruct (m !! k) as [d'|] eqn:Ek; [|reflexivity].
      pose proof (A h d Hh). pose proof (A k d' Ek). congruence.
Qed.

(** C9, as stated, fails: [connect()] leaves a pending reconnect timeout in
    place, and a client whose owner connects while a timeout is pending
    comes to hold two pending timeouts. *)
Lemma connect_keeps_pending_timer :
  (reachable Sample.afterClose
   /\ pendingTimers Sample.afterClose = 1
   /\ pendingTimers (connect Sample.afterClose) = 1)
  /\ (reachable Sample.afterSecondClose
      /\ pendingTimers Sample.afterSecondClose = 2).
Proof.
  split; split.
  - exists Sample.options, [CallConnect; SocketCloses 1]. vm_compute. reflexivity.
  - split; vm_compute; reflexivity.
  - exists Sample.options, Sample.secondClose. vm_compute. reflexivity.
  - vm_compute. reflexivity.
Qed.

(** C9, amended.  [disconnect()] cancels the reconnect timeout that the
    client tracks and forgets it; [connect()] cancels nothing: it leaves the
    pending timeouts and the tracked one as they are.  In every state of a
    client whose owner calls [connect()] only while no timeout is pending and
    no socket is live (as the runtime does: once, on a new client) at most
    one reconnect timeout is pending, and none is when [disconnect()]
    returns. *)
Theorem reconnect_timer_discipline :
  (forall c, orderly c -> pendingTimers c <= 1)
  /\ (forall c, orderly c -> pendingTimers (disconnect c) = 0)
  /\ (forall c,
       reconnectTimer (disconnect c) = None
       /\ timers (disconnect c)
          = match reconnectTimer c with
            | Some h => delete h (timers c)
            | None => timers c
            end)
  /\ (forall c,
       timers (connect c) = timers c
       /\ reconnectTimer (connect c) = reconnectTimer c).
Proof.
  split; [|split; [|split]].
  - intros c H. apply orderly_tidy in H as [A _ _].
    exact (tracked_size _ _ A).
  - intros c H. apply orderly_tidy, tidy_disconnect in H as [A _ _].
    unfold pendingTimers.
    assert (timers (disconnect c) = ∅) as ->; [|apply map_size_empty].
    apply map_empty. intros h.
    destruct (timers (disconnect c) !! h) as [d|] eqn:E; [|reflexivity].
    specialize (A h d E). discriminate.
  - intros c. split; reflexivity.
  - intros c. split; reflexivity.
Qed.

(** After a connection was closed one timeout is pending; [disconnect()]
    cancels it. *)
Lemma reconnect_timer_discipline_witness :
  pendingTimers Sample.afterClose <= 1
  /\ pendingTimers (disconnect Sample.afterClose) = 0.
Proof.
  assert (orderly Sample.afterClose) as H.
  { exists Sample.options, [CallConnect; SocketCloses 1]. vm_compute. reflexivity. }
  split.
  - exact (proj1 reconnect_timer_discipline Sample.afterClose H).
  - exact (proj1 (proj2 reconnect_timer_discipline) Sample.afterClose H).
Defined.

Example afterClose_has_pending_timer :
  pendingTimers Sample.afterClose = 1
  /\ timers Sample.afterClose !! 2 = Some 2000%Z.
Proof. split; vm_compute; reflexivity. Qed.

(** * Further properties *)

(** ** The WebSocket client *)

(** X1. [disconnect()] is idempotent: a second call changes nothing; it
    logs nothing, calls no callback and leaves the client unconnected. *)
Theorem disconnect_idempotent (c : Client) :
  disconnect (disconnect c) = disconnect c
  /\ events (disconnect c) = events c
  /\ isConnected (disconnect c) = false
  /\ reconnectAttempts (disconnect c) = reconnectAttempts c.
Proof. repeat split. Qed.

Lemma socketState_closeSocket sid c r :
  socketState sid c = Some r -> r <> CLOSED ->
  exists r', readyState <$> (closeSocket sid (sockets c) !! sid) = Some r'
             /\ r' <> CLOSED.
Proof.
  unfold socketState, closeSocket. intros H N.
  destruct (sockets c !! sid) as [s|] eqn:E; [|discriminate].
  simpl in H. injection H as H.
  destruct (readyState s) eqn:R; subst r.
  - exists CLOSING. rewrite lookup_insert_eq. split; [reflexivity | discriminate].
  - exists CLOSING. rewrite lookup_insert_eq. split; [reflexivity | discriminate].
  - exists CLOSING. rewrite E. simpl. rewrite R. split; [reflexivity | discriminate].
  - congruence.
Qed.

(** X2. [disconnect()] does not stop the client: the handlers stay on the
    socket it closes, so when the close event of that socket arrives a
    reconnect is scheduled (while attempts are left), and when that timeout
    fires the client connects again. *)
Theorem close_after_disconnect_reconnects (c : Client) (sid : nat) (r : ReadyState) :
  ws c = Some sid ->
  socketState sid c = Some r ->
  r <> CLOSED ->
  reconnectAttempts c < 10 ->
  exists c1 c2,
    run [CallDisconnect; SocketCloses sid] c = Some c1
    /\ reconnectTimer c1 = Some (nextHandle c)
    /\ timers c1 !! nextHandle c = Some (reconnectDelay (S (reconnectAttempts c)))
    /\ run [CallDisconnect; SocketCloses sid; TimerFires (nextHandle c)] c = Some c2
    /\ ws c2 = Some (S (nextHandle c))
    /\ socketState (S (nextHandle c)) c2 = Some CONNECTING.
Proof.
  intros W Hs N A.
  destruct (socketState_closeSocket sid c r Hs N) as (r' & Hs' & N').
  assert (socketState sid (disconnect c) = Some r') as Sd.
  { unfold socketState. cbn [sockets disconnect]. rewrite W. exact Hs'. }
  assert ((maxReconnectAttempts <=? reconnectAttempts c)%nat = false) as M
    by (apply Nat.leb_gt; unfold maxReconnectAttempts; lia).
  assert (nextHandle (markSocket sid CLOSED (disconnect c)) = nextHandle c
          /\ reconnectAttempts (markSocket sid CLOSED (disconnect c)) = reconnectAttempts c)
    as [Hn Ha].
  { unfold markSocket. destruct (sockets (disconnect c) !! sid); split; reflexivity. }
  assert (step (SocketCloses sid) (disconnect c)
          = Some (onclose (markSocket sid CLOSED (disconnect c)))) as St.
  { cbn [step]. rewrite Sd. destruct r'; try reflexivity. congruence. }
  set (c1 := onclose (markSocket sid CLOSED (disconnect c))).
  assert (reconnectTimer c1 = Some (nextHandle c)
          /\ timers c1 !! nextHandle c = Some (reconnectDelay (S (reconnectAttempts c)))
          /\ nextHandle c1 = S (nextHandle c)) as (T1 & T2 & T3).
  { unfold c1, onclose, scheduleReconnect.
    cbn [reconnectAttempts emit]. rewrite Ha, M.
    cbn [reconnectTimer timers nextHandle emit]. rewrite Hn.
    rewrite lookup_insert_eq. repeat split. }
  assert (forall rest, run (CallDisconnect :: SocketCloses sid :: rest) c = run rest c1)
    as Rn.
  { intros rest. change (run (CallDisconnect :: SocketCloses sid :: rest) c)
      with (match step (SocketCloses sid) (disconnect c) with
            | Some c' => run rest c'
            | None => None
            end).
    now rewrite St. }
  exists c1, (connect (clearFired (nextHandle c) c1)).
  rewrite !Rn. repeat split; try assumption.
  - cbn [run step]. rewrite T2. reflexivity.
  - cbn. now rewrite T3.
  - unfold socketState. cbn [sockets connect emit nextHandle clearFired].
    rewrite T3. rewrite lookup_insert_eq. reflexivity.
Qed.

Lemma close_after_disconnect_reconnects_witness :
  exists c1 c2,
    run [CallDisconnect; SocketCloses 1] Cases.connected = Some c1
    /\ reconnectTimer c1 = Some (nextHandle Cases.connected)
    /\ timers c1 !! nextHandle Cases.connected
       = Some (reconnectDelay (S (reconnectAttempts Cases.connected)))
    /\ run [CallDisconnect; SocketCloses 1; TimerFires (nextHandle Cases.connected)]
         Cases.connected = Some c2
    /\ ws c2 = Some (S (nextHandle Cases.connected))
    /\ socketState (S (nextHandle Cases.connected)) c2 = Some CONNECTING.
Proof.
  apply (close_after_disconnect_reconnects Cases.connected 1 OPEN).
  - vm_compute. reflexivity.
  - vm_compute. reflexivity.
  - discriminate.
  - vm_compute. lia.
Defined.

Lemma attempts_send f c : reconnectAttempts (fst (send f c)) = reconnectAttempts c.
Proof.
  unfold send. destruct (ws c); [|reflexivity].
  destruct (sockets c !! _) as [s|]; [|reflexivity].
  destruct (readyState s); reflexivity.
Qed.

Lemma attempts_markSocket sid r c :
  reconnectAttempts (markSocket sid r c) = reconnectAttempts c.
Proof. unfold markSocket. destruct (sockets c !! sid); reflexivity. Qed.

Lemma attempts_onmessage data b c :
  reconnectAttempts (onmessage data b c) = reconnectAttempts c.
Proof. destruct data as [[]| |]; try destruct b; reflexivity. Qed.

Lemma attempts_scheduleReconnect c :
  reconnectAttempts (scheduleReconnect c)
  = if (10 <=? reconnectAttempts c)%nat then reconnectAttempts c
    else S (reconnectAttempts c).
Proof.
  unfold scheduleReconnect, maxReconnectAttempts.
  destruct (10 <=? reconnectAttempts c)%nat; reflexivity.
Qed.

Lemma attempts_step a c c' :
  step a c = Some c' ->
  match a with
  | SocketOpens _ => reconnectAttempts c' = 0
  | SocketCloses _ =>
      reconnectAttempts c'
      = if (10 <=? reconnectAttempts c)%nat then reconnectAttempts c
        else S (reconnectAttempts c)
  | _ => reconnectAttempts c' = reconnectAttempts c
  end.
Proof.
  destruct a; cbn [step].
  - now intros [= <-].
  - now intros [= <-].
  - intros [= <-]. apply attempts_send.
  - destruct (socketState sid c) as [[]|]; try discriminate.
    intros [= <-]. unfold onopen. now rewrite attempts_send.
  - destruct (socketState sid c) as [[]|]; try discriminate.
    intros [= <-]. apply attempts_onmessage.
  - destruct (socketState sid c) as [[]|]; try discriminate; now intros [= <-].
  - destruct (socketState sid c) as [[]|]; try discriminate;
      intros [= <-]; unfold onclose; rewrite attempts_scheduleReconnect;
      cbn [reconnectAttempts emit]; now rewrite attempts_markSocket.
  - destruct (timers c !! h); [|discriminate]. now intros [= <-].
  - now intros [= <-].
  - destruct (timers c !! h); [|discriminate]. now intros [= <-].
Qed.

Lemma attempts_run actions c c' :
  reconnectAttempts c <= 10 -> run actions c = Some c' -> reconnectAttempts c' <= 10.
Proof.
  revert c. induction actions as [|a rest IH]; intros c H; cbn [run].
  - now intros [= <-].
  - destruct (step a c) as [c1|] eqn:E; [|discriminate].
    apply IH. apply attempts_step in E.
    destruct a; try lia.
    destruct (10 <=? reconnectAttempts c)%nat eqn:L; [lia|].
    apply Nat.leb_gt in L. lia.
Qed.

(** X3. The attempt counter is reset only by the open event of a socket; a
    close event counts one attempt while fewer than 10 are counted; nothing
    else changes it - in particular neither [connect()] nor [disconnect()]
    resets it - and it never exceeds 10. *)
Theorem attempt_counter :
  (forall a c c', step a c = Some c' ->
     match a with
     | SocketOpens _ => reconnectAttempts c' = 0
     | SocketCloses _ =>
         reconnectAttempts c'
         = if (10 <=? reconnectAttempts c)%nat then reconnectAttempts c
           else S (reconnectAttempts c)
     | _ => reconnectAttempts c' = reconnectAttempts c
     end)
  /\ (forall c, reachable c -> reconnectAttempts c <= 10).
Proof.
  split.
  - exact attempts_step.
  - intros c (o & actions & R).
    apply (attempts_run actions (new o)); [simpl; lia | exact R].
Qed.

Lemma attempt_counter_witness :
  reconnectAttempts Sample.afterSecondClose <= 10
  /\ reconnectAttempts (disconnect Sample.afterSecondClose)
     = reconnectAttempts Sample.afterSecondClose.
Proof.
  split.
  - apply (proj2 attempt_counter). exists Sample.options, Sample.secondClose.
    vm_compute. reflexivity.
  - exact (proj1 attempt_counter CallDisconnect Sample.afterSecondClose
             (disconnect Sample.afterSecondClose) eq_refl).
Defined.

(** The frames on sockets. *)

Lemma authenticated_same c c' :
  sockets c' = sockets c -> ws c' = ws c -> robotWxid c' = robotWxid c ->
  authenticated c -> authenticated c'.
Proof.
  intros Hs Hw Hr [A B C]. split.
  - intros sid s. rewrite Hs. apply A.
  - intros sid s. rewrite Hs, Hr. apply B.
  - intros sid s. rewrite Hs, Hw. apply C.
Qed.

Lemma authenticated_new o : authenticated (new o).
Proof.
  split; intros sid s; cbn; rewrite lookup_empty; discriminate.
Qed.

Lemma authenticated_connect c : authenticated c -> authenticated (connect c).
Proof.
  intros [A B C]. split; intros sid s; cbn [sockets ws robotWxid connect emit nextHandle].
  - destruct (decide (nextHandle c = sid)) as [<-|N].
    + rewrite lookup_insert_eq. now intros [= <-].
    + rewrite lookup_insert_ne by exact N. apply A.
  - destruct (decide (nextHandle c = sid)) as [<-|N].
    + rewrite lookup_insert_eq. intros [= <-]. now left.
    + rewrite lookup_insert_ne by exact N. apply B.
  - intros [= <-]. rewrite lookup_insert_eq. intros [= <-]. discriminate.
Qed.

Lemma closeSocket_lookup sid ss k s :
  closeSocket sid ss !! k = Some s ->
  exists s0, ss !! k = Some s0 /\ sent s = sent s0
             /\ (readyState s = CONNECTING -> readyState s0 = CONNECTING).
Proof.
  unfold closeSocket. destruct (ss !! sid) as [s1|] eqn:E; [|eauto].
  destruct (readyState s1) eqn:R; eauto;
    (destruct (decide (sid = k)) as [<-|N];
     [rewrite lookup_insert_eq; intros [= <-]; exists s1;
      repeat split; [exact E | discriminate]
     |rewrite lookup_insert_ne by exact N; eauto]).
Qed.

Lemma authenticated_disconnect c : authenticated c -> authenticated (disconnect c).
Proof.
  intros [A B C]. split; intros sid s; cbn [sockets ws robotWxid disconnect].
  - destruct (ws c) as [w|].
    + intros H. apply closeSocket_lookup in H as (s0 & E & Hs & Hr).
      intros R. rewrite Hs. apply (A sid s0 E). now apply Hr.
    + apply A.
  - destruct (ws c) as [w|].
    + intros H. apply closeSocket_lookup in H as (s0 & E & Hs & _).
      rewrite Hs. apply (B sid s0 E).
    + apply B.
  - discriminate.
Qed.

Lemma markSocket_lookup sid r c k s :
  sockets (markSocket sid r c) !! k = Some s ->
  exists s0, sockets c !! k = Some s0 /\ sent s = sent s0
             /\ (k <> sid -> s = s0) /\ (k = sid -> readyState s = r).
Proof.
  unfold markSocket. destruct (sockets c !! sid) as [s1|] eqn:E.
  - cbn [sockets setSockets]. destruct (decide (sid = k)) as [<-|N].
    + rewrite lookup_insert_eq. intros [= <-]. exists s1.
      repeat split; [exact E | congruence].
    + rewrite lookup_insert_ne by exact N. intros H. exists s.
      repeat split; [exact H | congruence].
  - intros H. exists s. repeat split; [exact H | congruence].
Qed.

Lemma markSocket_fields sid r c :
  ws (markSocket sid r c) = ws c /\ robotWxid (markSocket sid r c) = robotWxid c.
Proof. unfold markSocket. destruct (sockets c !! sid); split; reflexivity. Qed.

Lemma authenticated_closed sid c :
  authenticated c -> authenticated (markSocket sid CLOSED c).
Proof.
  intros [A B C]. destruct (markSocket_fields sid CLOSED c) as [Hw Hr].
  split; intros k s.
  - intros H R. apply markSocket_lookup in H as (s0 & E & Hs & Hne & He).
    destruct (decide (k = sid)) as [->|N].
    + rewrite He in R by reflexivity. discriminate.
    + rewrite (Hne N) in *. now apply (A k s0).
  - rewrite Hr. intros H. apply markSocket_lookup in H as (s0 & E & Hs & _).
    rewrite Hs. apply (B k s0 E).
  - rewrite Hw. intros W H R. apply markSocket_lookup in H as (s0 & E & Hs & Hne & He).
    destruct (decide (k = sid)) as [->|N].
    + rewrite He in R by reflexivity. discriminate.
    + rewrite (Hne N) in *. now apply (C k s0).
Qed.

(** Writing a frame keeps the frames in order, provided it is the
    authentication frame or the current socket has been written to. *)
Lemma authenticated_send f c :
  (forall sid s, sockets c !! sid = Some s -> readyState s = CONNECTING -> sent s = []) ->
  (forall sid s, sockets c !! sid = Some s ->
                 sent s = [] \/ exists rest, sent s = Auth (robotWxid c) :: rest) ->
  (f = Auth (robotWxid c)
   \/ forall sid s, ws c = Some sid -> sockets c !! sid = Some s ->
                    readyState s = OPEN -> sent s <> []) ->
  authenticated (fst (send f c)).
Proof.
  intros A B C. unfold send.
  destruct (ws c) as [w|] eqn:W.
  2:{ split; cbn; [exact A | exact B |].
      intros sid s. rewrite W. discriminate. }
  destruct (sockets c !! w) as [s0|] eqn:E.
  2:{ split; cbn; [exact A | exact B |].
      intros sid s. rewrite W. intros [= <-]. rewrite E. discriminate. }
  destruct (readyState s0) eqn:R;
    try (split; cbn; [exact A | exact B |];
         intros sid s; rewrite W; intros [= <-]; rewrite E; intros [= <-];
         rewrite R; discriminate).
  split; intros sid s; cbn [fst sockets ws robotWxid setSockets].
  - destruct (decide (w = sid)) as [<-|N].
    + rewrite lookup_insert_eq. intros [= <-]. discriminate.
    + rewrite lookup_insert_ne by exact N. apply A.
  - destruct (decide (w = sid)) as [<-|N].
    + rewrite lookup_insert_eq. intros [= <-]. cbn [sent]. right.
      destruct (B w s0 E) as [H | (rest & H)].
      * destruct C as [-> | C].
        -- exists []. now rewrite H.
        -- exfalso. now apply (C w s0).
      * exists (rest ++ [f])%list. now rewrite H.
    + rewrite lookup_insert_ne by exact N. apply B.
  - rewrite W. intros [= <-]. rewrite lookup_insert_eq. intros [= <-] _.
    cbn [sent]. now destruct (sent s0).
Qed.

Lemma authenticated_onopen sid c :
  authenticated c -> authenticated (onopen (markSocket sid OPEN c)).
Proof.
  intros [A B C]. destruct (markSocket_fields sid OPEN c) as [Hw Hr].
  unfold onopen. apply authenticated_send.
  - intros k s. cbn [sockets emit]. intros H R.
    apply markSocket_lookup in H as (s0 & E & Hs & Hne & He).
    destruct (decide (k = sid)) as [->|N].
    + rewrite He in R by reflexivity. discriminate.
    + rewrite (Hne N) in *. now apply (A k s0).
  - intros k s. cbn [sockets robotWxid emit]. rewrite Hr. intros H.
    apply markSocket_lookup in H as (s0 & E & Hs & _).
    rewrite Hs. apply (B k s0 E).
  - left. reflexivity.
Qed.

Lemma authenticated_step a c c' : authenticated c -> step a c = Some c' -> authenticated c'.
Proof.
  intros H. destruct a; cbn [step].
  - intros [= <-]. now apply authenticated_connect.
  - intros [= <-]. now apply authenticated_disconnect.
  - intros [= <-]. destruct H as [A B C]. apply authenticated_send; auto.
  - destruct (socketState sid c) as [[]|]; try discriminate.
    intros [= <-]. now apply authenticated_onopen.
  - destruct (socketState sid c) as [[]|]; try discriminate.
    intros [= <-]. apply (authenticated_same c); try assumption;
      destruct data as [[]| |]; try destruct callbackThrows; reflexivity.
  - destruct (socketState sid c) as [[]|]; try discriminate;
      intros [= <-]; now apply (authenticated_same c).
  - assert (authenticated (onclose (markSocket sid CLOSED c))) as K.
    { apply (authenticated_same (markSocket sid CLOSED c));
        [| | |now apply authenticated_closed];
        unfold onclose, scheduleReconnect; destruct (_ <=? _)%nat; reflexivity. }
    destruct (socketState sid c) as [[]|]; try discriminate; now intros [= <-].
  - destruct (timers c !! h); [|discriminate]. intros [= <-].
    apply authenticated_connect. now apply (authenticated_same c).
  - intros [= <-]. now apply (authenticated_same c).
  - destruct (timers c !! h); [|discriminate]. intros [= <-].
    now apply (authenticated_same c).
Qed.

Lemma authenticated_run actions c c' :
  authenticated c -> run actions c = Some c' -> authenticated c'.
Proof.
  revert c. induction actions as [|a rest IH]; intros c H; cbn [run].
  - now intros [= <-].
  - destruct (step a c) as [c1|] eqn:E; [|discriminate].
    apply IH. now apply (authenticated_step a c).
Qed.

(** X4. In every reachable state of the client, whatever its owner calls
    and in whatever order the events arrive: no frame is written to a socket
    that has not opened, and the first frame written to a socket is the
    authentication frame of the robot. *)
Theorem auth_frame_comes_first (c : Client) (sid : nat) (s : Socket) :
  reachable c ->
  sockets c !! sid = Some s ->
  (readyState s = CONNECTING -> sent s = [])
  /\ (sent s = [] \/ exists rest, sent s = Auth (robotWxid c) :: rest).
Proof.
  intros (o & actions & R) E.
  destruct (authenticated_run actions (new o) c (authenticated_new o) R) as [A B _].
  split; [exact (A sid s E) | exact (B sid s E)].
Qed.

Lemma auth_frame_comes_first_witness :
  exists s, sockets Cases.connected !! 1 = Some s
            /\ (sent s = [] \/ exists rest, sent s = Auth (robotWxid Cases.connected) :: rest).
Proof.
  destruct (sockets Cases.connected !! 1) as [s|] eqn:E;
    [|vm_compute in E; discriminate].
  exists s. split; [reflexivity|].
  apply (auth_frame_comes_first Cases.connected 1 s); [|exact E].
  exists Sample.options, [CallConnect; SocketOpens 1]. vm_compute. reflexivity.
Defined.


(** A client whose base URL has no scheme is refused by the constructor on
    its first [connect()]: it has no socket, and no reconnect is under
    way. *)
Example refused_connect :
  run [CallConnectRefused] (new Cases.schemelessOptions)
  = Some (emit (LogInfo (Connecting "localhost:8080/ws/robot/wxid_robot"))
            (new Cases.schemelessOptions))
  /\ (forall c, run [CallConnectRefused] (new Cases.schemelessOptions) = Some c ->
                ws c = None /\ sockets c = ∅ /\ timers c = ∅).
Proof.
  split; [vm_compute; reflexivity|].
  intros c [= <-]. repeat split.
Qed.

Lemma send_connected f c :
  isConnected c = true ->
  send f c = (fst (send f c), Returned)
  /\ isConnected (fst (send f c)) = true
  /\ sentOnCurrent (fst (send f c)) = (sentOnCurrent c ++ [f])%list
  /\ events (fst (send f c)) = events c
  /\ timers (fst (send f c)) = timers c.
Proof.
  unfold isConnected, send, sentOnCurrent.
  destruct (ws c) as [w|] eqn:W; [|discriminate].
  destruct (sockets c !! w) as [s|] eqn:E; [|discriminate].
  destruct (readyState s) eqn:R; try discriminate. intros _.
  cbn [fst ws sockets setSockets events timers]. rewrite W, lookup_insert_eq.
  repeat split.
Qed.

(** X6. On a connected client a send writes exactly its frame, after the
    frames written before, and returns; the client stays connected, so
    frames sent one after the other are on the wire in the order of the
    calls.  Nothing is logged. *)
Theorem send_when_connected (c : Client) (f g : Frame) :
  isConnected c = true ->
  snd (send f c) = Returned
  /\ isConnected (fst (send f c)) = true
  /\ sentOnCurrent (fst (send f c)) = (sentOnCurrent c ++ [f])%list
  /\ events (fst (send f c)) = events c
  /\ sentOnCurrent (fst (send g (fst (send f c)))) = (sentOnCurrent c ++ [f; g])%list.
Proof.
  intros H. destruct (send_connected f c H) as (E & I & S1 & Ev & _).
  destruct (send_connected g _ I) as (_ & _ & S2 & _ & _).
  repeat split; try assumption.
  - now rewrite E.
  - rewrite S2, S1, <- app_assoc. reflexivity.
Qed.

Lemma send_when_connected_witness :
  sentOnCurrent
    (fst (send (SendImage "wxid_user" "http://host/a.png")
            (fst (send (SendText "wxid_user" "hi" []) Cases.connected))))
  = (sentOnCurrent Cases.connected
     ++ [SendText "wxid_user" "hi" []; SendImage "wxid_user" "http://host/a.png"])%list.
Proof.
  apply (send_when_connected Cases.connected). vm_compute. reflexivity.
Defined.

(** X7. A frame from the server never changes the connection: sockets,
    timeouts, the tracked timer and the attempt counter stay as they are.
    Only [message] and [error] frames reach a callback; [ping], [auth],
    [send_result], unknown and malformed frames are logged and dropped. *)
Theorem server_frames_keep_connection (data : Incoming) (rejects : bool) (c : Client) :
  sockets (onmessage data rejects c) = sockets c
  /\ timers (onmessage data rejects c) = timers c
  /\ ws (onmessage data rejects c) = ws c
  /\ reconnectTimer (onmessage data rejects c) = reconnectTimer c
  /\ reconnectAttempts (onmessage data rejects c) = reconnectAttempts c
  /\ isConnected (onmessage data rejects c) = isConnected c
  /\ List.filter isCallback (events (onmessage data rejects c))
     = (match data with
        | Parsed (MsgMessage m) => [OnMessage m]
        | Parsed (MsgError message) => [OnError (ServerSaid message)]
        | _ => []
        end ++ List.filter isCallback (events c))%list.
Proof.
  destruct data as [[]| |]; try destruct rejects; repeat split.
Qed.

Lemma replaceFirst_absent pat rep s :
  includesText pat s = false -> replaceFirst pat rep s = s.
Proof.
  induction s as [|ch r IH]; cbn [includesText replaceFirst].
  - destruct (Js.stripPrefix pat ""); [discriminate | reflexivity].
  - destruct (Js.stripPrefix pat (String ch r)); [discriminate|].
    intros H. now rewrite IH.
Qed.

(** X8. The address of the socket: a base URL that starts with [http://]
    is turned into a [ws://] one, one that starts with [https://] into a
    [wss://] one, and one that holds neither text (a [ws://] or [wss://]
    URL) is taken as it is; the path [/ws/robot/] and the robot's id are
    appended.  The first [https://] (or [http://]) further inside the URL is
    rewritten as well. *)
Theorem socket_url_scheme (c : Client) :
  (forall rest, baseUrl (options c) = "http://" +:+ rest ->
     socketUrl c
     = "ws://" +:+ replaceFirst "https://" "wss://" rest
       +:+ "/ws/robot/" +:+ robotWxid c)
  /\ (forall rest, baseUrl (options c) = "https://" +:+ rest ->
       socketUrl c
       = "wss://" +:+ replaceFirst "http://" "ws://" rest
         +:+ "/ws/robot/" +:+ robotWxid c)
  /\ (includesText "http://" (baseUrl (options c)) = false ->
      includesText "https://" (baseUrl (options c)) = false ->
      socketUrl c = baseUrl (options c) +:+ "/ws/robot/" +:+ robotWxid c).
Proof.
  unfold socketUrl. split; [|split].
  - intros rest ->. reflexivity.
  - intros rest ->. reflexivity.
  - intros H1 H2. now rewrite (replaceFirst_absent _ _ _ H1), (replaceFirst_absent _ _ _ H2).
Qed.

Lemma socket_url_scheme_witness :
  socketUrl (new Sample.options) = "ws://localhost:8080/ws/robot/wxid_robot"
  /\ socketUrl (new {| baseUrl := "ws://localhost:8080"; optRobotWxid := "wxid_robot" |})
     = "ws://localhost:8080/ws/robot/wxid_robot".
Proof.
  split.
  - exact (proj1 (socket_url_scheme (new Sample.options)) "localhost:8080" eq_refl).
  - exact (proj2 (proj2 (socket_url_scheme
                           (new {| baseUrl := "ws://localhost:8080";
                                   optRobotWxid := "wxid_robot" |})))
             eq_refl eq_refl).
Defined.

(** ** Allow lists *)

Lemma lower_whitespace c : Js.isWhiteSpace (Js.toLowerCaseUnit c) = Js.isWhiteSpace c.
Proof. destruct c as [[] [] [] [] [] [] [] []]; vm_compute; reflexivity. Qed.

Lemma lower_unit_idempotent c :
  Js.toLowerCaseUnit (Js.toLowerCaseUnit c) = Js.toLowerCaseUnit c.
Proof. destruct c as [[] [] [] [] [] [] [] []]; vm_compute; reflexivity. Qed.

Lemma lower_unit_star c : Js.toLowerCaseUnit c = "*"%char -> c = "*"%char.
Proof. destruct c as [[] [] [] [] [] [] [] []]; vm_compute; congruence. Qed.

Lemma lower_idempotent s : Js.toLowerCase (Js.toLowerCase s) = Js.toLowerCase s.
Proof.
  induction s as [|c r IH]; cbn [Js.toLowerCase]; [reflexivity|].
  now rewrite lower_unit_idempotent, IH.
Qed.

Lemma lower_star s : Js.toLowerCase s = "*" -> s = "*".
Proof.
  destruct s as [|c [|d r]]; cbn [Js.toLowerCase]; try discriminate.
  intros [= H]. now rewrite (lower_unit_star c H).
Qed.

Lemma lower_trimStart s : Js.trimStart (Js.toLowerCase s) = Js.toLowerCase (Js.trimStart s).
Proof.
  induction s as [|c r IH]; cbn [Js.toLowerCase Js.trimStart]; [reflexivity|].
  rewrite lower_whitespace. destruct (Js.isWhiteSpace c); [exact IH | reflexivity].
Qed.

Lemma lower_trimEnd s : Js.trimEnd (Js.toLowerCase s) = Js.toLowerCase (Js.trimEnd s).
Proof.
  induction s as [|c r IH]; cbn [Js.toLowerCase Js.trimEnd]; [reflexivity|].
  rewrite IH, lower_whitespace.
  destruct (Js.trimEnd r); cbn [Js.toLowerCase]; [|reflexivity].
  destruct (Js.isWhiteSpace c); reflexivity.
Qed.

Lemma lower_trim s : Js.trim (Js.toLowerCase s) = Js.toLowerCase (Js.trim s).
Proof. unfold Js.trim. now rewrite lower_trimStart, lower_trimEnd. Qed.

Lemma lower_stripPrefix p s :
  Js.stripPrefixIgnoreCase p (Js.toLowerCase s)
  = Js.toLowerCase <$> Js.stripPrefixIgnoreCase p s.
Proof.
  revert s. induction p as [|a p IH]; intros s; [reflexivity|].
  destruct s as [|b s]; [reflexivity|].
  cbn [Js.stripPrefixIgnoreCase Js.toLowerCase]. rewrite lower_unit_idempotent.
  destruct (Ascii.eqb _ _); [apply IH | reflexivity].
Qed.

Lemma lower_replaceSchemePrefix schemes s :
  Js.replaceSchemePrefix schemes (Js.toLowerCase s)
  = Js.toLowerCase (Js.replaceSchemePrefix schemes s).
Proof.
  induction schemes as [|p ps IH]; cbn [Js.replaceSchemePrefix]; [reflexivity|].
  rewrite lower_stripPrefix.
  destruct (Js.stripPrefixIgnoreCase _ s); [reflexivity | exact IH].
Qed.

Lemma normalize_lower schemes s : normalize schemes (Js.toLowerCase s) = normalize schemes s.
Proof.
  unfold normalize.
  now rewrite lower_trim, lower_replaceSchemePrefix, lower_idempotent.
Qed.

(** X9. Allow-list matching does not look at the case of letters: two
    sender ids that differ only in case get the same decision from every
    allow list, and lower-casing the entries of a list changes no
    decision. *)
Theorem isSenderAllowed_ignores_case (s s' : string) (L : list string) :
  Js.toLowerCase s = Js.toLowerCase s' ->
  Wechat.isSenderAllowed s' L = Wechat.isSenderAllowed s L
  /\ Wechat.isSenderAllowed s (map Js.toLowerCase L) = Wechat.isSenderAllowed s L.
Proof.
  intros E.
  assert (normalize Wechat.schemes s' = normalize Wechat.schemes s) as N.
  { rewrite <- (normalize_lower _ s'), <- E. apply normalize_lower. }
  unfold Wechat.isSenderAllowed. split; apply eq_true_iff_eq;
    rewrite !isSenderAllowed_normalize.
  - now rewrite N.
  - rewrite in_map_iff. split.
    + intros [(x & Hx & Hin) | (x & Hx & Hn)].
      * left. now rewrite <- (lower_star x Hx).
      * apply in_map_iff in Hx as (y & <- & Hy). right. exists y.
        split; [exact Hy|]. now rewrite <- normalize_lower.
    + intros [H | (y & Hy & Hn)].
      * left. exists "*". split; [reflexivity | exact H].
      * right. exists (Js.toLowerCase y). split.
        -- apply in_map_iff. now exists y.
        -- now rewrite normalize_lower.
Qed.

Lemma isSenderAllowed_ignores_case_witness :
  Wechat.isSenderAllowed "wxid_abc" ["WXID_ABC"]
  = Wechat.isSenderAllowed "WxId_Abc" ["WXID_ABC"]
  /\ Wechat.isSenderAllowed "WxId_Abc" ["WXID_ABC"] = true.
Proof.
  split; [|reflexivity].
  exact (proj1 (isSenderAllowed_ignores_case "WxId_Abc" "wxid_abc" ["WXID_ABC"] eq_refl)).
Defined.

Lemma normalize_entry schemes x :
  Js.toLowerCase (Shared.normalizeAllowEntry schemes x) = normalize schemes x.
Proof. unfold normalize. now rewrite normalizeAllowEntry_strip. Qed.

(** X10. The list that [formatAllowFrom] shows is the list that decides: a
    sender whose normalised id is not empty is allowed by a list if and only
    if the list holds the literal ["*"] or the formatted list holds the
    normalised id of the sender. *)
Theorem formatAllowFrom_decides (s : string) (L : list string) :
  Js.truthy (normalize Wechat.schemes s) = true ->
  (Wechat.isSenderAllowed s L = true <->
   In "*" L \/ In (normalize Wechat.schemes s) (Channel.formatAllowFrom L)).
Proof.
  intros T. unfold Wechat.isSenderAllowed, Channel.formatAllowFrom.
  rewrite isSenderAllowed_normalize, filter_In, map_map, in_map_iff.
  unfold Wechat.normalizeAllowEntry. split.
  - intros [H | (x & Hx & E)]; [now left|]. right.
    split; [|exact T]. exists x. split; [|exact Hx].
    now rewrite normalize_entry.
  - intros [H | ((x & E & Hx) & _)]; [now left|]. right.
    exists x. split; [exact Hx|]. now rewrite <- normalize_entry.
Qed.

Lemma formatAllowFrom_decides_witness :
  Wechat.isSenderAllowed " WX:Wxid_A " ["wechat:WXID_A"; "  "] = true
  <-> In "*" ["wechat:WXID_A"; "  "]
      \/ In (normalize Wechat.schemes " WX:Wxid_A ")
           (Channel.formatAllowFrom ["wechat:WXID_A"; "  "]).
Proof.
  apply (formatAllowFrom_decides " WX:Wxid_A " ["wechat:WXID_A"; "  "]).
  reflexivity.
Defined.

(** X11. An outbound destination is normalised exactly as an allow-list
    entry is (trimmed, channel prefix stripped once), and it is refused if
    and only if nothing is left: for a blank id, and for an id that is only
    a channel prefix. *)
Theorem outbound_target_normalised (raw : string) :
  Wechat.requireWechatOutboundTarget (Some raw)
  = if Js.truthy (Wechat.normalizeAllowEntry raw)
    then Some (Wechat.normalizeAllowEntry raw) else None.
Proof.
  unfold Wechat.normalizeAllowEntry. rewrite normalizeAllowEntry_strip.
  unfold Wechat.requireWechatOutboundTarget, Wechat.resolveWechatOutboundTarget,
    Wechat.normalizeWechatTarget, Shared.normalizeTarget.
  cbn [fmap option_fmap option_map].
  destruct (Js.truthy (Js.trim raw)) eqn:T.
  - rewrite trim_idempotent, T.
    destruct (Js.truthy (Js.replaceSchemePrefix Wechat.schemes (Js.trim raw)));
      reflexivity.
  - rewrite (truthy_false _ T), replaceSchemePrefix_empty. reflexivity.
Qed.

Example outbound_target_examples :
  Wechat.requireWechatOutboundTarget (Some " wx:wxid_A ") = Some "wxid_A"
  /\ Wechat.requireWechatOutboundTarget (Some "wechat:") = None
  /\ Wechat.requireWechatOutboundTarget (Some "   ") = None
  /\ Wechat.requireWechatOutboundTarget None = None.
Proof. repeat split; reflexivity. Qed.

(** X12. What [normalizeAllowFromEntries] returns holds no empty and no
    untrimmed entry, and never more entries than it was given; an absent
    list gives the empty list. *)
Theorem normalizeAllowFromEntries_clean (allowFrom : option (list string)) :
  Forall (fun x => Js.truthy x = true /\ Js.trim x = x)
    (Wechat.normalizeAllowFromEntries allowFrom)
  /\ (List.length (Wechat.normalizeAllowFromEntries allowFrom)
      <= List.length (default [] allowFrom))%nat
  /\ Wechat.normalizeAllowFromEntries None = [].
Proof.
  unfold Wechat.normalizeAllowFromEntries, Shared.normalizeAllowFromEntries.
  destruct allowFrom as [entries|]; cbn [default]; [|repeat split; auto].
  split; [|split; [|reflexivity]].
  - apply List.Forall_forall. intros x Hx.
    apply filter_In in Hx as [Hx T]. split; [exact T|].
    apply in_map_iff in Hx as (y & <- & _). apply trim_idempotent.
  - etransitivity; [apply filter_length_le|]. now rewrite !length_map.
Qed.

(** ** The inbound path: what each policy does *)

Lemma senderOf_direct m : isGroupMsg m = false -> senderOf m = fromUserName m.
Proof. intros G. unfold senderOf. now rewrite G. Qed.

(** X13. A message without text, or with white space only, is ignored by
    both runtimes before any policy is looked at: whatever the account, the
    configuration and the host say. *)
Theorem blank_message_is_ignored
    (core : Core) (cfg : OpenClawConfig) (account : ResolvedAccount)
    (m : WechatMessage) (sink : option nat) :
  Js.truthy (trimmedContent m) = false ->
  Wechat.processWechatInboundMessage core
    {| Wechat.msg := m; Wechat.cfg := cfg; Wechat.account := account;
       Wechat.statusSink := sink |} = Ignore EmptyContent
  /\ RuoYi.handleRuoYiInboundMessage core cfg account m = Ignore EmptyContent.
Proof.
  intros T. unfold Wechat.processWechatInboundMessage, RuoYi.handleRuoYiInboundMessage.
  cbn [Wechat.msg]. now rewrite T.
Qed.

Lemma blank_message_is_ignored_witness :
  Wechat.processWechatInboundMessage Cases.commandCore
    {| Wechat.msg := Sample.inGroup "G1" "wxidA" "  " (Some (MentionBool true));
       Wechat.cfg := Sample.cfg;
       Wechat.account := Cases.groupPolicyAccount (Some GroupOpen) None;
       Wechat.statusSink := None |} = Ignore EmptyContent
  /\ RuoYi.handleRuoYiInboundMessage Cases.commandCore Sample.cfg
       (Cases.groupPolicyAccount (Some GroupOpen) None)
       (Sample.inGroup "G1" "wxidA" "  " (Some (MentionBool true)))
     = Ignore EmptyContent.
Proof.
  apply (blank_message_is_ignored Cases.commandCore Sample.cfg
           (Cases.groupPolicyAccount (Some GroupOpen) None)
           (Sample.inGroup "G1" "wxidA" "  " (Some (MentionBool true))) None).
  reflexivity.
Defined.

(** X14. Direct messages with text under the DM policies [disabled] and
    [open]: under [disabled] every one is ignored, whoever sends it and
    whatever the allow list and the pairing store hold; under [open] every
    one is dispatched, as a direct turn of its sender with the trimmed text
    as body. *)
Theorem dm_disabled_and_open (core : Core) (params : Wechat.WechatInboundParams) :
  let m := Wechat.msg params in
  isGroupMsg m = false ->
  Js.truthy (trimmedContent m) = true ->
  (Shared.dmPolicyOf (Wechat.account params) = PolicyDisabled ->
   Wechat.processWechatInboundMessage core params = Ignore DmDisabled)
  /\ (Shared.dmPolicyOf (Wechat.account params) = PolicyOpen ->
      exists turn,
        Wechat.processWechatInboundMessage core params = Dispatch turn
        /\ SenderId turn = fromUserName m
        /\ ChatId turn = fromUserName m
        /\ RawBody turn = trimmedContent m
        /\ IsGroup turn = false
        /\ WasMentioned turn = None).
Proof.
  intros m G T. unfold Wechat.processWechatInboundMessage. fold m.
  rewrite T, G. cbn [negb]. unfold Shared.afterGroupStage. rewrite G.
  split; intros D; rewrite D.
  - reflexivity.
  - eexists. split; [reflexivity|]. cbn [SenderId ChatId RawBody IsGroup WasMentioned andb].
    unfold Wechat.resolveWechatSenderId. rewrite (senderOf_direct m G). auto.
Qed.

Lemma dm_disabled_and_open_witness :
  Wechat.processWechatInboundMessage Sample.core
    (Sample.inbound (Cases.dmAccount (Some PolicyDisabled) (Some ["*"]))
       (Sample.direct "wxidB" "hi")) = Ignore DmDisabled
  /\ proceeds
       (Wechat.processWechatInboundMessage Sample.core
          (Sample.inbound (Cases.dmAccount (Some PolicyOpen) None)
             (Sample.direct "wxidC" "hi"))) = true.
Proof.
  split.
  - apply (proj1 (dm_disabled_and_open Sample.core
             (Sample.inbound (Cases.dmAccount (Some PolicyDisabled) (Some ["*"]))
                (Sample.direct "wxidB" "hi")) eq_refl eq_refl)).
    reflexivity.
  - destruct (proj2 (dm_disabled_and_open Sample.core
                (Sample.inbound (Cases.dmAccount (Some PolicyOpen) None)
                   (Sample.direct "wxidC" "hi")) eq_refl eq_refl) eq_refl)
      as (turn & E & _).
    rewrite E. reflexivity.
Defined.

(** X15. Direct messages with text under the DM policy [pairing]: a sender
    on the configured allow list or in the pairing store is dispatched; for
    any other sender a pairing request is recorded for the sender id and the
    message itself is not dispatched. *)
Theorem dm_pairing (core : Core) (params : Wechat.WechatInboundParams) :
  let m := Wechat.msg params in
  let inForce :=
    (Wechat.normalizeAllowFromEntries
       (AccountConfig.allowFrom (config (Wechat.account params)))
     ++ Wechat.normalizeAllowFromEntries
          (Some (default [] (readAllowFromStore core))))%list in
  isGroupMsg m = false ->
  Js.truthy (trimmedContent m) = true ->
  Shared.dmPolicyOf (Wechat.account params) = PolicyPairing ->
  if Wechat.isSenderAllowed (fromUserName m) inForce
  then proceeds (Wechat.processWechatInboundMessage core params) = true
  else Wechat.processWechatInboundMessage core params
       = Ignore (PairingRequested (snd (upsertPairingRequest core (fromUserName m)))).
Proof.
  intros m inForce G T D. unfold Wechat.processWechatInboundMessage. fold m.
  rewrite T, G. cbn [negb]. unfold Shared.afterGroupStage. rewrite G, D.
  replace (negb (bool_decide (PolicyPairing = PolicyOpen))) with true
    by (vm_compute; reflexivity).
  cbn [negb andb orb].
  unfold Wechat.resolveWechatSenderId. rewrite (senderOf_direct m G).
  rewrite isSenderAllowed_unique. fold Wechat.isSenderAllowed.
  change (Wechat.normalizeAllowFromEntries
            (AccountConfig.allowFrom (config (Wechat.account params)))
          ++ Wechat.normalizeAllowFromEntries
               (Some (default [] (readAllowFromStore core))))%list with inForce.
  destruct (Wechat.isSenderAllowed (fromUserName m) inForce); reflexivity.
Qed.

Lemma dm_pairing_witness :
  proceeds
    (Wechat.processWechatInboundMessage Sample.core
       (Sample.inbound (Cases.dmAccount (Some PolicyPairing) (Some ["wxidA"]))
          (Sample.direct "wxidB" "hi"))) = true
  /\ Wechat.processWechatInboundMessage Sample.core
       (Sample.inbound (Cases.dmAccount (Some PolicyPairing) (Some ["wxidA"]))
          (Sample.direct "wxidC" "hi"))
     = Ignore (PairingRequested true).
Proof.
  split.
  - exact (dm_pairing Sample.core
             (Sample.inbound (Cases.dmAccount (Some PolicyPairing) (Some ["wxidA"]))
                (Sample.direct "wxidB" "hi")) eq_refl eq_refl eq_refl).
  - exact (dm_pairing Sample.core
             (Sample.inbound (Cases.dmAccount (Some PolicyPairing) (Some ["wxidA"]))
                (Sample.direct "wxidC" "hi")) eq_refl eq_refl eq_refl).
Defined.

(** X16. An account with nothing configured dispatches nothing: with no DM
    policy, no allow list, no group policy (on the account or in the
    defaults), no group table and no member table, and an empty or
    unreadable pairing store, every inbound message is ignored. *)
Theorem unconfigured_account_dispatches_nothing
    (core : Core) (params : Wechat.WechatInboundParams) :
  let c := config (Wechat.account params) in
  AccountConfig.dmPolicy c = None ->
  AccountConfig.allowFrom c = None ->
  AccountConfig.groupPolicy c = None ->
  AccountConfig.groups c = None ->
  AccountConfig.groupMembers c = None ->
  defaultsGroupPolicy (Wechat.cfg params) = None ->
  default [] (readAllowFromStore core) = [] ->
  proceeds (Wechat.processWechatInboundMessage core params) = false.
Proof.
  intros c D A P Gs Ms Dp St. unfold Wechat.processWechatInboundMessage.
  destruct (negb (Js.truthy _)); [reflexivity|].
  destruct (isGroupMsg (Wechat.msg params)) eqn:G.
  - unfold Shared.groupStage, Shared.groupPolicyOf, Shared.resolveGroupMemberAllowFrom.
    fold c. rewrite P, Dp, Gs, Ms. cbn [default fmap option_fmap option_map].
    replace (bool_decide (GroupAllowlist = GroupDisabled)) with false
      by (vm_compute; reflexivity).
    replace (bool_decide (GroupAllowlist = GroupAllowlist)) with true
      by (vm_compute; reflexivity).
    replace (Shared.isGroupAllowed (fromUserName (Wechat.msg params)) ∅) with false
      by (unfold Shared.isGroupAllowed; now rewrite map_size_empty).
    assert (forall ks, Shared.firstMemberList Wechat.schemes ∅ ks = []) as E.
    { intros ks. induction ks as [|k ks IH]; cbn [Shared.firstMemberList];
        [reflexivity|]. now rewrite lookup_empty. }
    destruct (negb (Js.truthy (Js.trim _))); [|rewrite E]; reflexivity.
  - cbn [negb andb]. unfold Shared.afterGroupStage, Shared.dmPolicyOf.
    fold c. rewrite G, D, A. cbn [default].
    replace (negb (bool_decide (PolicyAllowlist = PolicyOpen))) with true
      by (vm_compute; reflexivity).
    cbn [orb]. rewrite St. reflexivity.
Qed.

Lemma unconfigured_account_dispatches_nothing_witness :
  proceeds
    (Wechat.processWechatInboundMessage (withStore None Sample.core)
       (Sample.inbound (Cases.dmAccount None None)
          (Sample.inGroup "G1" "wxidA" "hello" (Some (MentionBool true)))))
  = false
  /\ proceeds
       (Wechat.processWechatInboundMessage (withStore None Sample.core)
          (Sample.inbound (Cases.dmAccount None None) (Sample.direct "wxidA" "hello")))
     = false.
Proof.
  split.
  - apply (unconfigured_account_dispatches_nothing (withStore None Sample.core)
             (Sample.inbound (Cases.dmAccount None None)
                (Sample.inGroup "G1" "wxidA" "hello" (Some (MentionBool true)))));
      reflexivity.
  - apply (unconfigured_account_dispatches_nothing (withStore None Sample.core)
             (Sample.inbound (Cases.dmAccount None None)
                (Sample.direct "wxidA" "hello")));
      reflexivity.
Defined.

(** X17. Group messages and the pairing store: the store plays no part in
    what happens to a group message, and a control command sent in a group
    is dispatched only if the host asked for the authorization to be
    computed and granted it from the configured allow list alone. *)
Theorem group_command_needs_authorization
    (core : Core) (params : Wechat.WechatInboundParams) :
  let m := Wechat.msg params in
  let configured :=
    unique (Wechat.normalizeAllowFromEntries
              (AccountConfig.allowFrom (config (Wechat.account params)))) in
  isGroupMsg m = true ->
  (forall store,
     Wechat.processWechatInboundMessage (withStore store core) params
     = Wechat.processWechatInboundMessage core params)
  /\ (isControlCommandMessage core (trimmedContent m) = true ->
      proceeds (Wechat.processWechatInboundMessage core params) = true ->
      shouldComputeCommandAuthorized core (trimmedContent m) = true
      /\ resolveCommandAuthorizedFromAuthorizers core
           (negb (isFalse (useAccessGroups (Wechat.cfg params))))
           (negb (List.length configured =? 0)%nat)
           (Wechat.isSenderAllowed (Wechat.resolveWechatSenderId m) configured)
         = true).
Proof.
  intros m configured G. split.
  - intros store. unfold Wechat.processWechatInboundMessage. fold m.
    rewrite G. cbn [negb andb]. reflexivity.
  - intros C. unfold Wechat.processWechatInboundMessage. fold m.
    destruct (negb (Js.truthy _)); [discriminate|].
    rewrite G. destruct (Shared.groupStage _ _ _ _ _ _ _); [discriminate|].
    cbn [negb andb]. rewrite app_nil_r. fold configured.
    unfold Shared.afterGroupStage. rewrite G, C. cbn [andb].
    destruct (shouldComputeCommandAuthorized core (trimmedContent m));
      [|discriminate].
    fold Wechat.isSenderAllowed.
    destruct (resolveCommandAuthorizedFromAuthorizers core _ _ _);
      [auto | discriminate].
Qed.

Lemma group_command_needs_authorization_witness :
  Wechat.processWechatInboundMessage (withStore (Some ["wxidA"]) Cases.commandCore)
    (Sample.inbound (Cases.groupPolicyAccount (Some GroupOpen) None)
       (Sample.inGroup "G1" "wxidA" "/reset" None))
  = Ignore GroupCommandUnauthorized.
Proof.
  rewrite (proj1 (group_command_needs_authorization Cases.commandCore
             (Sample.inbound (Cases.groupPolicyAccount (Some GroupOpen) None)
                (Sample.inGroup "G1" "wxidA" "/reset" None)) eq_refl)
             (Some ["wxidA"])).
  vm_compute. reflexivity.
Defined.

(** X18. Group messages with text under the group policies [disabled] and
    [open]: under [disabled] every one is ignored, also from an allowed
    group and with a mention; under [open] the group table's allow flags and
    the member lists shut nothing out, and a message that meets the mention
    requirement and is no control command is dispatched as a group turn. *)
Theorem group_disabled_and_open (core : Core) (params : Wechat.WechatInboundParams) :
  let m := Wechat.msg params in
  let account := Wechat.account params in
  isGroupMsg m = true ->
  Js.truthy (trimmedContent m) = true ->
  (Shared.groupPolicyOf (Wechat.cfg params) account = GroupDisabled ->
   Wechat.processWechatInboundMessage core params = Ignore GroupMessagesDisabled)
  /\ (Shared.groupPolicyOf (Wechat.cfg params) account = GroupOpen ->
      Wechat.processWechatInboundMessage core params <> Ignore GroupNotAllowed
      /\ (Wechat.resolveGroupRequireMention account (Some (fromUserName m)) = false
           \/ mentionTruthy (isMentioned m) = true ->
          isControlCommandMessage core (trimmedContent m) = false ->
          exists turn,
            Wechat.processWechatInboundMessage core params = Dispatch turn
            /\ IsGroup turn = true
            /\ ChatId turn = fromUserName m
            /\ SenderId turn = Wechat.resolveWechatSenderId m
            /\ WasMentioned turn = Some (mentionTruthy (isMentioned m)))).
Proof.
  intros m account G T. unfold Wechat.processWechatInboundMessage.
  fold m account. rewrite T, G. cbn [negb andb].
  unfold Shared.groupStage. split; intros P; rewrite P.
  - reflexivity.
  - replace (bool_decide (GroupOpen = GroupDisabled)) with false
      by (vm_compute; reflexivity).
    replace (bool_decide (GroupOpen = GroupAllowlist)) with false
      by (vm_compute; reflexivity).
    cbn [andb]. unfold Shared.afterGroupStage. rewrite G. cbn [andb].
    destruct (Wechat.resolveGroupRequireMention account (Some (fromUserName m))) eqn:R.
    + destruct (isMentioned m) as [flag|] eqn:F.
      * destruct (mentionTruthy (Some flag)) eqn:M; cbn [negb].
        -- split.
           ++ destruct (isControlCommandMessage core _ && _); discriminate.
           ++ intros _ C. rewrite C. cbn [andb]. eexists. split; [reflexivity|].
              cbn [IsGroup ChatId SenderId WasMentioned]. auto.
        -- split; [discriminate|]. intros [H | H]; discriminate.
      * cbn [negb]. split; [discriminate|]. intros [H | H]; discriminate.
    + split.
      * destruct (isControlCommandMessage core _ && _); discriminate.
      * intros _ C. rewrite C. cbn [andb]. eexists. split; [reflexivity|].
        cbn [IsGroup ChatId SenderId WasMentioned]. auto.
Qed.

Lemma group_disabled_and_open_witness :
  Wechat.processWechatInboundMessage Sample.core
    (Sample.inbound
       (Cases.groupPolicyAccount (Some GroupDisabled)
          (Some (<["G1" := Sample.group (Some true) None None]> ∅)))
       (Sample.inGroup "G1" "wxidA" "hello" (Some (MentionBool true))))
  = Ignore GroupMessagesDisabled
  /\ proceeds
       (Wechat.processWechatInboundMessage Sample.core
          (Sample.inbound
             (Cases.groupPolicyAccount (Some GroupOpen)
                (Some (<["G1" := Sample.group (Some false) None None]> ∅)))
             (Sample.inGroup "G1" "wxidA" "hello" None)))
     = true.
Proof.
  split.
  - apply (proj1 (group_disabled_and_open Sample.core
             (Sample.inbound
                (Cases.groupPolicyAccount (Some GroupDisabled)
                   (Some (<["G1" := Sample.group (Some true) None None]> ∅)))
                (Sample.inGroup "G1" "wxidA" "hello" (Some (MentionBool true))))
             eq_refl eq_refl)).
    vm_compute. reflexivity.
  - destruct (proj2 (proj2 (group_disabled_and_open Sample.core
                (Sample.inbound
                   (Cases.groupPolicyAccount (Some GroupOpen)
                      (Some (<["G1" := Sample.group (Some false) None None]> ∅)))
                   (Sample.inGroup "G1" "wxidA" "hello" None))
                eq_refl eq_refl) ltac:(vm_compute; reflexivity))
              ltac:(left; vm_compute; reflexivity) eq_refl)
      as (turn & E & _).
    rewrite E. reflexivity.
Defined.

Lemma afterGroupStage_not_mention schemes core cfg account m sender chat body auth L :
  Shared.afterGroupStage schemes core cfg account m sender chat body auth L
  <> Ignore NotMentioned.
Proof.
  unfold Shared.afterGroupStage.
  destruct (isGroupMsg m); cbn [andb].
  - destruct (isControlCommandMessage core body && _); discriminate.
  - destruct (Shared.dmPolicyOf account); try discriminate;
      destruct (Shared.isSenderAllowed _ _ _); discriminate.
Qed.

Lemma mentioned_passes_gate core params :
  mentionTruthy (isMentioned (Wechat.msg params)) = true ->
  Wechat.processWechatInboundMessage core params <> Ignore NotMentioned.
Proof.
  intros M. unfold Wechat.processWechatInboundMessage.
  destruct (negb (Js.truthy _)); [discriminate|].
  destruct (isGroupMsg (Wechat.msg params)); [|apply afterGroupStage_not_mention].
  unfold Shared.groupStage.
  destruct (bool_decide _); [discriminate|].
  destruct (_ && _); [discriminate|].
  destruct (Wechat.resolveGroupRequireMention _ _);
    [|apply afterGroupStage_not_mention].
  destruct (isMentioned (Wechat.msg params)) as [flag|]; [|discriminate M].
  rewrite M. cbn [negb]. apply afterGroupStage_not_mention.
Qed.

(** X19. A mention anywhere in a burst counts for the whole burst: when a
    bucket of two or more events is flushed and some event in it mentions
    the bot, the merged message is handed to the inbound path and is never
    ignored there for lack of a mention, whichever event came last. *)
Theorem burst_mention_passes_gate
    (core : Core) (entries : list Wechat.WechatInboundParams) :
  (2 <= List.length entries)%nat ->
  Exists (fun e => mentionTruthy (isMentioned (Wechat.msg e)) = true) entries ->
  exists out, Wechat.onFlush core entries = Some out /\ out <> Ignore NotMentioned.
Proof.
  intros Hlen Hm.
  destruct (last entries) as [lastEntry|] eqn:L.
  2:{ apply last_None in L. subst entries. cbn in Hlen. lia. }
  assert ((List.length entries =? 1)%nat = false) as Hne by (apply Nat.eqb_neq; lia).
  apply existsb_Exists in Hm.
  unfold Wechat.onFlush, Wechat.flushed, Wechat.mergeWechatInboundMessages.
  rewrite L, Hne, Hm. cbn [fmap option_fmap option_map].
  eexists. split; [reflexivity|].
  apply mentioned_passes_gate. reflexivity.
Qed.

(** Of the burst of three, only the second message mentions the bot; the
    last one alone would be ignored for lack of a mention. *)
Lemma burst_mention_passes_gate_witness :
  Wechat.processWechatInboundMessage Sample.core
    (Sample.inbound (Sample.groupAccount Sample.mentionTable ∅)
       (Sample.inGroup "G1" "wxidA" "c" (Some (MentionBool false))))
  = Ignore NotMentioned
  /\ exists out,
       Wechat.onFlush Sample.core
         (map (Sample.inbound (Sample.groupAccount Sample.mentionTable ∅)) Sample.burst)
       = Some out
       /\ out <> Ignore NotMentioned.
Proof.
  split; [vm_compute; reflexivity|].
  apply (burst_mention_passes_gate Sample.core
           (map (Sample.inbound (Sample.groupAccount Sample.mentionTable ∅)) Sample.burst)).
  - cbn. lia.
  - apply Exists_cons_tl, Exists_cons_hd. reflexivity.
Defined.

(** X20. The two runtimes resolve the mention requirement of a group alike
    except for the [group:] alias, which only the WeChat runtime reads: they
    agree whenever the read of the table under the group's own id finds
    something (an own entry, or an inherited member), or the alias entry
    sets no [requireMention]; and where that read finds nothing and the alias
    entry sets [requireMention], the WeChat runtime follows the alias while
    the RuoYi runtime falls back to the ["*"] entry and the account. *)
Theorem requireMention_runtimes (account : ResolvedAccount) (groupId : string) :
  let table := default ∅ (AccountConfig.groups (config account)) in
  let g := Js.trim groupId in
  (Shared.groupsGet table g <> None
   \/ table !! ("group:" +:+ g) ≫= GroupConfig.requireMention = None ->
   RuoYi.resolveGroupRequireMention account (Some groupId)
   = Wechat.resolveGroupRequireMention account (Some groupId))
  /\ (forall b,
        Js.truthy g = true ->
        Shared.groupsGet table g = None ->
        table !! ("group:" +:+ g) ≫= GroupConfig.requireMention = Some b ->
        Wechat.resolveGroupRequireMention account (Some groupId) = b
        /\ RuoYi.resolveGroupRequireMention account (Some groupId)
           = firstDefined [ table !! "*" ≫= GroupConfig.requireMention;
                            AccountConfig.requireMention (config account) ]).
Proof.
  intros table g.
  unfold RuoYi.resolveGroupRequireMention, Wechat.resolveGroupRequireMention,
    Wechat.ownGroupEntry.
  fold table. cbn [fmap option_fmap option_map]. fold g. split.
  - intros H. destruct (Js.truthy g); [|reflexivity].
    destruct (Shared.groupsGet table g) as [direct|] eqn:E; [reflexivity|].
    destruct H as [H | H]; [congruence|].
    rewrite (groupsGet_requireMention table ("group:" +:+ g)), H. reflexivity.
  - intros b T E A.
    rewrite T, E, (groupsGet_requireMention table ("group:" +:+ g)), A, groupsGet_star.
    cbn [mbind option_bind firstDefined].
    split; [reflexivity|].
    destruct (table !! "*" ≫= GroupConfig.requireMention) as [w|]; [reflexivity|].
    destruct (AccountConfig.requireMention (config account)); reflexivity.
Qed.

(** The group [G1] is listed under its alias only: the runtimes differ.
    Listed under its own id, and for the id [constructor], under which the
    read finds an inherited member, they agree. *)
Lemma requireMention_runtimes_witness :
  Wechat.resolveGroupRequireMention
    (Cases.groupPolicyAccount None
       (Some (<["group:G1" := Sample.group None None (Some true)]> ∅))) (Some "G1")
  = true
  /\ RuoYi.resolveGroupRequireMention
       (Cases.groupPolicyAccount None
          (Some (<["group:G1" := Sample.group None None (Some true)]> ∅))) (Some "G1")
     = false
  /\ RuoYi.resolveGroupRequireMention
       (Sample.groupAccount Sample.mentionTable ∅) (Some " G1 ")
     = Wechat.resolveGroupRequireMention
         (Sample.groupAccount Sample.mentionTable ∅) (Some " G1 ")
  /\ RuoYi.resolveGroupRequireMention
       (Sample.groupAccount Cases.aliasOnlyTable ∅) (Some "constructor")
     = Wechat.resolveGroupRequireMention
         (Sample.groupAccount Cases.aliasOnlyTable ∅) (Some "constructor").
Proof.
  destruct (proj2 (requireMention_runtimes
              (Cases.groupPolicyAccount None
                 (Some (<["group:G1" := Sample.group None None (Some true)]> ∅)))
              "G1") true) as [W R]; try (vm_compute; reflexivity).
  split; [exact W|]. split; [rewrite R; vm_compute; reflexivity|]. split.
  - apply (proj1 (requireMention_runtimes
                    (Sample.groupAccount Sample.mentionTable ∅) " G1 ")).
    left. vm_compute. discriminate.
  - apply (proj1 (requireMention_runtimes
                    (Sample.groupAccount Cases.aliasOnlyTable ∅) "constructor")).
    left. vm_compute. discriminate.
Defined.

(** ** Outbound media, further *)

Ltac media_cases :=
  repeat match goal with
         | |- context [match ?x with _ => _ end] => destruct x eqn:?
         end.

(** X21. When [sendWechatMedia] fails and when it cannot: a blank
    destination fails every call before anything else is looked at; with a
    destination, a blank media URL does nothing in either mode, and in
    lenient mode no reference of any kind makes the call fail. *)
Theorem media_failure_modes
    (P : Media.Platform) (chatId mediaUrl : string) (hints : option Media.Hints.t) :
  (Wechat.requireWechatOutboundTarget (Some chatId) = None ->
   forall strict,
     Media.sendWechatMedia P chatId mediaUrl hints strict
     = Media.Threw Media.TargetRequired)
  /\ (Wechat.requireWechatOutboundTarget (Some chatId) <> None ->
      (Js.truthy (Js.trim mediaUrl) = false ->
       forall strict,
         Media.sendWechatMedia P chatId mediaUrl hints strict = Media.Done [])
      /\ (forall strict, default false strict = false ->
            exists effects,
              Media.sendWechatMedia P chatId mediaUrl hints strict
              = Media.Done effects)).
Proof.
  split; [|split].
  - intros T strict. unfold Media.sendWechatMedia. now rewrite T.
  - intros U strict. unfold Media.sendWechatMedia.
    destruct (Wechat.requireWechatOutboundTarget (Some chatId)); [|congruence].
    now rewrite U.
  - intros strict L. unfold Media.sendWechatMedia, Media.fallbackToFile.
    destruct (Wechat.requireWechatOutboundTarget (Some chatId)); [|congruence].
    rewrite L. media_cases; cbn [Media.after]; eauto.
Qed.

Lemma media_failure_modes_witness :
  Media.sendWechatMedia Sample.platform "wechat:" Sample.songUrl None (Some false)
  = Media.Threw Media.TargetRequired
  /\ Media.sendWechatMedia Sample.platform "wxid_user" "   " None (Some true)
     = Media.Done []
  /\ exists effects,
       Media.sendWechatMedia Sample.platform "wxid_user" Sample.songUrl None None
       = Media.Done effects.
Proof.
  destruct (media_failure_modes Sample.platform "wechat:" Sample.songUrl None)
    as [B _].
  destruct (media_failure_modes Sample.platform "wxid_user" "   " None)
    as [_ N].
  destruct (media_failure_modes Sample.platform "wxid_user" Sample.songUrl None)
    as [_ L].
  split; [apply B; reflexivity|]. split.
  - apply N; [discriminate | reflexivity].
  - apply L; [discriminate | reflexivity].
Defined.

(** X22. What a media send that returns has done: it logged at most two
    warnings and then made at most one call on the client, followed by one
    status update; the call is addressed to the resolved destination, passes
    the trimmed URL on, and is of the kind the reference was classified as,
    or a file send after a warning. *)
Theorem media_send_shape
    (P : Media.Platform) (chatId mediaUrl : string) (hints : option Media.Hints.t)
    (strict : option bool) (target : string) (effects : list Media.Effect) :
  let url := Js.trim mediaUrl in
  Wechat.requireWechatOutboundTarget (Some chatId) = Some target ->
  Media.sendWechatMedia P chatId mediaUrl hints strict = Media.Done effects ->
  exists warnings tail,
    effects = (map Media.Warn warnings ++ tail)%list
    /\ (List.length warnings <= 2)%nat
    /\ (tail = []
        \/ exists c,
             tail = [Media.Call c; Media.StatusLastOutboundAt]
             /\ callTarget c = target
             /\ (callUrl c = None \/ callUrl c = Some url)
             /\ (callKind c = Media.Spec.kind (Media.resolveMediaSpec P url hints)
                 \/ callKind c = Media.File /\ warnings <> [])).
Proof.
  intros url T. unfold Media.sendWechatMedia, Media.fallbackToFile.
  rewrite T. fold url.
  media_cases; cbn [Media.after app]; intros [= <-];
    first
      [ exists [], []; split; [reflexivity|]; split; [cbn; lia | now left]
      | eexists [_], []; split; [reflexivity|]; split; [cbn; lia | now left]
      | eexists [_; _], []; split; [reflexivity|]; split; [cbn; lia | now left]
      | exists []; eexists; split; [reflexivity|]; split; [cbn; lia|];
        right; eexists; split; [reflexivity|]; cbn [callTarget callUrl callKind];
        split; [reflexivity|]; split; [auto|]; left; reflexivity
      | eexists [_]; eexists; split; [reflexivity|]; split; [cbn; lia|];
        right; eexists; split; [reflexivity|]; cbn [callTarget callUrl callKind];
        split; [reflexivity|]; split; [auto|]; right; split;
        [reflexivity | discriminate] ].
Qed.

Lemma media_send_shape_witness :
  exists warnings tail,
    [Media.Warn Media.VoiceDurationMissing;
     Media.Call (Media.SendFile "wxid_user" Sample.songUrl "song.mp3");
     Media.StatusLastOutboundAt]
    = (map Media.Warn warnings ++ tail)%list
    /\ (List.length warnings <= 2)%nat
    /\ (tail = []
        \/ exists c,
             tail = [Media.Call c; Media.StatusLastOutboundAt]
             /\ callTarget c = "wxid_user"
             /\ (callUrl c = None \/ callUrl c = Some (Js.trim Sample.songUrl))
             /\ (callKind c
                 = Media.Spec.kind
                     (Media.resolveMediaSpec Sample.platform (Js.trim Sample.songUrl)
                        (Some Sample.audioHints))
                 \/ callKind c = Media.File /\ warnings <> [])).
Proof.
  apply (media_send_shape Sample.platform "wx:wxid_user" Sample.songUrl
           (Some Sample.audioHints) None "wxid_user"); reflexivity.
Defined.

(** X23. Strict mode sends a reference as what it is or not at all: a
    strict send of a non-blank reference that returns has logged no warning
    and made exactly one call, of the kind the reference was classified as;
    there is no fallback to a file send. *)
Theorem strict_media_send
    (P : Media.Platform) (chatId mediaUrl : string) (hints : option Media.Hints.t)
    (target : string) (effects : list Media.Effect) :
  let url := Js.trim mediaUrl in
  Wechat.requireWechatOutboundTarget (Some chatId) = Some target ->
  Js.truthy url = true ->
  Media.sendWechatMedia P chatId mediaUrl hints (Some true) = Media.Done effects ->
  exists c,
    effects = [Media.Call c; Media.StatusLastOutboundAt]
    /\ callTarget c = target
    /\ callKind c = Media.Spec.kind (Media.resolveMediaSpec P url hints).
Proof.
  intros url T U. unfold Media.sendWechatMedia, Media.fallbackToFile.
  rewrite T. fold url. rewrite U. cbn [negb].
  change (default false (Some true)) with true. cbv iota.
  media_cases; cbn [Media.after app]; intros [= <-];
    (eexists; split; [reflexivity|]; split; reflexivity).
Qed.

Lemma strict_media_send_witness :
  exists c,
    [Media.Call (Media.SendEmoji "wxid_user" "abc123" "456");
     Media.StatusLastOutboundAt]
    = [Media.Call c; Media.StatusLastOutboundAt]
    /\ callTarget c = "wxid_user"
    /\ callKind c
       = Media.Spec.kind
           (Media.resolveMediaSpec Sample.platform (Js.trim " Emoji:abc123:456 ") None).
Proof.
  apply (strict_media_send Sample.platform "wxid_user" " Emoji:abc123:456 " None
           "wxid_user"); reflexivity.
Defined.

(** X24. A sticker is a sticker whatever the hints say: a reference whose
    sticker fields (md5 and size, from the hints or else from the URL) are
    both present is sent as a sticker in either mode, also when it is hinted
    as voice or has an audio content type; and an [emoji:] reference
    lacking a field is never sent in another form: lenient mode logs a
    warning, strict mode fails. *)
Theorem emoji_takes_precedence
    (P : Media.Platform) (chatId mediaUrl : string) (hints : option Media.Hints.t)
    (target : string) :
  let url := Js.trim mediaUrl in
  let meta := Media.parseMediaUrlMeta P url in
  let h := default Media.Hints.empty hints in
  let md5 := Media.orNullish (Media.Hints.emojiMd5 h) (Media.Meta.emojiMd5 meta) in
  let size := Media.orNullish (Media.Hints.emojiSize h) (Media.Meta.emojiSize meta) in
  Wechat.requireWechatOutboundTarget (Some chatId) = Some target ->
  Js.truthy url = true ->
  (forall m s,
     md5 = Some m -> size = Some s -> Js.truthy m = true -> Js.truthy s = true ->
     forall strict,
       Media.sendWechatMedia P chatId mediaUrl hints strict
       = Media.Done [Media.Call (Media.SendEmoji target m s);
                     Media.StatusLastOutboundAt])
  /\ (Media.Meta.isEmojiScheme meta = true ->
      Media.present md5 && Media.present size = false ->
      Media.sendWechatMedia P chatId mediaUrl hints (Some true)
      = Media.Threw Media.EmojiFieldsRequired
      /\ forall strict, default false strict = false ->
           Media.sendWechatMedia P chatId mediaUrl hints strict
           = Media.Done [Media.Warn Media.EmojiFieldsMissing]).
Proof.
  intros url meta h md5 size T U. subst md5 size h meta url. split.
  - intros m s Hm Hs Tm Ts strict.
    unfold Media.sendWechatMedia, Media.resolveMediaSpec.
    rewrite T, U. cbn [negb]. rewrite Hm, Hs. cbn [Media.present].
    rewrite Tm, Ts, orb_true_r.
    cbn [Media.Spec.kind Media.Spec.emojiMd5 Media.Spec.emojiSize].
    rewrite Tm, Ts. reflexivity.
  - intros E M.
    assert (forall strict,
              Media.sendWechatMedia P chatId mediaUrl hints strict
              = if default false strict
                then Media.Threw Media.EmojiFieldsRequired
                else Media.Done [Media.Warn Media.EmojiFieldsMissing]) as R.
    { intros strict. unfold Media.sendWechatMedia, Media.resolveMediaSpec.
      rewrite T, U. cbn [negb]. rewrite E. cbn [orb].
      cbn [Media.Spec.kind Media.Spec.emojiMd5 Media.Spec.emojiSize].
      destruct (Media.orNullish (Media.Hints.emojiMd5 _) _) as [m|];
        [|destruct (default false strict); reflexivity].
      destruct (Media.orNullish (Media.Hints.emojiSize _) _) as [s|];
        [|destruct (default false strict); reflexivity].
      cbn [Media.present] in M. rewrite M. reflexivity. }
    split; [exact (R (Some true))|]. intros strict L. rewrite R, L. reflexivity.
Qed.

Lemma emoji_takes_precedence_witness :
  Media.sendWechatMedia Sample.platform "wxid_user" " Emoji:abc123:456 "
    (Some Sample.audioHints) (Some true)
  = Media.Done [Media.Call (Media.SendEmoji "wxid_user" "abc123" "456");
                Media.StatusLastOutboundAt]
  /\ Media.sendWechatMedia Sample.platform "wxid_user" "emoji:abc123"
       (Some Sample.audioHints) None
     = Media.Done [Media.Warn Media.EmojiFieldsMissing].
Proof.
  split.
  - apply (proj1 (emoji_takes_precedence Sample.platform "wxid_user"
                    " Emoji:abc123:456 " (Some Sample.audioHints) "wxid_user"
                    eq_refl eq_refl)); reflexivity.
  - apply (proj2 (emoji_takes_precedence Sample.platform "wxid_user"
                    "emoji:abc123" (Some Sample.audioHints) "wxid_user"
                    eq_refl eq_refl)); reflexivity.
Defined.

(** The file send that other kinds fall back to goes through whenever the
    file-name hint is not the empty string. *)
Lemma fallbackToFile_sends P target url hints strict :
  (forall segment, Js.truthy segment = true ->
                   Media.decodeURIComponent P segment <> Some "") ->
  Media.Hints.fileName (default Media.Hints.empty hints) <> Some "" ->
  Media.Spec.kind (Media.resolveMediaSpec P url hints) <> Media.Emoji ->
  exists name,
    Media.fallbackToFile P target url (Media.resolveMediaSpec P url hints) strict
    = Media.Done [Media.Call (Media.SendFile target url name);
                  Media.StatusLastOutboundAt].
Proof.
  intros D H K. unfold Media.fallbackToFile.
  rewrite spec_of_other_kinds by exact K.
  assert (Js.truthy
            match
              Media.orNullish
                (Media.orNullish (Media.Hints.fileName (default Media.Hints.empty hints))
                   (Media.orNullish (Media.Meta.fileName (Media.parseMediaUrlMeta P url))
                      (Media.inferFileNameFromMediaUrl P url)))
                (Media.inferFileNameFromMediaUrl P url)
            with
            | Some n => n
            | None =>
                if Media.present (Media.getFileExtension P url)
                then "file" +:+ default "" (Media.getFileExtension P url)
                else "file"
            end = true) as ->.
  { unfold Media.orNullish.
    destruct (Media.Hints.fileName _) as [n|].
    - destruct n; [congruence | reflexivity].
    - destruct (Media.Meta.fileName _) as [n|] eqn:M.
      + exact (meta_fileName_truthy P url n M).
      + destruct (Media.inferFileNameFromMediaUrl P url) as [n|] eqn:I.
        * exact (inferFileName_truthy P url n D I).
        * destruct (Media.present _); reflexivity. }
  cbn [negb]. eauto.
Qed.

(** X25. A file send is given up for want of a file name only when the
    caller passed the empty string as the file-name hint: if a media send
    fails for the missing file name, or returns after the missing-name
    warning, then the hint was the empty string (the platform's URI decoding
    never turning a non-empty path segment into the empty string). *)
Theorem file_name_missing_only_for_empty_hint
    (P : Media.Platform) (chatId mediaUrl : string) (hints : option Media.Hints.t)
    (strict : option bool) :
  (forall segment, Js.truthy segment = true ->
                   Media.decodeURIComponent P segment <> Some "") ->
  Media.sendWechatMedia P chatId mediaUrl hints strict
  = Media.Threw Media.FileNameRequired
  \/ (exists effects,
        Media.sendWechatMedia P chatId mediaUrl hints strict = Media.Done effects
        /\ In (Media.Warn Media.MissingFileName) effects) ->
  Media.Hints.fileName (default Media.Hints.empty hints) = Some "".
Proof.
  intros D Hr.
  assert (Media.Hints.fileName (default Media.Hints.empty hints) = Some ""
          \/ Media.Hints.fileName (default Media.Hints.empty hints) <> Some "")
    as [E | H].
  { destruct (Media.Hints.fileName _) as [[|c n]|]; [now left | |];
      right; discriminate. }
  { exact E. }
  exfalso. revert Hr. unfold Media.sendWechatMedia.
  destruct (Wechat.requireWechatOutboundTarget (Some chatId)) as [target|].
  2:{ intros [? | (? & ? & ?)]; discriminate. }
  destruct (negb (Js.truthy (Js.trim mediaUrl))).
  { intros [? | (? & [= <-] & [])]; discriminate. }
  pose proof (fallbackToFile_sends P target (Js.trim mediaUrl) hints
                (default false strict) D H) as F.
  destruct (Media.Spec.kind (Media.resolveMediaSpec P (Js.trim mediaUrl) hints))
    eqn:K.
  2,3,4: destruct F as (name & ->); [discriminate|].
  all: media_cases; cbn [Media.after app].
  all: intros [? | (? & E & Hin)]; try discriminate.
  all: injection E as <-; cbn [In] in Hin; intuition discriminate.
Qed.

Lemma file_name_missing_only_for_empty_hint_witness :
  Media.Hints.fileName (default Media.Hints.empty (Some Sample.namelessVoiceHints))
  = Some "".
Proof.
  apply (file_name_missing_only_for_empty_hint Sample.platform "wxid_user"
           Sample.songUrl (Some Sample.namelessVoiceHints) (Some false)).
  - intros segment T E. injection E as ->. discriminate.
  - right. eexists. split; [reflexivity|]. cbn. auto.
Defined.

(** ** Delivering a reply *)

Lemma sendTextChunks_connected chatId chunks p :
  isConnected (Delivery.client p) = true ->
  let p' := Delivery.sendTextChunks chatId chunks p in
  isConnected (Delivery.client p') = true
  /\ sentOnCurrent (Delivery.client p')
     = (sentOnCurrent (Delivery.client p)
        ++ map (fun chunk => SendText chatId chunk []) chunks)%list
  /\ events (Delivery.client p') = events (Delivery.client p)
  /\ Delivery.statusUpdates p' = (Delivery.statusUpdates p + List.length chunks)%nat
  /\ Delivery.mediaEffects p' = Delivery.mediaEffects p.
Proof.
  revert p. induction chunks as [|chunk rest IH]; intros p H; cbn zeta.
  - cbn [Delivery.sendTextChunks map List.length]. rewrite app_nil_r, Nat.add_0_r. auto.
  - cbn [Delivery.sendTextChunks map List.length].
    destruct (send_connected (SendText chatId chunk []) _ H) as (_ & I & Sn & Ev & _).
    specialize (IH {| Delivery.client := fst (sendText chatId chunk [] (Delivery.client p));
                      Delivery.mediaEffects := Delivery.mediaEffects p;
                      Delivery.statusUpdates := S (Delivery.statusUpdates p) |} I).
    cbn zeta in IH. destruct IH as (I' & Sn' & Ev' & St' & M').
    cbn [Delivery.client Delivery.statusUpdates Delivery.mediaEffects] in *.
    unfold sendText in *. rewrite Sn', Sn, Ev', Ev, St', M', <- app_assoc.
    repeat split; [exact I' | lia].
Qed.

Lemma sendImages_connected chatId urls p :
  isConnected (Delivery.client p) = true ->
  let p' := Delivery.sendImages chatId urls p in
  isConnected (Delivery.client p') = true
  /\ sentOnCurrent (Delivery.client p')
     = (sentOnCurrent (Delivery.client p)
        ++ map (SendImage chatId) (List.filter Js.truthy urls))%list
  /\ events (Delivery.client p') = events (Delivery.client p)
  /\ Delivery.statusUpdates p'
     = (Delivery.statusUpdates p + List.length (List.filter Js.truthy urls))%nat
  /\ Delivery.mediaEffects p' = Delivery.mediaEffects p.
Proof.
  revert p. induction urls as [|u rest IH]; intros p H; cbn zeta.
  - cbn [Delivery.sendImages List.filter map List.length].
    rewrite app_nil_r, Nat.add_0_r. auto.
  - cbn [Delivery.sendImages List.filter].
    destruct (Js.truthy u); cbn [negb]; [|exact (IH p H)].
    cbn [map List.length].
    destruct (send_connected (SendImage chatId u) _ H) as (_ & I & Sn & Ev & _).
    specialize (IH {| Delivery.client := fst (sendImage chatId u (Delivery.client p));
                      Delivery.mediaEffects := Delivery.mediaEffects p;
                      Delivery.statusUpdates := S (Delivery.statusUpdates p) |} I).
    cbn zeta in IH. destruct IH as (I' & Sn' & Ev' & St' & M').
    cbn [Delivery.client Delivery.statusUpdates Delivery.mediaEffects] in *.
    unfold sendImage in *. rewrite Sn', Sn, Ev', Ev, St', M', <- app_assoc.
    repeat split; [exact I' | lia].
Qed.

(** X26. [deliverRuoYiReply] sends nothing and fails when there is no
    client or the client is not connected.  On a connected client it does
    not fail: it writes one text frame per chunk and then one image frame
    per non-empty media URL, in that order and all to the chat id as given,
    reports one status update per frame, and logs nothing. *)
Theorem ruoyi_reply_delivery
    (T : Delivery.TextCore) (chatId : string) (payload : Delivery.Payload) :
  Delivery.deliverRuoYiReply T None chatId payload
  = Delivery.Threw Delivery.NotConnected None
  /\ (forall c, isConnected c = false ->
        Delivery.deliverRuoYiReply T (Some c) chatId payload
        = Delivery.Threw Delivery.NotConnected None)
  /\ (forall c, isConnected c = true ->
        let frames :=
          (map (fun chunk => SendText chatId chunk []) (Delivery.textChunksOf T payload)
           ++ map (SendImage chatId)
                (List.filter Js.truthy (Delivery.mediaListOf payload)))%list in
        exists p,
          Delivery.deliverRuoYiReply T (Some c) chatId payload = Delivery.Done p
          /\ sentOnCurrent (Delivery.client p) = (sentOnCurrent c ++ frames)%list
          /\ Delivery.statusUpdates p = List.length frames
          /\ events (Delivery.client p) = events c
          /\ isConnected (Delivery.client p) = true).
Proof.
  split; [reflexivity|]. split.
  - intros c H. unfold Delivery.deliverRuoYiReply. now rewrite H.
  - intros c H frames. unfold Delivery.deliverRuoYiReply. rewrite H. cbn [negb].
    eexists. split; [reflexivity|].
    pose proof (sendTextChunks_connected chatId (Delivery.textChunksOf T payload)
                  {| Delivery.client := c; Delivery.mediaEffects := [];
                     Delivery.statusUpdates := 0 |} H) as Ht.
    cbn zeta in Ht. destruct Ht as (I & Sn & Ev & St & _).
    pose proof (sendImages_connected chatId (Delivery.mediaListOf payload) _ I) as Hi.
    cbn zeta in Hi. destruct Hi as (I' & Sn' & Ev' & St' & _).
    cbn [Delivery.client Delivery.statusUpdates] in *.
    rewrite Sn', Sn, Ev', Ev, St', St. subst frames.
    rewrite length_app, !length_map, <- app_assoc. auto.
Qed.

Lemma ruoyi_reply_delivery_witness :
  exists p,
    Delivery.deliverRuoYiReply Cases.textCore (Some Cases.connected) "ry:wxid_user"
      Cases.reply = Delivery.Done p
    /\ sentOnCurrent (Delivery.client p)
       = [Auth "wxid_robot";
          SendText "ry:wxid_user" "hello" [];
          SendText "ry:wxid_user" "there" [];
          SendImage "ry:wxid_user" "http://host/a.png"]
    /\ Delivery.statusUpdates p = 3%nat.
Proof.
  destruct (proj2 (proj2 (ruoyi_reply_delivery Cases.textCore "ry:wxid_user"
                            Cases.reply)) Cases.connected)
    as (p & E & Sn & St & _); [vm_compute; reflexivity|].
  exists p. split; [exact E|]. split; [rewrite Sn | rewrite St]; vm_compute; reflexivity.
Defined.







(** A destination with the channel prefix twice is resolved once for the
    text and once more for the media: the text goes to [wx:wxid_user], the
    picture to [wxid_user]. *)
Example reply_to_doubly_prefixed_target :
  exists p,
    Delivery.deliverWechatReply Cases.textCore Cases.picturePlatform
      (Some Cases.connected) "wx:wx:wxid_user" Cases.reply = Delivery.Done p
    /\ sentOnCurrent (Delivery.client p)
       = [Auth "wxid_robot";
          SendText "wx:wxid_user" "hello" [];
          SendText "wx:wxid_user" "there" [];
          SendImage "wxid_user" "http://host/a.png"]
    /\ map callTarget (clientCalls (Delivery.mediaEffects p)) = ["wxid_user"].
Proof. eexists. split; [vm_compute; reflexivity|]. split; vm_compute; reflexivity. Qed.

(** ** Status issues *)

(** X28. [collectStatusIssues] reports at most one issue per account, in
    the order of the accounts.  An account that is not configured gets the
    configuration issue and its recorded error is not reported; a configured
    account gets a runtime issue exactly when its recorded error, trimmed, is
    not empty, and that trimmed text is what is reported. *)
Theorem status_issues (accounts : list Channel.AccountSnapshot) :
  (List.length (Channel.collectStatusIssues accounts) <= List.length accounts)%nat
  /\ sublist (map Channel.issueAccount (Channel.collectStatusIssues accounts))
       (map Channel.snapshotAccountId accounts)
  /\ (forall a,
        In (Channel.ConfigIssue a) (Channel.collectStatusIssues accounts)
        <-> exists account,
              In account accounts
              /\ Channel.snapshotAccountId account = a
              /\ Channel.configured account <> Some true)
  /\ (forall a e,
        In (Channel.RuntimeIssue a e) (Channel.collectStatusIssues accounts)
        <-> exists account,
              In account accounts
              /\ Channel.snapshotAccountId account = a
              /\ Channel.configured account = Some true
              /\ Js.trim (default "" (Channel.lastError account)) = e
              /\ Js.truthy e = true).
Proof.
  unfold Channel.collectStatusIssues. split; [|split; [|split]].
  - induction accounts as [|x r IH]; cbn [flat_map List.length]; [lia|].
    rewrite length_app. unfold Channel.issuesOf at 1.
    destruct (negb _); [cbn; lia|]. destruct (negb _); cbn; lia.
  - induction accounts as [|x r IH]; cbn [flat_map map]; [constructor|].
    rewrite map_app. unfold Channel.issuesOf at 1.
    destruct (negb _); [cbn; now constructor|].
    destruct (negb _); cbn; now constructor.
  - intros a. rewrite in_flat_map. split.
    + intros (x & Hx & Hin). exists x. split; [exact Hx|].
      unfold Channel.issuesOf in Hin.
      destruct (Channel.configured x) as [[]|]; cbn in Hin.
      * destruct (negb _); cbn in Hin; intuition discriminate.
      * destruct Hin as [[= <-] | []]. split; [reflexivity | discriminate].
      * destruct Hin as [[= <-] | []]. split; [reflexivity | discriminate].
    + intros (x & Hx & <- & C). exists x. split; [exact Hx|].
      unfold Channel.issuesOf.
      destruct (Channel.configured x) as [[]|]; cbn; [congruence | auto | auto].
  - intros a e. rewrite in_flat_map. split.
    + intros (x & Hx & Hin). exists x. split; [exact Hx|].
      unfold Channel.issuesOf in Hin.
      destruct (Channel.configured x) as [[]|]; cbn in Hin;
        try (destruct Hin as [? | []]; discriminate).
      destruct (Js.truthy (Js.trim _)) eqn:T; cbn in Hin; [|contradiction].
      destruct Hin as [[= <- <-] | []]. auto.
    + intros (x & Hx & <- & C & <- & T). exists x. split; [exact Hx|].
      unfold Channel.issuesOf. rewrite C. cbn. rewrite T. cbn. auto.
Qed.

Example status_issues_example :
  Channel.collectStatusIssues Cases.snapshots
  = [Channel.ConfigIssue "a"; Channel.RuntimeIssue "b" "timeout"].
Proof. reflexivity. Qed.

(** ** File names from URLs *)

Lemma everyUnit_app p a b :
  everyUnit p (a +:+ b) = everyUnit p a && everyUnit p b.
Proof.
  induction a as [|c a IH]; [reflexivity|].
  change (String c a +:+ b) with (String c (a +:+ b)).
  cbn [everyUnit]. now rewrite IH, andb_assoc.
Qed.

(** The pieces of a split hold only code units of the text that was split. *)
Lemma splitOnAcc_units sep q acc s x :
  In x (Js.splitOnAcc sep acc s) ->
  everyUnit q acc = true -> everyUnit q s = true -> everyUnit q x = true.
Proof.
  revert acc. induction s as [|c r IH]; intros acc Hin Ha Hs; cbn in Hin.
  - destruct Hin as [<- | []]. exact Ha.
  - cbn [everyUnit] in Hs. apply andb_prop in Hs as [Hc Hr].
    destruct (sep c).
    + destruct Hin as [<- | Hin]; [exact Ha|]. now apply (IH ""%string).
    + apply (IH _ Hin); [|exact Hr].
      rewrite everyUnit_app, Ha. cbn [everyUnit]. now rewrite Hc.
Qed.

(** No piece of a split holds a separator. *)
Lemma splitOnAcc_separated sep acc s x :
  In x (Js.splitOnAcc sep acc s) ->
  everyUnit (fun c => negb (sep c)) acc = true ->
  everyUnit (fun c => negb (sep c)) x = true.
Proof.
  revert acc. induction s as [|c r IH]; intros acc Hin Ha; cbn in Hin.
  - destruct Hin as [<- | []]. exact Ha.
  - destruct (sep c) eqn:E.
    + destruct Hin as [<- | Hin]; [exact Ha|]. now apply (IH ""%string).
    + apply (IH _ Hin). rewrite everyUnit_app, Ha. cbn [everyUnit]. now rewrite E.
Qed.

(** X29. For a media URL that the platform's URL parser rejects, the file
    name that [inferFileNameFromMediaUrl] returns is not empty and holds no
    slash, no backslash, no question mark and no hash sign: it is a single
    path segment, without query and fragment. *)
Theorem inferred_name_of_unparsed_url
    (P : Media.Platform) (mediaUrl name : string) :
  Media.parseURL P (Js.trim mediaUrl) = None ->
  Media.inferFileNameFromMediaUrl P mediaUrl = Some name ->
  Js.truthy name = true
  /\ everyUnit (fun c => negb (Media.isSlash c)) name = true
  /\ everyUnit (fun c => negb (Media.isQueryOrFragment c)) name = true.
Proof.
  intros U. unfold Media.inferFileNameFromMediaUrl.
  destruct (negb (Js.truthy (Js.trim mediaUrl))); [discriminate|].
  rewrite U.
  destruct (last _) as [l|] eqn:L; [|discriminate].
  destruct (Js.truthy l) eqn:T; [|discriminate].
  intros [= <-]. apply last_In in L. split; [exact T|]. split.
  - now apply (splitOnAcc_separated _ _ _ _ L).
  - apply (splitOnAcc_units _ _ _ _ _ L); [reflexivity|].
    unfold Js.first, Js.splitOn.
    destruct (Js.splitOnAcc Media.isQueryOrFragment "" (Js.trim mediaUrl))
      as [|h t] eqn:S; [reflexivity|].
    cbn. apply (splitOnAcc_separated Media.isQueryOrFragment "" (Js.trim mediaUrl)).
    + rewrite S. now left.
    + reflexivity.
Qed.

Lemma inferred_name_of_unparsed_url_witness :
  Media.inferFileNameFromMediaUrl Sample.platform " files/2024\pic.png?size=1#top "
  = Some "pic.png"
  /\ everyUnit (fun c => negb (Media.isSlash c)) "pic.png" = true.
Proof.
  split; [reflexivity|].
  apply (inferred_name_of_unparsed_url Sample.platform
           " files/2024\pic.png?size=1#top " "pic.png"); reflexivity.
Defined.
